(** * JPO2025 (AirAPI): station search, series store and chart projection

    A shallow embedding of the application logic of [mainwindow.cpp]
    (class [MainWindow]; its declaration, [mainwindow.h], follows
    [main.qml] in [src/main.qml]) and of the JavaScript blocks of
    [StationDialog.qml] (the chart canvas and the statistics texts; the
    file is the second part of [src/unnamed/part_001]), followed by the
    properties proved about them. *)

From Stdlib Require Import QArith Qabs Qround Qpower Lqa Lia.
From stdpp Require Import gmap strings list pretty sorting.

Open Scope string_scope.
Open Scope list_scope.

(** ** Numbers

    C++ [double] and JavaScript numbers are IEEE binary64.  A number is
    kept as the exact rational value of a finite one, or as one of the
    three special values; the two zeros are not distinguished.
    Comparisons, [Math.max] and [Math.min] are exact on such values and
    are defined in [Num].  The sum, difference, product and quotient of
    the machine round their result and overflow, and
    [Number.prototype.toFixed] belongs to the JavaScript engine: the
    program is written over them as over two interfaces, [Arithmetic]
    and [Engine], below.  [Num] also defines the operations that neither
    round nor overflow (a non-zero number divided by zero takes the sign
    of the numerator), which make up the arithmetic [idealArithmetic],
    and the decimal form of a number, [decimalForm].  The arithmetic of
    the machine, [binary64], rounds the results of these operations. *)

Inductive number : Type :=
  | Finite (q : Q)
  | PosInf
  | NegInf
  | NaN.

Module Num.

Definition zero : number := Finite 0%Q.
Definition one : number := Finite 1%Q.

Definition of_Z (z : Z) : number := Finite (inject_Z z).
Definition of_nat (n : nat) : number := of_Z (Z.of_nat n).

(** [Number.MAX_VALUE], [std::numeric_limits<double>::max()]:
    (2^53 - 1) * 2^971. *)
Definition MAX_VALUE : number := of_Z ((2 ^ 53 - 1) * 2 ^ 971).

Definition isNaN (a : number) : bool :=
  match a with NaN => true | _ => false end.

Definition isFinite (a : number) : bool :=
  match a with Finite _ => true | _ => false end.

Definition neg (a : number) : number :=
  match a with
  | Finite q => Finite (- q)%Q
  | PosInf => NegInf
  | NegInf => PosInf
  | NaN => NaN
  end.

Definition add (a b : number) : number :=
  match a, b with
  | NaN, _ | _, NaN => NaN
  | Finite x, Finite y => Finite (Qred (x + y))
  | PosInf, NegInf | NegInf, PosInf => NaN
  | PosInf, _ | _, PosInf => PosInf
  | NegInf, _ | _, NegInf => NegInf
  end.

Definition sub (a b : number) : number := add a (neg b).

(** The infinity with the sign of [q * s], [s] being +1 or -1; NaN when
    [q] is zero. *)
Definition signed_inf (q : Q) (positive : bool) : number :=
  match Qcompare q 0%Q with
  | Eq => NaN
  | Gt => if positive then PosInf else NegInf
  | Lt => if positive then NegInf else PosInf
  end.

Definition mul (a b : number) : number :=
  match a, b with
  | NaN, _ | _, NaN => NaN
  | Finite x, Finite y => Finite (Qred (x * y))
  | Finite x, PosInf | PosInf, Finite x => signed_inf x true
  | Finite x, NegInf | NegInf, Finite x => signed_inf x false
  | PosInf, PosInf | NegInf, NegInf => PosInf
  | PosInf, NegInf | NegInf, PosInf => NegInf
  end.

Definition div (a b : number) : number :=
  match a, b with
  | NaN, _ | _, NaN => NaN
  | Finite x, Finite y =>
      if Qeq_bool y 0%Q then signed_inf x true else Finite (Qred (x / y))
  | Finite _, (PosInf | NegInf) => Finite 0%Q
  | (PosInf | NegInf), (PosInf | NegInf) => NaN
  | PosInf, Finite y => if Qle_bool 0%Q y then PosInf else NegInf
  | NegInf, Finite y => if Qle_bool 0%Q y then NegInf else PosInf
  end.

(** [a < b]; false as soon as one side is NaN. *)
Definition ltb (a b : number) : bool :=
  match a, b with
  | NaN, _ | _, NaN => false
  | Finite x, Finite y => negb (Qle_bool y x)
  | NegInf, NegInf => false
  | NegInf, _ => true
  | _, NegInf => false
  | PosInf, _ => false
  | Finite _, PosInf => true
  end.

(** [a <= b]; false as soon as one side is NaN. *)
Definition leb (a b : number) : bool :=
  match a, b with
  | NaN, _ | _, NaN => false
  | Finite x, Finite y => Qle_bool x y
  | NegInf, _ => true
  | _, PosInf => true
  | _, _ => false
  end.

(** [a === b] on numbers. *)
Definition eqb (a b : number) : bool :=
  match a, b with
  | Finite x, Finite y => Qeq_bool x y
  | PosInf, PosInf | NegInf, NegInf => true
  | _, _ => false
  end.

(** [Math.max] and [Math.min] of two numbers. *)
Definition max (a b : number) : number :=
  if isNaN a || isNaN b then NaN else if ltb a b then b else a.

Definition min (a b : number) : number :=
  if isNaN a || isNaN b then NaN else if ltb b a then b else a.

(** Equality of numbers up to the representation of the rational. *)
Definition equiv (a b : number) : Prop :=
  match a, b with
  | Finite x, Finite y => (x == y)%Q
  | PosInf, PosInf | NegInf, NegInf | NaN, NaN => True
  | _, _ => False
  end.

(** *** The decimal form of a number

    For a finite [x]: the integer [n] nearest to [x * 10^f] (the larger
    one on a tie), written in decimal with [f] digits after the point,
    after a minus sign when [x < 0].  [Number.prototype.toFixed] gives
    this form for a number below 10^21 in magnitude, and exponent
    notation from there on. *)

Fixpoint zeros (k : nat) : string :=
  match k with O => "" | S k' => "0" +:+ zeros k' end.

Definition toFixed_nonneg (f : nat) (x : Q) : string :=
  let n := Qfloor (x * inject_Z (10 ^ Z.of_nat f) + (1 # 2))%Q in
  let m := pretty n in
  match f with
  | O => m
  | _ =>
      let k := String.length m in
      let m := if (k <=? f)%nat then zeros (f + 1 - k) +:+ m else m in
      let k := String.length m in
      String.substring 0 (k - f) m +:+ "." +:+ String.substring (k - f) f m
  end.

Definition toFixed (f : nat) (a : number) : string :=
  match a with
  | NaN => "NaN"
  | PosInf => "Infinity"
  | NegInf => "-Infinity"
  | Finite x =>
      if Qle_bool 0%Q x then toFixed_nonneg f x
      else "-" +:+ toFixed_nonneg f (- x)%Q
  end.

End Num.

Declare Scope num_scope.
Delimit Scope num_scope with num.
Bind Scope num_scope with number.
Infix "≡ₙ" := Num.equiv (at level 70).

(** *** Arithmetic and formatting

    What the program takes from the machine: the numbers it has and the
    four operations on them; and from the JavaScript engine:
    [Number.prototype.toFixed]. *)
Class Arithmetic : Type := {
  machine : number → Prop;
  fadd : number → number → number;
  fsub : number → number → number;
  fmul : number → number → number;
  fdiv : number → number → number
}.

Class Engine : Type := {
  toFixed : nat → number → string
}.

Infix "+" := fadd : num_scope.
Infix "-" := fsub : num_scope.
Infix "*" := fmul : num_scope.
Infix "/" := fdiv : num_scope.

(** *** The arithmetic of the machine

    A result of the machine is the exact one rounded to the nearest
    binary64 number, to the one with the even significand when two are
    as near, and to an infinity when that number would be beyond
    [Number.MAX_VALUE]; a result that is an infinity or NaN before
    rounding stays as it is. *)
Module Binary64.

(** The integer nearest to [x], the even one of two. *)
Definition nearestEven (x : Q) : Z :=
  let f := Qfloor x in
  match Qcompare (x - inject_Z f) (1 # 2) with
  | Lt => f
  | Gt => (f + 1)%Z
  | Eq => if Z.even f then f else (f + 1)%Z
  end.

(** For [x > 0], the [e] with [2^e <= x < 2^(e+1)]. *)
Definition binade (x : Q) : Z :=
  let e0 := (Z.log2 (Qnum x) - Z.log2 (Zpos (Qden x)))%Z in
  if Qle_bool (2 ^ e0) x then e0 else (e0 - 1)%Z.

(** The exponent of the last place of the binary64 numbers around
    [x > 0]: 52 places below the first one, and -1074 at least. *)
Definition lastPlace (x : Q) : Z := Z.max (binade x - 52) (-1074).

Definition maxValue : Q := inject_Z ((2 ^ 53 - 1) * 2 ^ 971).

(** The significand of the binary64 number nearest to [x > 0], and
    that number. *)
Definition significand (x : Q) : Z := nearestEven (x / 2 ^ lastPlace x).

Definition nearest (x : Q) : Q :=
  (inject_Z (significand x) * 2 ^ lastPlace x)%Q.

(** [x > 0] rounded; [None] beyond the largest number. *)
Definition roundPos (x : Q) : option Q :=
  if Qle_bool (nearest x) maxValue then Some (Qred (nearest x)) else None.

Definition round (x : Q) : number :=
  let x := Qred x in
  match Qcompare x 0 with
  | Eq => Finite 0
  | Gt => match roundPos x with Some r => Finite r | None => PosInf end
  | Lt =>
      match roundPos (- x) with Some r => Finite (- r) | None => NegInf end
  end.

Definition rounded (a : number) : number :=
  match a with Finite q => round q | _ => a end.

(** A binary64 number: rounding leaves it as it is. *)
Definition representable (a : number) : Prop := rounded a ≡ₙ a.

End Binary64.

Definition binary64 : Arithmetic :=
  {| machine := Binary64.representable;
     fadd := λ a b, Binary64.rounded (Num.add a b);
     fsub := λ a b, Binary64.rounded (Num.sub a b);
     fmul := λ a b, Binary64.rounded (Num.mul a b);
     fdiv := λ a b, Binary64.rounded (Num.div a b) |}.

(** ** The C++ side: [mainwindow.h], [mainwindow.cpp] *)

(** *** Qt value types *)

(** [QGeoCoordinate(lat, lon)]: the constructor keeps its arguments only
    when both are in range, and is the invalid coordinate otherwise. *)
Record QGeoCoordinate : Type := {
  latitude : number;
  longitude : number
}.

Definition isValidLat (lat : number) : bool :=
  Num.leb (Num.of_Z (-90)) lat && Num.leb lat (Num.of_Z 90).

Definition isValidLong (lng : number) : bool :=
  Num.leb (Num.of_Z (-180)) lng && Num.leb lng (Num.of_Z 180).

Definition mkQGeoCoordinate (lat lon : number) : QGeoCoordinate :=
  if isValidLat lat && isValidLong lon
  then {| latitude := lat; longitude := lon |}
  else {| latitude := NaN; longitude := NaN |}.

(** What the program uses of Qt without defining it: the two [QString]
    case and white-space normalisations and the distance in metres between
    two coordinates. *)
Class QtLibrary : Type := {
  toLower : string → string;
  simplified : string → string;
  distanceTo : QGeoCoordinate → QGeoCoordinate → number
}.

(** [QString::number(int)]. *)
Definition QString_number (n : Z) : string := pretty n.

(** A finished [QNetworkReply]: an error with its [errorString()], or the
    body, read here as the provider's schema delivers it. *)
Inductive QNetworkReply (A : Type) : Type :=
  | ReplyError (errorString : string)
  | ReplyFinished (body : A).
Arguments ReplyError {A} errorString.
Arguments ReplyFinished {A} body.

(** *** class Station

    The signal [isSearchedChanged] of a station is not modelled. *)

Record Station : Type := {
  stationId : Z;
  stationName : string;
  cityName : string;
  address : string;
  lat : number;
  lon : number;
  isSearched : bool
}.

Definition setIsSearched (searched : bool) (s : Station) : Station :=
  {| stationId := stationId s; stationName := stationName s;
     cityName := cityName s; address := address s;
     lat := lat s; lon := lon s; isSearched := searched |}.

(** *** The members of MainWindow *)

(** One entry of [m_sensors]. *)
Record Sensor : Type := {
  paramName : string;
  sensorId : Z
}.

(** The [value] of a measurement: JSON [null] or a number. *)
Inductive QVariantValue : Type :=
  | VNull
  | VDouble (d : number).

(** One measurement: the map with keys [date] and [value]. *)
Record Sample : Type := {
  date : string;
  value : QVariantValue
}.

(** A value of [m_sensorData]: a list of measurements, or the invalid
    [QVariant] that [operator[]] default-constructs for a missing key. *)
Inductive QVariant : Type :=
  | QInvalid
  | QList (l : list Sample).

Definition toList (v : QVariant) : list Sample :=
  match v with QList l => l | QInvalid => [] end.

Definition toDouble (v : QVariantValue) : number :=
  match v with VDouble d => d | VNull => Num.zero end.

Record MainWindow : Type := {
  m_mapCenter : QGeoCoordinate;
  m_status : string;
  m_stations : list Station;
  m_allStations : list Station;
  m_sensors : list Sensor;
  m_sensorData : gmap string QVariant
}.

Inductive Signal : Type :=
  | mapCenterChanged
  | statusChanged
  | stationsChanged
  | allStationsChanged
  | sensorsChanged
  | sensorDataChanged.

Definition set_mapCenter (c : QGeoCoordinate) (w : MainWindow) : MainWindow :=
  {| m_mapCenter := c; m_status := m_status w; m_stations := m_stations w;
     m_allStations := m_allStations w; m_sensors := m_sensors w;
     m_sensorData := m_sensorData w |}.

Definition set_status (s : string) (w : MainWindow) : MainWindow :=
  {| m_mapCenter := m_mapCenter w; m_status := s; m_stations := m_stations w;
     m_allStations := m_allStations w; m_sensors := m_sensors w;
     m_sensorData := m_sensorData w |}.

Definition set_stations (l : list Station) (w : MainWindow) : MainWindow :=
  {| m_mapCenter := m_mapCenter w; m_status := m_status w; m_stations := l;
     m_allStations := m_allStations w; m_sensors := m_sensors w;
     m_sensorData := m_sensorData w |}.

Definition set_allStations (l : list Station) (w : MainWindow) : MainWindow :=
  {| m_mapCenter := m_mapCenter w; m_status := m_status w;
     m_stations := m_stations w; m_allStations := l; m_sensors := m_sensors w;
     m_sensorData := m_sensorData w |}.

Definition set_sensors (l : list Sensor) (w : MainWindow) : MainWindow :=
  {| m_mapCenter := m_mapCenter w; m_status := m_status w;
     m_stations := m_stations w; m_allStations := m_allStations w;
     m_sensors := l; m_sensorData := m_sensorData w |}.

Definition set_sensorData (m : gmap string QVariant) (w : MainWindow)
  : MainWindow :=
  {| m_mapCenter := m_mapCenter w; m_status := m_status w;
     m_stations := m_stations w; m_allStations := m_allStations w;
     m_sensors := m_sensors w; m_sensorData := m |}.

(** A slot runs on the window and returns it with the signals emitted, in
    order. *)
Definition Slot : Type := MainWindow → MainWindow * list Signal.

(** *** Slots that do not wait for the network *)

(** [MainWindow::updateStationSearchStatus] *)
Definition updateStationSearchStatus (id : Z) (searched : bool) : Slot :=
  λ w,
    (set_allStations
       (map (λ station, if (stationId station =? id)%Z
                        then setIsSearched searched station else station)
            (m_allStations w)) w,
     [allStationsChanged]).

(** [MainWindow::removeSensorData] *)
Definition removeSensorData (id : Z) : Slot :=
  λ w, (set_sensorData (delete (QString_number id) (m_sensorData w)) w,
        [sensorDataChanged]).

(** *** Saving a station to a file *)

(** The JSON document written by [saveStationData]; an object lists its
    members in the order the code assigns them. *)
#[local] Unset Elimination Schemes.
Inductive QJsonValue : Type :=
  | JInt (z : Z)
  | JDouble (d : number)
  | JString (s : string)
  | JArray (items : list QJsonValue)
  | JObject (members : list (string * QJsonValue)).
#[local] Set Elimination Schemes.

(** What [saveStationData] reads from outside the window: the clock, in
    the two formats asked for, and whether a file can be opened for
    writing. *)
Record SaveEnv : Type := {
  now_ISODate : string;
  now_yyyyMMdd_HHmmss : string;
  openWriteOnly : string → bool
}.

(** The files of the working directory, by name. *)
Abbreviation FileSystem := (gmap string QJsonValue).

Definition measurementObj (dataPoint : Sample) : QJsonValue :=
  JObject [("date", JString (date dataPoint));
           ("value", JDouble (toDouble (value dataPoint)))].

(** The body of the loop over [m_sensors]: [m_sensorData[key]] on the
    non-const map inserts an invalid [QVariant] under a missing key. *)
Definition saveSensor (acc : gmap string QVariant * list QJsonValue)
    (sensorInfo : Sensor) : gmap string QVariant * list QJsonValue :=
  let '(sensorData, sensorsArray) := acc in
  let key := QString_number (sensorId sensorInfo) in
  let '(sensorData, entry) :=
    match sensorData !! key with
    | Some v => (sensorData, v)
    | None => (<[key := QInvalid]> sensorData, QInvalid)
    end in
  let measurementsArray := map measurementObj (toList entry) in
  let sensorObj :=
    JObject [("sensorId", JInt (sensorId sensorInfo));
             ("paramName", JString (paramName sensorInfo));
             ("measurements", JArray measurementsArray)] in
  (sensorData, sensorsArray ++ [sensorObj]).

(** [MainWindow::saveStationData] *)
Definition saveStationData (env : SaveEnv) (id : Z) (city addr : string)
    (fs : FileSystem) (w : MainWindow)
  : MainWindow * FileSystem * list Signal :=
  match find (λ s, (stationId s =? id)%Z) (m_allStations w) with
  | None =>
      (set_status ("Błąd: Stacja o ID " +:+ QString_number id
                   +:+ " nie znaleziona.") w, fs, [statusChanged])
  | Some station =>
      let '(sensorData, sensorsArray) :=
        fold_left saveSensor (m_sensors w) (m_sensorData w, []) in
      let w := set_sensorData sensorData w in
      let jsonObj :=
        JObject [("stationId", JInt id);
                 ("stationName", JString (stationName station));
                 ("cityName", JString city);
                 ("address", JString addr);
                 ("latitude", JDouble (lat station));
                 ("longitude", JDouble (lon station));
                 ("saveDate", JString (now_ISODate env));
                 ("sensors", JArray sensorsArray)] in
      let filename :=
        "station_" +:+ QString_number id +:+ "_"
        +:+ now_yyyyMMdd_HHmmss env +:+ ".json" in
      if openWriteOnly env filename
      then (set_status ("Dane zapisano do pliku: " +:+ filename) w,
            <[filename := jsonObj]> fs, [statusChanged])
      else (set_status ("Błąd: Nie można otworzyć pliku do zapisu: "
                        +:+ filename) w, fs, [statusChanged])
  end.

(** *** Slots run when a reply has finished *)

(** The first result of the geocoder, its coordinates parsed. *)
Record GeocodeResult : Type := {
  geo_lat : number;
  geo_lon : number
}.

(** One station of the directory ([id], [stationName], [city.name],
    [addressStreet], [gegrLat], [gegrLon]). *)
Record StationJson : Type := {
  js_id : Z;
  js_stationName : string;
  js_cityName : string;
  js_addressStreet : string;
  js_gegrLat : number;
  js_gegrLon : number
}.

(** The copy of a station put into [m_stations], flagged as searched. *)
Definition searchedCopy (station : Station) : Station :=
  {| stationId := stationId station; stationName := stationName station;
     cityName := cityName station; address := address station;
     lat := lat station; lon := lon station; isSearched := true |}.

Section Slots.
Context `{QtLibrary}.

(** The body of the loop that looks for stations of the searched city.
    [station] is an element of [m_allStations]; the loop reads only the
    members that never change. *)
Definition matchCity (normalizedSearchedCity : string)
    (acc : MainWindow * list Signal) (station : Station)
  : MainWindow * list Signal :=
  let '(w, emitted) := acc in
  let stationCity := simplified (toLower (cityName station)) in
  if String.eqb stationCity normalizedSearchedCity then
    let w := set_stations (m_stations w ++ [searchedCopy station]) w in
    let '(w, e) := updateStationSearchStatus (stationId station) true w in
    (w, emitted ++ e)
  else (w, emitted).

(** The body of the loop that looks for the closest station. *)
Definition closer (cityCoord : QGeoCoordinate)
    (acc : option Station * number) (station : Station)
  : option Station * number :=
  let '(closestStation, minDistance) := acc in
  let stationCoord := mkQGeoCoordinate (lat station) (lon station) in
  let distance := distanceTo cityCoord stationCoord in
  if Num.ltb distance minDistance then (Some station, distance)
  else (closestStation, minDistance).

Definition findClosest (cityCoord : QGeoCoordinate)
    (stations : list Station) : option Station * number :=
  fold_left (closer cityCoord) stations (None, Num.MAX_VALUE).

(** [MainWindow::onGeocodeReply] *)
Definition onGeocodeReply (reply : QNetworkReply (list GeocodeResult))
    (searchedCity : string) : Slot :=
  λ w,
    match reply with
    | ReplyError errorString =>
        (set_status ("Błąd wyszukiwania: " +:+ errorString) w,
         [statusChanged])
    | ReplyFinished [] =>
        (set_status "Nie znaleziono miasta." w, [statusChanged])
    | ReplyFinished (result :: _) =>
        let lat0 := geo_lat result in
        let lon0 := geo_lon result in
        let w := set_mapCenter (mkQGeoCoordinate lat0 lon0) w in
        let w := set_stations [] w in
        let w := set_allStations
                   (map (setIsSearched false) (m_allStations w)) w in
        let normalizedSearchedCity := simplified (toLower searchedCity) in
        let '(w, e1) :=
          fold_left (matchCity normalizedSearchedCity) (m_allStations w)
                    (w, []) in
        let '(w, e2) :=
          match m_stations w with
          | [] =>
              let cityCoord := mkQGeoCoordinate lat0 lon0 in
              match fst (findClosest cityCoord (m_allStations w)) with
              | Some closestStation =>
                  let w := set_stations
                             (m_stations w ++ [searchedCopy closestStation])
                             w in
                  let '(w, e) :=
                    updateStationSearchStatus (stationId closestStation)
                                              true w in
                  let w := set_mapCenter
                             (mkQGeoCoordinate (lat closestStation)
                                               (lon closestStation)) w in
                  (set_status
                     ("Nie znaleziono stacji w " +:+ searchedCity
                      +:+ ". Najbliższa stacja znajduje się w "
                      +:+ cityName closestStation +:+ ".") w,
                   e ++ [mapCenterChanged])
              | None =>
                  (set_status ("Nie znaleziono stacji w " +:+ searchedCity
                               +:+ ".") w, [])
              end
          | _ :: _ =>
              (set_status
                 ("Znaleziono "
                  +:+ QString_number (Z.of_nat (length (m_stations w)))
                  +:+ " stacji w " +:+ searchedCity +:+ ".") w, [])
          end in
        (w, [mapCenterChanged] ++ e1 ++ e2
            ++ [stationsChanged; statusChanged])
    end.

End Slots.

(** [MainWindow::onStationsReply] *)
Definition onStationsReply (reply : QNetworkReply (list StationJson)) : Slot :=
  λ w,
    match reply with
    | ReplyError errorString =>
        (set_status ("Błąd pobierania stacji: " +:+ errorString) w,
         [statusChanged])
    | ReplyFinished stations =>
        (set_allStations
           (map (λ obj, {| stationId := js_id obj;
                           stationName := js_stationName obj;
                           cityName := js_cityName obj;
                           address := js_addressStreet obj;
                           lat := js_gegrLat obj; lon := js_gegrLon obj;
                           isSearched := false |}) stations) w,
         [allStationsChanged])
    end.

(** [MainWindow::onSensorsReply]; a sensor of the reply is its [id] and
    its [param.paramName]. *)
Definition onSensorsReply (reply : QNetworkReply (list (Z * string))) : Slot :=
  λ w,
    match reply with
    | ReplyError _ => (set_sensors [] w, [sensorsChanged])
    | ReplyFinished sensors =>
        (set_sensors
           (map (λ obj, {| paramName := snd obj; sensorId := fst obj |})
                sensors) w,
         [sensorsChanged])
    end.

(** [MainWindow::onSensorDataReply]; the body is the [values] array, each
    element with its [date] and [value]. *)
Definition onSensorDataReply (reply : QNetworkReply (list Sample)) (id : Z)
  : Slot :=
  λ w,
    match reply with
    | ReplyError _ =>
        (set_sensorData (delete (QString_number id) (m_sensorData w)) w,
         [sensorDataChanged])
    | ReplyFinished values =>
        let sensorDataList := map (λ dataPoint,
                                     {| date := date dataPoint;
                                        value := value dataPoint |}) values in
        (set_sensorData
           (<[QString_number id := QList sensorDataList]> (m_sensorData w)) w,
         [sensorDataChanged])
    end.

(** ** The QML side: [StationDialog.qml] *)

(** *** The object [selectedSensors]

    Its properties are assigned under sensor ids.  An own property whose
    key is an array index (an integer from 0 to 2^32 - 2) is enumerated
    before all others and in ascending numeric order; the other keys
    follow in the order of their creation. *)
Record JSObject : Type := {
  indexed : list (Z * string);
  named : list (Z * string)
}.

Definition emptyObject : JSObject := {| indexed := []; named := [] |}.

Definition isArrayIndex (k : Z) : bool := (0 <=? k)%Z && (k <? 2 ^ 32 - 1)%Z.

Fixpoint putIndexed (k : Z) (v : string) (l : list (Z * string))
  : list (Z * string) :=
  match l with
  | [] => [(k, v)]
  | (k', v') :: l' =>
      if (k <? k')%Z then (k, v) :: l
      else if (k =? k')%Z then (k, v) :: l'
      else (k', v') :: putIndexed k v l'
  end.

Fixpoint putNamed (k : Z) (v : string) (l : list (Z * string))
  : list (Z * string) :=
  match l with
  | [] => [(k, v)]
  | (k', v') :: l' =>
      if (k =? k')%Z then (k, v) :: l' else (k', v') :: putNamed k v l'
  end.

Definition removeKey (k : Z) (l : list (Z * string)) : list (Z * string) :=
  filter (λ p, fst p ≠ k) l.

(** [o[k] = v] *)
Definition setProperty (k : Z) (v : string) (o : JSObject) : JSObject :=
  if isArrayIndex k
  then {| indexed := putIndexed k v (indexed o); named := named o |}
  else {| indexed := indexed o; named := putNamed k v (named o) |}.

(** [delete o[k]] *)
Definition deleteProperty (k : Z) (o : JSObject) : JSObject :=
  {| indexed := removeKey k (indexed o); named := removeKey k (named o) |}.

(** The property key of an integer: its decimal digits. *)
Definition propertyKey (k : Z) : string := pretty k.

(** [Object.keys(o)] *)
Definition Object_keys (o : JSObject) : list string :=
  map (λ p, propertyKey (fst p)) (indexed o ++ named o).

(** [CheckBox.onCheckedChanged] of a row of the parameter list, up to the
    repaint request: the selection is updated at once, and so is the
    window when the box is cleared; the data asked for when the box is
    ticked arrives later, through [onSensorDataReply]. *)
Definition onCheckedChanged (checked : bool) (modelData : Sensor)
    (st : JSObject * MainWindow) : JSObject * MainWindow :=
  let '(selectedSensors, w) := st in
  if checked
  then (setProperty (sensorId modelData) (paramName modelData)
                    selectedSensors, w)
  else (deleteProperty (sensorId modelData) selectedSensors,
        fst (removeSensorData (sensorId modelData) w)).

(** *** Reading [mainWindow.sensorData] *)

(** [sensorData[key]] when it is truthy: a list, possibly empty.  A
    missing key and an invalid [QVariant] both read as [undefined]. *)
Definition dataOf (sensorData : gmap string QVariant) (key : string)
  : option (list Sample) :=
  match sensorData !! key with
  | Some (QList data) => Some data
  | _ => None
  end.

(** [value !== null && !isNaN(value)] *)
Definition isValue (v : QVariantValue) : bool :=
  match v with
  | VNull => false
  | VDouble d => negb (Num.isNaN d)
  end.

(** *** [chartCanvas.onPaint] *)

Inductive CanvasOp : Type :=
  | StrokeStyle (color : string)
  | LineWidth (w : number)
  | BeginPath
  | MoveTo (x y : number)
  | LineTo (x y : number)
  | Stroke
  | FillStyle (color : string)
  | FillText (text : string) (x y : number).

Definition colors : list string :=
  ["#4CAF50"; "#FF0000"; "#0000FF"; "#FFA500"; "#800080"; "#00CED1"].

(** The variables of the first loop over the selected sensors. *)
Record Scan : Type := {
  globalMaxValue : number;
  globalMinValue : number;
  allDataPoints : list (list Sample);
  timePoints : list string
}.

Definition scanStart : Scan :=
  {| globalMaxValue := Num.neg Num.MAX_VALUE;
     globalMinValue := Num.MAX_VALUE;
     allDataPoints := []; timePoints := [] |}.

(** The body of the loop over [j]. *)
Definition scanSample (i : nat) (acc : Scan) (sample : Sample) : Scan :=
  let '(gmax, gmin) :=
    match value sample with
    | VDouble v =>
        if negb (Num.isNaN v)
        then (Num.max (globalMaxValue acc) v, Num.min (globalMinValue acc) v)
        else (globalMaxValue acc, globalMinValue acc)
    | VNull => (globalMaxValue acc, globalMinValue acc)
    end in
  {| globalMaxValue := gmax; globalMinValue := gmin;
     allDataPoints := allDataPoints acc;
     timePoints := if (i =? 0)%nat then timePoints acc ++ [date sample]
                   else timePoints acc |}.

(** The loop over [i], from index [i] on. *)
Fixpoint scanSensors (sensorData : gmap string QVariant) (i : nat)
    (selectedSensorIds : list string) (acc : Scan) : Scan :=
  match selectedSensorIds with
  | [] => acc
  | sensorId :: rest =>
      match dataOf sensorData sensorId with
      | None => scanSensors sensorData (S i) rest acc
      | Some data =>
          let acc := fold_left (scanSample i) data acc in
          let acc := {| globalMaxValue := globalMaxValue acc;
                        globalMinValue := globalMinValue acc;
                        allDataPoints := allDataPoints acc ++ [data];
                        timePoints := timePoints acc |} in
          scanSensors sensorData (S i) rest acc
      end
  end.

(** A time point has a second part when split at spaces: it holds a
    space (character 32). *)
Fixpoint hasTimePart (timePoint : string) : bool :=
  match timePoint with
  | EmptyString => false
  | String c rest => Ascii.eqb c (Ascii.ascii_of_nat 32) || hasTimePart rest
  end.

Section Paint.
Context `{Arithmetic} `{Engine}.
Variables width height : number.

(** The horizontal and vertical position of sample [i] of [n], of
    value [v]. *)
Definition xOf (n i : nat) : number :=
  ((Num.of_nat i / (Num.of_nat n - Num.one)) * width)%num.

Definition yOf (gmin gmax v : number) : number :=
  (height - ((v - gmin) / (gmax - gmin)) * height)%num.

(** The loop over the samples of one series, from index [i] on; [n] is
    [data.length]. *)
Fixpoint plotSamples (gmin gmax : number) (n i : nat) (firstPoint : bool)
    (data : list Sample) : list CanvasOp :=
  match data with
  | [] => []
  | sample :: rest =>
      match value sample with
      | VNull => plotSamples gmin gmax n (S i) firstPoint rest
      | VDouble v =>
          if Num.isNaN v then plotSamples gmin gmax n (S i) firstPoint rest
          else
            let x := xOf n i in
            let y := yOf gmin gmax v in
            (if firstPoint then MoveTo x y else LineTo x y)
              :: plotSamples gmin gmax n (S i) false rest
      end
  end.

Definition plotOne (gmin gmax : number) (color : string)
    (data : list Sample) : list CanvasOp :=
  [StrokeStyle color; LineWidth (Num.of_Z 2); BeginPath]
  ++ plotSamples gmin gmax (length data) 0 true data ++ [Stroke].

(** The loop over [s]: it ends with the selected ids or with the
    colours, whichever is shorter. *)
Fixpoint plotSeries (sensorData : gmap string QVariant)
    (gmin gmax : number) (palette : list string)
    (selectedSensorIds : list string) {struct selectedSensorIds}
  : list CanvasOp :=
  match selectedSensorIds, palette with
  | sensorId :: rest, color :: palette' =>
      match dataOf sensorData sensorId with
      | None => plotSeries sensorData gmin gmax palette' rest
      | Some data =>
          plotOne gmin gmax color data
          ++ plotSeries sensorData gmin gmax palette' rest
      end
  | _, _ => []
  end.

(** Tick [i] of the value axis, and the loop that labels the ticks. *)
Definition tickValue (gmin gmax : number) (i : nat) : number :=
  (gmin + (Num.of_nat i * (gmax - gmin)) / Num.of_Z 5)%num.

Definition valueLabel (gmin gmax : number) (i : nat) : list CanvasOp :=
  let v := tickValue gmin gmax i in
  let y := (height - (Num.of_nat i * height) / Num.of_Z 5)%num in
  if negb (Num.isNaN v)
  then [FillText (toFixed 1 v) (Num.of_Z 10) (y - Num.of_Z 5)%num]
  else [].

Definition valueLabels (gmin gmax : number) : list CanvasOp :=
  FillStyle "black" :: flat_map (valueLabel gmin gmax) (seq 0 6).

(** The range after the scan: widened by one on each side when the
    maximum equals the minimum. *)
Definition chartRange (scan : Scan) : number * number :=
  if Num.eqb (globalMaxValue scan) (globalMinValue scan)
  then ((globalMinValue scan - Num.one)%num,
        (globalMaxValue scan + Num.one)%num)
  else (globalMinValue scan, globalMaxValue scan).

(** [onPaint], from the reading of [mainWindow.sensorData] on: the two
    placeholder texts, the series and the labels of the value axis.  The
    background grid, the axes, the day markers, the time labels and the
    axis titles are not part of the model.  The loop of the time labels
    runs between the series and the value labels: it calls [split] on the
    part of each time point after its first space, which throws and ends
    the paint when a time point has no such part. *)
Definition onPaint (sensorData : gmap string QVariant)
    (selectedSensors : JSObject) : list CanvasOp :=
  let selectedSensorIds := Object_keys selectedSensors in
  if (length selectedSensorIds =? 0)%nat || (size sensorData =? 0)%nat
  then [FillText "Wybierz mierzone parametry aby wyświetlić odczyty."
                 (width / Num.of_Z 2 - Num.of_Z 150)%num
                 (height / Num.of_Z 2)%num]
  else
    let scan := scanSensors sensorData 0 selectedSensorIds scanStart in
    let '(gmin, gmax) := chartRange scan in
    if (length (timePoints scan) =? 0)%nat
    then [FillText "Brak danych czasowych."
                   (width / Num.of_Z 2 - Num.of_Z 100)%num
                   (height / Num.of_Z 2)%num]
    else
      plotSeries sensorData gmin gmax colors selectedSensorIds
      ++ (if forallb hasTimePart (timePoints scan)
          then valueLabels gmin gmax else []).

End Paint.

(** *** The path a canvas draws

    [moveTo] starts a sub-path at a point, [lineTo] joins the current
    point to a new one; both are ignored when a coordinate is not finite,
    and a [lineTo] with no current point only sets it. *)
Definition Point : Type := number * number.

Definition finitePoint (x y : number) : bool :=
  Num.isFinite x && Num.isFinite y.

Fixpoint segmentsFrom (current : option Point) (ops : list CanvasOp)
  : list (Point * Point) :=
  match ops with
  | [] => []
  | BeginPath :: rest => segmentsFrom None rest
  | MoveTo x y :: rest =>
      if finitePoint x y then segmentsFrom (Some (x, y)) rest
      else segmentsFrom current rest
  | LineTo x y :: rest =>
      if finitePoint x y then
        match current with
        | Some p => (p, (x, y)) :: segmentsFrom (Some (x, y)) rest
        | None => segmentsFrom (Some (x, y)) rest
        end
      else segmentsFrom current rest
  | _ :: rest => segmentsFrom current rest
  end.

Definition segments (ops : list CanvasOp) : list (Point * Point) :=
  segmentsFrom None ops.

(** *** The statistics texts *)

Inductive JSResult (A : Type) : Type :=
  | Return (a : A)
  | TypeError.
Arguments Return {A} a.
Arguments TypeError {A}.

(** The common opening of the four bindings: the empty text when nothing
    is chosen, [noData] when the chosen sensor has no data or an empty
    list, and otherwise [text] of the first element and of the whole
    list.  Reading [sensorId] of a missing element of
    [mainWindow.sensors] throws. *)
Definition statText (noData : string) (text : Sample → list Sample → string)
    (currentIndex : Z) (w : MainWindow) : JSResult string :=
  if (currentIndex <? 0)%Z then Return ""
  else
    match m_sensors w !! Z.to_nat currentIndex with
    | None => TypeError
    | Some sensor =>
        match dataOf (m_sensorData w) (propertyKey (sensorId sensor)) with
        | None | Some [] => Return noData
        | Some (first :: rest) => Return (text first (first :: rest))
        end
    end.

Section Statistics.
Context `{Arithmetic} `{Engine}.

Definition latestText (latest : Sample) : string :=
  "Aktualny odczyt: "
  +:+ match value latest with
      | VNull => "Brak"
      | VDouble d => toFixed 2 d
      end
  +:+ " µg/m³ (" +:+ date latest +:+ ")".

(** The loop of the mean: [sum] and [count]. *)
Definition meanStep (acc : number * nat) (sample : Sample) : number * nat :=
  match value sample with
  | VDouble v =>
      if negb (Num.isNaN v) then ((fst acc + v)%num, S (snd acc)) else acc
  | VNull => acc
  end.

Definition meanText (data : list Sample) : string :=
  let '(sum, count) := fold_left meanStep data (Num.zero, O) in
  let avg := if (0 <? count)%nat
             then toFixed 2 (sum / Num.of_nat count)%num
             else "Brak" in
  "Średnia wartość: " +:+ avg +:+ " µg/m³".

Definition minStep (min : number) (sample : Sample) : number :=
  match value sample with
  | VDouble v => if negb (Num.isNaN v) then Num.min min v else min
  | VNull => min
  end.

Definition minText (data : list Sample) : string :=
  let min := fold_left minStep data Num.MAX_VALUE in
  "Minimalna wartość: "
  +:+ (if negb (Num.eqb min Num.MAX_VALUE) then toFixed 2 min else "Brak")
  +:+ " µg/m³".

Definition maxStep (max : number) (sample : Sample) : number :=
  match value sample with
  | VDouble v => if negb (Num.isNaN v) then Num.max max v else max
  | VNull => max
  end.

Definition maxText (data : list Sample) : string :=
  let max := fold_left maxStep data (Num.neg Num.MAX_VALUE) in
  "Maksymalna wartość: "
  +:+ (if negb (Num.eqb max (Num.neg Num.MAX_VALUE))
       then toFixed 2 max else "Brak")
  +:+ " µg/m³".

Definition latestValueText : Z → MainWindow → JSResult string :=
  statText "Brak danych" (λ latest _, latestText latest).
Definition meanValueText : Z → MainWindow → JSResult string :=
  statText "Średnia wartość: Brak danych" (λ _ data, meanText data).
Definition minValueText : Z → MainWindow → JSResult string :=
  statText "Minimalna wartość: Brak danych" (λ _ data, minText data).
Definition maxValueText : Z → MainWindow → JSResult string :=
  statText "Maksymalna wartość: Brak danych" (λ _ data, maxText data).

End Statistics.

(** ** Vocabulary of the statements *)

Section SearchVocabulary.
Context `{QtLibrary}.

(** The distance the search compares: from the geocoded point to a
    station. *)
Definition distanceFrom (cityCoord : QGeoCoordinate) (station : Station)
  : number :=
  distanceTo cityCoord (mkQGeoCoordinate (lat station) (lon station)).

(** What the loop for the closest station has established after a
    prefix of the catalogue. *)
Definition closestSoFar (cityCoord : QGeoCoordinate) (seen : list Station)
    (acc : option Station * number) : Prop :=
  match fst acc with
  | None => seen = [] ∧ snd acc = Num.MAX_VALUE
  | Some c =>
      c ∈ seen ∧ snd acc = distanceFrom cityCoord c
      ∧ ∀ s, s ∈ seen →
          Num.leb (distanceFrom cityCoord c) (distanceFrom cityCoord s)
          = true
  end.

End SearchVocabulary.

(** The samples of a series that carry a value, in order, each with its
    index in the series counted from [i]. *)
Fixpoint valuedFrom (i : nat) (data : list Sample) : list (nat * number) :=
  match data with
  | [] => []
  | sample :: rest =>
      if isValue (value sample)
      then (i, toDouble (value sample)) :: valuedFrom (S i) rest
      else valuedFrom (S i) rest
  end.

Definition valued (data : list Sample) : list (nat * number) :=
  valuedFrom 0 data.

Definition validValues (data : list Sample) : list number :=
  map snd (valued data).

(** The point of the canvas where sample [i], of value [v], of a series
    of [n] samples is drawn. *)
Definition pointOf `{Arithmetic} (width height gmin gmax : number) (n : nat)
    (iv : nat * number) : Point :=
  (xOf width n (fst iv), yOf height gmin gmax (snd iv)).

(** The points named by the path operations, in order. *)
Definition vertices (ops : list CanvasOp) : list Point :=
  omap (λ op, match op with
              | MoveTo x y | LineTo x y => Some (x, y)
              | _ => None
              end) ops.

(** A [lineTo] to each of [points]. *)
Definition lineTos (points : list Point) : list CanvasOp :=
  map (λ q, LineTo (fst q) (snd q)) points.

(** The operations of a polyline through [points]: a [moveTo] (a
    [lineTo] when the path has already begun) to the first point, a
    [lineTo] to each later one. *)
Definition pathThrough (firstPoint : bool) (points : list Point)
  : list CanvasOp :=
  match points with
  | [] => []
  | p :: rest =>
      (if firstPoint then MoveTo (fst p) (snd p) else LineTo (fst p) (snd p))
        :: lineTos rest
  end.

(** The pairs of neighbours of a list. *)
Definition adjacent {A : Type} (l : list A) : list (A * A) :=
  zip l (tail l).

(** The selection after the boxes of [sensors] have been ticked, in that
    order, starting from no selection. *)
Definition ticked (sensors : list Sensor) : JSObject :=
  fold_left (λ o s, setProperty (sensorId s) (paramName s) o) sensors
            emptyObject.

(** The texts written on the canvas, in order. *)
Definition texts (ops : list CanvasOp) : list string :=
  omap (λ op, match op with FillText text _ _ => Some text | _ => None end)
       ops.

(** The sum of the values, added in order to zero. *)
Definition total `{Arithmetic} (values : list number) : number :=
  fold_left fadd values Num.zero.

(** *** What a statement may ask of the arithmetic and of the engine

    Facts of IEEE 754 arithmetic on the numbers of the machine, and of
    [toFixed].  A statement that needs one of them names it. *)
Section Laws.
Context `{Arithmetic} `{Engine}.

(** Results that need no rounding: an integer up to 2^53 less one; the
    difference of equal finite numbers; zero divided by a finite number
    that is not zero, and a finite number that is not zero divided by
    itself; the product of zero and a finite number; and, for a number of
    the machine, its difference and its sum with zero and its product
    with one.  Zero divided by zero is NaN, and so is every product with
    NaN. *)
Record ExactCases : Prop := {
  count_pred : ∀ n : nat, (1 <= n)%nat → (Z.of_nat n <= 2 ^ 53)%Z →
    (Num.of_nat n - Num.one)%num ≡ₙ Num.of_nat (n - 1);
  minus_equal : ∀ a b : number, Num.isFinite a = true → a ≡ₙ b →
    (a - b)%num ≡ₙ Num.zero;
  minus_zero : ∀ a z : number, machine a → z ≡ₙ Num.zero →
    (a - z)%num ≡ₙ a;
  plus_zero : ∀ a z : number, machine a → z ≡ₙ Num.zero →
    (a + z)%num ≡ₙ a;
  zero_over : ∀ z d : number, z ≡ₙ Num.zero →
    Num.isFinite d = true → ¬ d ≡ₙ Num.zero → (z / d)%num ≡ₙ Num.zero;
  zero_over_zero : ∀ z z' : number, z ≡ₙ Num.zero → z' ≡ₙ Num.zero →
    (z / z')%num = NaN;
  equal_over : ∀ a b : number, Num.isFinite a = true → ¬ a ≡ₙ Num.zero →
    a ≡ₙ b → (a / b)%num ≡ₙ Num.one;
  zero_times : ∀ z w : number, z ≡ₙ Num.zero → Num.isFinite w = true →
    (z * w)%num ≡ₙ Num.zero;
  one_times : ∀ u w : number, machine w → u ≡ₙ Num.one →
    (u * w)%num ≡ₙ w;
  NaN_times : ∀ w : number, (NaN * w)%num = NaN
}.

(** Results that are numbers: the product of two finite numbers, the
    quotient of a number by a finite number that is not zero, and the sum
    of a finite number and a number are not NaN. *)
Record NumberResults : Prop := {
  times_number : ∀ a b : number,
    Num.isFinite a = true → Num.isFinite b = true →
    Num.isNaN (a * b)%num = false;
  over_number : ∀ a b : number,
    Num.isNaN a = false → Num.isFinite b = true → ¬ b ≡ₙ Num.zero →
    Num.isNaN (a / b)%num = false;
  plus_number : ∀ a b : number,
    Num.isFinite a = true → Num.isNaN b = false →
    Num.isNaN (a + b)%num = false
}.

(** The order of results.  The integers up to 2^53 and
    [Number.MAX_VALUE] are numbers of the machine, and so is every
    result.  On the numbers of the machine a result is the exact one
    rounded to the nearest of them, and rounding keeps the order: a
    number less one is not above it, and a number plus one not
    below it; the differences of two finite numbers with a third are in
    the order of the two; the quotient of a number between zero and a
    finite divisor above zero is between zero and one; the product of a
    number between zero and one with a finite number that is not negative
    is between zero and that number; and so is the difference of that
    number and a number between zero and it. *)
Record OrderLaws : Prop := {
  machine_count : ∀ n : nat, (Z.of_nat n <= 2 ^ 53)%Z →
    machine (Num.of_nat n);
  machine_MAX_VALUE : machine Num.MAX_VALUE;
  machine_neg_MAX_VALUE : machine (Num.neg Num.MAX_VALUE);
  machine_add : ∀ a b : number, machine a → machine b → machine (a + b)%num;
  machine_sub : ∀ a b : number, machine a → machine b → machine (a - b)%num;
  machine_mul : ∀ a b : number, machine a → machine b → machine (a * b)%num;
  machine_div : ∀ a b : number, machine a → machine b → machine (a / b)%num;
  pred_le : ∀ a : number, machine a → Num.isNaN a = false →
    Num.leb (a - Num.one)%num a = true;
  succ_le : ∀ a : number, machine a → Num.isNaN a = false →
    Num.leb a (a + Num.one)%num = true;
  sub_mono : ∀ a b c : number, machine a → machine b → machine c →
    Num.isFinite a = true → Num.isFinite b = true → Num.isFinite c = true →
    Num.leb a b = true → Num.leb (a - c)%num (b - c)%num = true;
  div_unit : ∀ n d : number, machine n → machine d →
    Num.leb Num.zero n = true → Num.leb n d = true →
    Num.ltb Num.zero d = true → Num.isFinite d = true →
    Num.leb Num.zero (n / d)%num = true
    ∧ Num.leb (n / d)%num Num.one = true;
  mul_unit : ∀ r h : number, machine r → machine h →
    Num.leb Num.zero r = true → Num.leb r Num.one = true →
    Num.leb Num.zero h = true → Num.isFinite h = true →
    Num.leb Num.zero (r * h)%num = true ∧ Num.leb (r * h)%num h = true;
  sub_unit : ∀ p h : number, machine p → machine h →
    Num.leb Num.zero p = true → Num.leb p h = true →
    Num.isFinite h = true →
    Num.leb Num.zero (h - p)%num = true ∧ Num.leb (h - p)%num h = true
}.

(** Below 10^21 in magnitude [toFixed], asked for at most 20 digits,
    gives the decimal form. *)
Definition decimalBelow1e21 : Prop :=
  ∀ (f : nat) (q : Q), (f <= 20)%nat → (Qabs q < inject_Z (10 ^ 21))%Q →
    toFixed f (Finite q) = Num.toFixed f (Finite q).

End Laws.

(** *** Data of the examples *)

(** The arithmetic that neither rounds nor overflows, every number
    being one of its numbers, and the decimal form as [toFixed].  A
    statement that names no arithmetic and no engine is made in them. *)
#[global] Instance idealArithmetic : Arithmetic :=
  {| machine := λ _, True;
     fadd := Num.add; fsub := Num.sub; fmul := Num.mul; fdiv := Num.div |}.

#[global] Instance decimalForm : Engine :=
  {| toFixed := Num.toFixed |}.

(** The window of the scenario: sensor 3 with the series
    [null, 10.0, 20.0], newest first. *)
Definition scenarioSeries : list Sample :=
  [ {| date := "2025-01-01 02:00:00"; value := VNull |};
    {| date := "2025-01-01 01:00:00"; value := VDouble (Num.of_Z 10) |};
    {| date := "2025-01-01 00:00:00"; value := VDouble (Num.of_Z 20) |} ].

Definition scenarioWindow : MainWindow :=
  {| m_mapCenter := mkQGeoCoordinate (Finite (522297 # 10000))
                                     (Finite (210122 # 10000));
     m_status := "";
     m_stations := [];
     m_allStations := [];
     m_sensors := [ {| paramName := "PM10"; sensorId := 3 |} ];
     m_sensorData := {[ "3" := QList scenarioSeries ]} |}.

(** A stand-in for the library: city names are taken as already
    normalised, and the distance is measured on the plane, as the sum of
    the squares of the differences in degrees. *)
Definition planarQt : QtLibrary :=
  {| toLower := λ s, s;
     simplified := λ s, s;
     distanceTo := λ a b,
       let dlat := (latitude a - latitude b)%num in
       let dlon := (longitude a - longitude b)%num in
       (dlat * dlat + dlon * dlon)%num |}.

Definition warszawa : Station :=
  {| stationId := 1; stationName := "Warszawa-Centrum";
     cityName := "Warszawa"; address := "Marszałkowska 1";
     lat := Finite (5223 # 100); lon := Finite (2101 # 100);
     isSearched := false |}.

Definition krakow : Station :=
  {| stationId := 2; stationName := "Kraków-Rynek";
     cityName := "Krakow"; address := "Rynek 1";
     lat := Finite (5006 # 100); lon := Finite (1994 # 100);
     isSearched := true |}.

Definition catalogueWindow : MainWindow :=
  {| m_mapCenter := mkQGeoCoordinate (Finite (522297 # 10000))
                                     (Finite (210122 # 10000));
     m_status := "Wprowadź nazwę miasta i kliknij Szukaj";
     m_stations := [setIsSearched true krakow];
     m_allStations := [warszawa; krakow];
     m_sensors := [ {| paramName := "PM10"; sensorId := 3 |} ];
     m_sensorData := {[ "3" := QList scenarioSeries ]} |}.

(** The geocoder's answer for a city without a station. *)
Definition gdansk : GeocodeResult :=
  {| geo_lat := Finite (5435 # 100); geo_lon := Finite (1865 # 100) |}.

Definition saveEnv : SaveEnv :=
  {| now_ISODate := "2025-04-22T10:15:00";
     now_yyyyMMdd_HHmmss := "20250422_101500";
     openWriteOnly := λ _, true |}.

(** A series with a missing value between two readings. *)
Definition reading10 : Sample :=
  {| date := "2025-01-01 02:00:00"; value := VDouble (Num.of_Z 10) |}.
Definition missing : Sample :=
  {| date := "2025-01-01 01:00:00"; value := VNull |}.
Definition reading20 : Sample :=
  {| date := "2025-01-01 00:00:00"; value := VDouble (Num.of_Z 20) |}.

Definition gapSeries : list Sample := [reading10; missing; reading20].

(** Sensor A (id 20, three samples) is ticked first and sensor B (id 10,
    five samples) second; each series arrives after its box is ticked. *)
Definition sensorA : Sensor := {| paramName := "A"; sensorId := 20 |}.
Definition sensorB : Sensor := {| paramName := "B"; sensorId := 10 |}.

Definition seriesA : list Sample :=
  [ {| date := "2025-01-02 02:00:00"; value := VDouble (Num.of_Z 1) |};
    {| date := "2025-01-02 01:00:00"; value := VDouble (Num.of_Z 2) |};
    {| date := "2025-01-02 00:00:00"; value := VDouble (Num.of_Z 3) |} ].

Definition seriesB : list Sample :=
  [ {| date := "2025-01-01 04:00:00"; value := VDouble (Num.of_Z 5) |};
    {| date := "2025-01-01 03:00:00"; value := VDouble (Num.of_Z 6) |};
    {| date := "2025-01-01 02:00:00"; value := VDouble (Num.of_Z 7) |};
    {| date := "2025-01-01 01:00:00"; value := VDouble (Num.of_Z 8) |};
    {| date := "2025-01-01 00:00:00"; value := VDouble (Num.of_Z 9) |} ].

Definition emptyWindow : MainWindow :=
  {| m_mapCenter := mkQGeoCoordinate (Finite (522297 # 10000))
                                     (Finite (210122 # 10000));
     m_status := ""; m_stations := []; m_allStations := [];
     m_sensors := [sensorA; sensorB]; m_sensorData := ∅ |}.

Definition selectionAB : JSObject * MainWindow :=
  let st := onCheckedChanged true sensorA (emptyObject, emptyWindow) in
  let st := (fst st,
             fst (onSensorDataReply (ReplyFinished seriesA) 20 (snd st))) in
  let st := onCheckedChanged true sensorB st in
  (fst st, fst (onSensorDataReply (ReplyFinished seriesB) 10 (snd st))).

(** Series on which the arithmetic of the machine shows, each as the
    series of sensor 3: three readings of an eighth and two of zero; two
    readings of 10^16; a reading of 1e308, a missing value and a reading
    of -1e308; two missing values. *)
Definition readingOf (v : number) : Sample :=
  {| date := "2025-01-01 00:00:00"; value := VDouble v |}.

Definition eighths : list Sample :=
  [ readingOf (Finite (1 # 8)); readingOf (Finite (1 # 8));
    readingOf (Finite (1 # 8)); readingOf (Finite 0); readingOf (Finite 0) ].

Definition absorbedSeries : list Sample :=
  [ readingOf (Num.of_Z (10 ^ 16)); readingOf (Num.of_Z (10 ^ 16)) ].

Definition overflowSeries : list Sample :=
  [ readingOf (Binary64.round (inject_Z (10 ^ 308))); missing;
    readingOf (Binary64.round (- inject_Z (10 ^ 308))) ].

Definition missingSeries : list Sample := [missing; missing].

Definition storeOf (data : list Sample) : gmap string QVariant :=
  {[ "3" := QList data ]}.

Definition sensor3 : JSObject :=
  ticked [ {| paramName := "PM10"; sensorId := 3 |} ].

(** ** Further parts of the program *)

(** *** Requests, [mainwindow.cpp]

    A request sent with [QNetworkAccessManager::get]: its address, the
    items of its query, its one header, and the slot its [finished] signal
    is connected to, with the arguments the connection has captured. *)
Inductive FinishedSlot : Type :=
  | ToGeocodeReply (searchedCity : string)
  | ToStationsReply
  | ToSensorsReply
  | ToSensorDataReply (sensorId : Z).

Record QNetworkRequest : Type := {
  url : string;
  query : list (string * string);
  header : string * string;
  finished : FinishedSlot
}.

(** [MainWindow::searchCity] *)
Definition searchCity (city : string) (w : MainWindow)
  : MainWindow * list Signal * QNetworkRequest :=
  (set_status ("Wyszukiwanie: " +:+ city +:+ "...") w, [statusChanged],
   {| url := "https://nominatim.openstreetmap.org/search";
      query := [("q", city); ("format", "json"); ("limit", "1")];
      header := ("User-Agent", "ControlStationsApp/1.0");
      finished := ToGeocodeReply city |}).

(** [MainWindow::fetchSensors] *)
Definition fetchSensors (stationId : Z) : QNetworkRequest :=
  {| url := "https://api.gios.gov.pl/pjp-api/rest/station/sensors/"
            +:+ QString_number stationId;
     query := [];
     header := ("Content-Type", "application/json");
     finished := ToSensorsReply |}.

(** [MainWindow::fetchSensorData] *)
Definition fetchSensorData (sensorId : Z) : QNetworkRequest :=
  {| url := "https://api.gios.gov.pl/pjp-api/rest/data/getData/"
            +:+ QString_number sensorId;
     query := [];
     header := ("Content-Type", "application/json");
     finished := ToSensorDataReply sensorId |}.

(** *** The dot beside a box, [StationDialog.qml] *)

(** [keys.indexOf(key)]: the first position of [key], counted from [i],
    or -1. *)
Fixpoint indexOfFrom (i : Z) (key : string) (keys : list string) : Z :=
  match keys with
  | [] => -1
  | k :: rest => if String.eqb k key then i else indexOfFrom (i + 1) key rest
  end.

Definition indexOf (key : string) (keys : list string) : Z :=
  indexOfFrom 0 key keys.

(** The colour of the dot beside the box of a sensor, as its binding
    computes it from a selection. *)
Definition indicatorColor (selectedSensors : JSObject) (modelData : Sensor)
  : string :=
  let selectedIds := Object_keys selectedSensors in
  let index := indexOf (propertyKey (sensorId modelData)) selectedIds in
  if (0 <=? index)%Z && (index <? Z.of_nat (length colors))%Z
  then nth (Z.to_nat index) colors "transparent"
  else "transparent".

(** *** The address of a station, from [main.qml] to the dialog *)

(** [s.split(" ")]: the parts of [s] between its spaces, one more than
    it has spaces. *)
Fixpoint splitSpace (s : string) : list string :=
  match s with
  | EmptyString => [""]
  | String c rest =>
      if Ascii.eqb c (Ascii.ascii_of_nat 32) then "" :: splitSpace rest
      else match splitSpace rest with
           | first :: more => String c first :: more
           | [] => [String c ""]
           end
  end.

(** The properties [street] and [number] a dialog is created with, from
    the address of the station clicked. *)
Definition addressParts (stationAddress : string) : string * string :=
  let address := if String.eqb stationAddress "" then "Brak danych"
                 else stationAddress in
  let street := if String.eqb address "Brak danych" then "Brak danych"
                else nth 0 (splitSpace address) "" in
  let number := if String.eqb address "Brak danych" then ""
                else if (1 <? length (splitSpace address))%nat
                     then nth 1 (splitSpace address) ""
                     else "" in
  (street, number).

(** [street + (number ? " " + number : "")]: the address in the header
    of the dialog and the one handed to [saveStationData]. *)
Definition shownAddress (street number : string) : string :=
  street +:+ (if String.eqb number "" then "" else " " +:+ number).

Definition dialogAddress (stationAddress : string) : string :=
  shownAddress (fst (addressParts stationAddress))
               (snd (addressParts stationAddress)).

(** *** The markers of the map, [main.qml]

    The width and the colour of the marker of a station, [modelData], when
    the station with id [highlightedStationId] is under the pointer. *)
Definition markerWidth (highlightedStationId : Z) (modelData : Station) : Z :=
  if isSearched modelData || (stationId modelData =? highlightedStationId)%Z
  then 16 else 8.

Definition markerColor (highlightedStationId : Z) (modelData : Station)
  : string :=
  if (stationId modelData =? highlightedStationId)%Z then "#4CAF50"
  else if isSearched modelData then "#FF0000" else "#0000FF".

(** ** Vocabulary of the further statements *)

Section MatchVocabulary.
Context `{QtLibrary}.

(** The test of the first loop of [onGeocodeReply]: the normalised city
    of the station equals the normalised searched city. *)
Definition cityMatches (searchedCity : string) (station : Station) : bool :=
  String.eqb (simplified (toLower (cityName station)))
             (simplified (toLower searchedCity)).

(** The stations of a catalogue that are in the searched city, in the
    order of the catalogue. *)
Definition cityStations (searchedCity : string) (stations : list Station)
  : list Station :=
  filter (λ s, Is_true (cityMatches searchedCity s)) stations.

(** What the loop for the closest station has found on [stations]: no
    station, when none lies at less than the largest [double]; otherwise
    a station that none is closer than and that every earlier station
    with a distance is farther than. *)
Definition firstClosest (cityCoord : QGeoCoordinate)
    (stations : list Station) (acc : option Station * number) : Prop :=
  match acc with
  | (None, d) =>
      d = Num.MAX_VALUE
      ∧ ∀ s, s ∈ stations →
          Num.ltb (distanceFrom cityCoord s) Num.MAX_VALUE = false
  | (Some c, d) =>
      ∃ pre post,
        stations = pre ++ c :: post
        ∧ d = distanceFrom cityCoord c
        ∧ Num.ltb d Num.MAX_VALUE = true
        ∧ (∀ s, s ∈ pre →
             Num.isNaN (distanceFrom cityCoord s) = false →
             Num.ltb (distanceFrom cityCoord c) (distanceFrom cityCoord s)
             = true)
        ∧ (∀ s, s ∈ stations →
             Num.ltb (distanceFrom cityCoord s) (distanceFrom cityCoord c)
             = false)
  end.

End MatchVocabulary.

(** The catalogue with the stations whose id is in [ids] flagged. *)
Definition flagIds (ids : list Z) (stations : list Station) : list Station :=
  map (λ s, if bool_decide (stationId s ∈ ids)
            then setIsSearched true s else s) stations.

(** The samples [saveStationData] reads under a key: those of the list
    stored there, none when the key is missing or holds no list. *)
Definition storedSamples (sensorData : gmap string QVariant) (key : string)
  : list Sample :=
  match sensorData !! key with
  | Some v => toList v
  | None => []
  end.

(** The object written for one sensor, read from a given store. *)
Definition sensorObjOf (sensorData : gmap string QVariant)
    (sensorInfo : Sensor) : QJsonValue :=
  JObject [("sensorId", JInt (sensorId sensorInfo));
           ("paramName", JString (paramName sensorInfo));
           ("measurements",
            JArray (map measurementObj
                        (storedSamples sensorData
                           (QString_number (sensorId sensorInfo)))))].

(** The keys under which [saveStationData] reads the store. *)
Definition sensorKeys (sensors : list Sensor) : list string :=
  map (λ s, QString_number (sensorId s)) sensors.

(** What a store holds under a key once it has been read, through the
    non-const [operator[]], under the keys of [sensors]: its own value, or
    an invalid value where it had none and the key was read. *)
Definition touched (sensorData : gmap string QVariant)
    (sensors : list Sensor) (key : string) : option QVariant :=
  match sensorData !! key with
  | Some v => Some v
  | None => if bool_decide (key ∈ sensorKeys sensors) then Some QInvalid
            else None
  end.

(** The name of the file and the document [saveStationData] writes for a
    station. *)
Definition fileNameOf (env : SaveEnv) (id : Z) : string :=
  "station_" +:+ QString_number id +:+ "_" +:+ now_yyyyMMdd_HHmmss env
  +:+ ".json".

Definition documentOf (env : SaveEnv) (id : Z) (city addr : string)
    (station : Station) (w : MainWindow) : QJsonValue :=
  JObject [("stationId", JInt id);
           ("stationName", JString (stationName station));
           ("cityName", JString city);
           ("address", JString addr);
           ("latitude", JDouble (lat station));
           ("longitude", JDouble (lon station));
           ("saveDate", JString (now_ISODate env));
           ("sensors",
            JArray (map (sensorObjOf (m_sensorData w)) (m_sensors w)))].

(** The window of the example when the dialog of a station has just been
    opened: the sensors are listed and no data has been fetched. *)
Definition openedWindow : MainWindow := set_sensorData ∅ catalogueWindow.

(** The keys of a selection as integers, in the order of enumeration. *)
Definition keysOf (o : JSObject) : list Z := map fst (indexed o ++ named o).

(** The state after a run of clicks on the boxes, each given by the new
    state of the box and its sensor. *)
Definition clicks (events : list (bool * Sensor))
    (st : JSObject * MainWindow) : JSObject * MainWindow :=
  fold_left (λ st ev, onCheckedChanged (fst ev) (snd ev) st) events st.

(** The new state of the box at the last click on a sensor id, if any. *)
Definition lastClick (events : list (bool * Sensor)) (id : Z) : option bool :=
  fold_left (λ acc ev, if (sensorId (snd ev) =? id)%Z then Some (fst ev)
                       else acc) events None.

(** A selection as assignments and deletions build it: array-index keys
    apart from the others, ascending and without repetition. *)
Definition wellFormed (o : JSObject) : Prop :=
  StronglySorted Z.lt (map fst (indexed o))
  ∧ Forall (λ k, isArrayIndex k = true) (map fst (indexed o))
  ∧ NoDup (map fst (named o))
  ∧ Forall (λ k, isArrayIndex k = false) (map fst (named o)).

(** The two texts written in place of a chart. *)
Definition noSelectionText `{Arithmetic} (width height : number) : CanvasOp :=
  FillText "Wybierz mierzone parametry aby wyświetlić odczyty."
           (width / Num.of_Z 2 - Num.of_Z 150)%num (height / Num.of_Z 2)%num.

Definition noTimeText `{Arithmetic} (width height : number) : CanvasOp :=
  FillText "Brak danych czasowych."
           (width / Num.of_Z 2 - Num.of_Z 100)%num (height / Num.of_Z 2)%num.

(** The chart proper: the series, and the labels of the value axis when
    the loop of the time labels has gone through. *)
Definition chartOf `{Arithmetic} `{Engine} (width height : number)
    (sensorData : gmap string QVariant) (selectedSensorIds : list string)
  : list CanvasOp :=
  let scan := scanSensors sensorData 0 selectedSensorIds scanStart in
  plotSeries width height sensorData (fst (chartRange scan))
             (snd (chartRange scan)) colors selectedSensorIds
  ++ (if forallb hasTimePart (timePoints scan)
      then valueLabels height (fst (chartRange scan)) (snd (chartRange scan))
      else []).

(** The values of the selected series: those of every selected id that
    has a series, in the order of the ids. *)
Definition selectedValues (sensorData : gmap string QVariant)
    (ids : list string) : list number :=
  flat_map (λ id, match dataOf sensorData id with
                  | Some data => validValues data
                  | None => []
                  end) ids.

(** A number within the range of the finite [double]s. *)
Definition isDouble (v : number) : bool :=
  Num.leb (Num.neg Num.MAX_VALUE) v && Num.leb v Num.MAX_VALUE.

(** A point within the canvas. *)
Definition onCanvas (width height : number) (p : Point) : bool :=
  Num.leb Num.zero (fst p) && Num.leb (fst p) width
  && Num.leb Num.zero (snd p) && Num.leb (snd p) height.

(** The parts joined again, a space between neighbours. *)
Fixpoint joinSpace (parts : list string) : string :=
  match parts with
  | [] => ""
  | [part] => part
  | part :: rest => part +:+ " " +:+ joinSpace rest
  end.

(** ** Order and equality of numbers *)

Module NumFacts.

Lemma Qle_bool_false (x y : Q) : Qle_bool x y = false → (y < x)%Q.
Proof.
  intros Hf. apply Qnot_le_lt. intros Hle.
  apply Qle_bool_iff in Hle. congruence.
Qed.

Lemma ltb_leb (a b : number) : Num.ltb a b = true → Num.leb a b = true.
Proof.
  destruct a as [x| | |], b as [y| | |]; simpl; try done.
  intros Hlt. apply negb_true_iff, Qle_bool_false in Hlt.
  apply Qle_bool_iff. by apply Qlt_le_weak.
Qed.

Lemma not_ltb_leb (a b : number) :
  Num.isNaN a = false → Num.isNaN b = false →
  Num.ltb a b = false → Num.leb b a = true.
Proof.
  destruct a as [x| | |], b as [y| | |]; simpl; try done.
  intros _ _ Hlt. by apply negb_false_iff in Hlt.
Qed.

Lemma leb_trans (a b c : number) :
  Num.leb a b = true → Num.leb b c = true → Num.leb a c = true.
Proof.
  destruct a as [x| | |], b as [y| | |], c as [z| | |]; simpl; try done.
  rewrite !Qle_bool_iff. apply Qle_trans.
Qed.

Lemma leb_refl (a : number) : Num.isNaN a = false → Num.leb a a = true.
Proof.
  destruct a as [x| | |]; simpl; try done.
  intros _. apply Qle_bool_iff, Qle_refl.
Qed.

Lemma ltb_not_NaN_l (a b : number) :
  Num.ltb a b = true → Num.isNaN a = false.
Proof. by destruct a, b. Qed.

End NumFacts.

(** ** Properties of the slots *)

(** Projections of an updated window, without unfolding the store. *)
Ltac window_simpl :=
  cbn [fst snd m_mapCenter m_status m_stations m_allStations m_sensors
       m_sensorData set_mapCenter set_status set_stations set_allStations
       set_sensors set_sensorData] in *.

Lemma map_sample_id (values : list Sample) :
  map (λ dataPoint, {| date := date dataPoint; value := value dataPoint |})
      values = values.
Proof.
  induction values as [|[d v] values IH]; simpl; [done|]. by rewrite IH.
Qed.

Lemma QString_number_inj (a b : Z) :
  QString_number a = QString_number b → a = b.
Proof. unfold QString_number. apply (inj pretty). Qed.

(** C4: a finished fetch for [id] leaves exactly the delivered samples
    under the key of [id], a failed one leaves no entry under it; every
    other key of the store, and so the entry of every other sensor id, and
    every other member of the window are as before. *)
Theorem onSensorDataReply_own_entry_only
    (reply : QNetworkReply (list Sample)) (id : Z) (w : MainWindow) :
  let w' := fst (onSensorDataReply reply id w) in
  m_sensorData w' !! QString_number id
    = match reply with
      | ReplyFinished values => Some (QList values)
      | ReplyError _ => None
      end
  ∧ (∀ key, key ≠ QString_number id →
       m_sensorData w' !! key = m_sensorData w !! key)
  ∧ (∀ id', id' ≠ id →
       m_sensorData w' !! QString_number id'
       = m_sensorData w !! QString_number id')
  ∧ m_mapCenter w' = m_mapCenter w ∧ m_status w' = m_status w
  ∧ m_stations w' = m_stations w ∧ m_allStations w' = m_allStations w
  ∧ m_sensors w' = m_sensors w.
Proof.
  intros w'.
  assert (Hother : ∀ key, key ≠ QString_number id →
            m_sensorData w' !! key = m_sensorData w !! key).
  { intros key Hne. subst w'.
    destruct reply; unfold onSensorDataReply; window_simpl;
      [apply lookup_delete_ne | apply lookup_insert_ne]; congruence. }
  split.
  { subst w'. destruct reply; unfold onSensorDataReply; window_simpl.
    - apply lookup_delete_eq.
    - rewrite map_sample_id. apply lookup_insert_eq. }
  split; [exact Hother|].
  split.
  { intros id' Hne. apply Hother. intros Heq.
    by apply Hne, QString_number_inj. }
  subst w'. by destruct reply.
Qed.

Lemma find_station_none (id : Z) (stations : list Station) :
  (∀ s, s ∈ stations → stationId s ≠ id) →
  find (λ s, (stationId s =? id)%Z) stations = None.
Proof.
  induction stations as [|s stations IH]; intros Hall; simpl; [done|].
  destruct (Z.eqb_spec (stationId s) id) as [Heq|_].
  - exfalso. apply (Hall s); [left|done].
  - apply IH. intros s' Hs'. apply Hall. by right.
Qed.

(** C9: saving a station whose id is not in the catalogue writes no
    file and changes no member of the window but the status, which
    reports the missing station. *)
Theorem saveStationData_unknown_station (env : SaveEnv) (id : Z)
    (city addr : string) (fs : FileSystem) (w : MainWindow) :
  (∀ s, s ∈ m_allStations w → stationId s ≠ id) →
  let '(w', fs', emitted) := saveStationData env id city addr fs w in
  fs' = fs
  ∧ m_status w' = "Błąd: Stacja o ID " +:+ QString_number id
                  +:+ " nie znaleziona."
  ∧ m_sensors w' = m_sensors w ∧ m_sensorData w' = m_sensorData w
  ∧ m_stations w' = m_stations w ∧ m_allStations w' = m_allStations w
  ∧ m_mapCenter w' = m_mapCenter w
  ∧ emitted = [statusChanged].
Proof.
  intros Hall. unfold saveStationData.
  by rewrite (find_station_none _ _ Hall).
Qed.

Section SlotFacts.
Context `{QtLibrary}.

Lemma matchCity_no_match (normalized : string) (stations : list Station)
    (acc : MainWindow * list Signal) :
  (∀ s, s ∈ stations → simplified (toLower (cityName s)) ≠ normalized) →
  fold_left (matchCity normalized) stations acc = acc.
Proof.
  revert acc.
  induction stations as [|s stations IH]; intros acc Hall; cbn [fold_left];
    [done|].
  rewrite IH.
  - unfold matchCity. destruct acc as [w emitted].
    destruct (String.eqb_spec (simplified (toLower (cityName s)))
                              normalized) as [Heq|_]; [|done].
    exfalso. apply (Hall s); [left|done].
  - intros s' Hs'. apply Hall. by right.
Qed.

Lemma closer_keeps (cityCoord : QGeoCoordinate) (seen : list Station)
    (acc : option Station * number) (station : Station) :
  (∀ s, s ∈ seen ++ [station] →
     Num.ltb (distanceFrom cityCoord s) Num.MAX_VALUE = true) →
  closestSoFar cityCoord seen acc →
  closestSoFar cityCoord (seen ++ [station]) (closer cityCoord acc station).
Proof.
  intros Hfar Hacc. destruct acc as [[c|] minDistance];
    unfold closestSoFar in *; simpl in *.
  - destruct Hacc as (Hc & -> & Hmin).
    fold (distanceFrom cityCoord station).
    assert (Hs : Num.isNaN (distanceFrom cityCoord station) = false).
    { apply (NumFacts.ltb_not_NaN_l _ Num.MAX_VALUE), Hfar.
      apply elem_of_app. right. by apply list_elem_of_singleton. }
    assert (Hcn : Num.isNaN (distanceFrom cityCoord c) = false).
    { apply (NumFacts.ltb_not_NaN_l _ Num.MAX_VALUE), Hfar.
      apply elem_of_app. by left. }
    destruct (Num.ltb (distanceFrom cityCoord station)
                      (distanceFrom cityCoord c)) eqn:Hlt; simpl.
    + split; [apply elem_of_app; right; by apply list_elem_of_singleton|].
      split; [done|]. intros s [Hs'|Hs']%elem_of_app.
      * eapply NumFacts.leb_trans; [by apply NumFacts.ltb_leb|by apply Hmin].
      * apply list_elem_of_singleton in Hs' as ->. by apply NumFacts.leb_refl.
    + split; [apply elem_of_app; by left|].
      split; [done|]. intros s [Hs'|Hs']%elem_of_app.
      * by apply Hmin.
      * apply list_elem_of_singleton in Hs' as ->.
        by apply NumFacts.not_ltb_leb.
  - destruct Hacc as [-> ->]. fold (distanceFrom cityCoord station).
    rewrite Hfar; [|by apply list_elem_of_singleton]. simpl.
    split; [by apply list_elem_of_singleton|]. split; [done|].
    intros s Hs%list_elem_of_singleton. subst s.
    apply NumFacts.leb_refl, (NumFacts.ltb_not_NaN_l _ Num.MAX_VALUE), Hfar.
    by apply list_elem_of_singleton.
Qed.

Lemma closer_fold (cityCoord : QGeoCoordinate) (rest seen : list Station)
    (acc : option Station * number) :
  (∀ s, s ∈ seen ++ rest →
     Num.ltb (distanceFrom cityCoord s) Num.MAX_VALUE = true) →
  closestSoFar cityCoord seen acc →
  closestSoFar cityCoord (seen ++ rest)
               (fold_left (closer cityCoord) rest acc).
Proof.
  revert seen acc. induction rest as [|s rest IH]; intros seen acc Hfar Hacc.
  - by rewrite app_nil_r.
  - cbn [fold_left]. rewrite (cons_middle s seen rest), app_assoc.
    apply IH; [by rewrite <- app_assoc|].
    apply closer_keeps; [|done].
    intros s' Hs'. apply Hfar. rewrite (cons_middle s seen rest), app_assoc.
    apply elem_of_app. by left.
Qed.

(** On a catalogue that is not empty and whose stations all lie at less
    than the largest [double] from the point, the loop ends on a station
    of the catalogue that no other station is closer than. *)
Lemma findClosest_nearest (cityCoord : QGeoCoordinate)
    (stations : list Station) :
  stations ≠ [] →
  (∀ s, s ∈ stations →
     Num.ltb (distanceFrom cityCoord s) Num.MAX_VALUE = true) →
  ∃ c, fst (findClosest cityCoord stations) = Some c ∧ c ∈ stations
       ∧ ∀ s, s ∈ stations →
           Num.leb (distanceFrom cityCoord c) (distanceFrom cityCoord s)
           = true.
Proof.
  intros Hne Hfar.
  pose proof (closer_fold cityCoord stations [] (None, Num.MAX_VALUE)
                Hfar (conj eq_refl eq_refl)) as Hend.
  unfold findClosest. unfold closestSoFar in Hend. simpl in Hend.
  destruct (fst (fold_left (closer cityCoord) stations
                           (None, Num.MAX_VALUE))) as [c|].
  - exists c. destruct Hend as (Hc & _ & Hmin). done.
  - by destruct Hend as [-> _].
Qed.

End SlotFacts.

Section SearchProperties.
Context `{QtLibrary}.

Lemma distanceFrom_flag (cityCoord : QGeoCoordinate) (b : bool)
    (s : Station) :
  distanceFrom cityCoord (setIsSearched b s) = distanceFrom cityCoord s.
Proof. done. Qed.

(** C3: when the geocoder answers, no station of the catalogue is in
    the searched city, the catalogue is not empty and its stations lie at
    less than the largest [double] from the geocoded point, the search
    returns exactly one station, flagged as searched; it is a station of
    the catalogue that no other station of the catalogue is closer to the
    point than; in the catalogue the stations with its id, and no others,
    are flagged; and the map is centred on its coordinate. *)
Theorem onGeocodeReply_nearest_fallback (result : GeocodeResult)
    (more : list GeocodeResult) (searchedCity : string) (w : MainWindow) :
  let cityCoord := mkQGeoCoordinate (geo_lat result) (geo_lon result) in
  let w' := fst (onGeocodeReply (ReplyFinished (result :: more))
                                searchedCity w) in
  m_allStations w ≠ [] →
  (∀ s, s ∈ m_allStations w →
     simplified (toLower (cityName s))
     ≠ simplified (toLower searchedCity)) →
  (∀ s, s ∈ m_allStations w →
     Num.ltb (distanceFrom cityCoord s) Num.MAX_VALUE = true) →
  ∃ closest,
    closest ∈ m_allStations w
    ∧ m_stations w' = [setIsSearched true closest]
    ∧ (∀ s, s ∈ m_allStations w →
         Num.leb (distanceFrom cityCoord closest)
                 (distanceFrom cityCoord s) = true)
    ∧ m_allStations w'
      = map (λ s, setIsSearched (stationId s =? stationId closest)%Z s)
            (m_allStations w)
    ∧ m_mapCenter w'
      = mkQGeoCoordinate (lat closest) (lon closest).
Proof.
  intros cityCoord w' Hne Hcity Hfar.
  set (reset := map (setIsSearched false) (m_allStations w)).
  assert (Hreset_ne : reset ≠ []).
  { subst reset. destruct (m_allStations w); [done|]. discriminate. }
  assert (Hreset_far : ∀ s, s ∈ reset →
            Num.ltb (distanceFrom cityCoord s) Num.MAX_VALUE = true).
  { intros s (s0 & -> & Hs0)%list_elem_of_fmap.
    rewrite distanceFrom_flag. by apply Hfar. }
  destruct (findClosest_nearest cityCoord reset Hreset_ne Hreset_far)
    as (c' & Hfind & Hc' & Hmin).
  apply list_elem_of_fmap in Hc' as (closest & -> & Hclosest).
  exists closest. split; [done|].
  subst w'. unfold onGeocodeReply. window_simpl. fold reset.
  rewrite matchCity_no_match.
  2:{ intros s (s0 & -> & Hs0)%list_elem_of_fmap.
      cbn [cityName setIsSearched]. by apply Hcity. }
  window_simpl. fold cityCoord. rewrite Hfind.
  unfold updateStationSearchStatus. window_simpl.
  split; [done|]. split.
  { intros s Hs. rewrite <- (distanceFrom_flag cityCoord false closest).
    rewrite <- (distanceFrom_flag cityCoord false s).
    apply Hmin. apply list_elem_of_fmap. by exists s. }
  split; [|done].
  subst reset. rewrite map_map. apply map_ext. intros s. simpl.
  by destruct (stationId s =? stationId closest)%Z.
Qed.

(** C10: when the geocoder answers with no result, the window is as
    before but for the status; and whenever a reply changes the map
    centre, the searched-station list or the catalogue with its flags,
    that reply was an answer with at least one result. *)
Theorem onGeocodeReply_empty_result :
  (∀ (searchedCity : string) (w : MainWindow),
     onGeocodeReply (ReplyFinished []) searchedCity w
     = (set_status "Nie znaleziono miasta." w, [statusChanged]))
  ∧ (∀ (reply : QNetworkReply (list GeocodeResult))
       (searchedCity : string) (w : MainWindow),
       let w' := fst (onGeocodeReply reply searchedCity w) in
       (m_mapCenter w' ≠ m_mapCenter w ∨ m_stations w' ≠ m_stations w
        ∨ m_allStations w' ≠ m_allStations w) →
       ∃ result more, reply = ReplyFinished (result :: more)).
Proof.
  split; [done|].
  intros reply searchedCity w w' Hchanged.
  destruct reply as [err|[|result more]]; [| |by eauto];
    subst w'; unfold onGeocodeReply in Hchanged; window_simpl;
    by destruct Hchanged as [?|[?|?]].
Qed.

(** C2, as the code has it: a failed geocoding request and a failed
    load of the station list set the status and nothing else; a failed
    load of the sensor list empties the sensor list and leaves the map
    centre, both station lists and the store as they were; a failed fetch
    of sensor data removes the entry of that sensor id and leaves every
    other key of the store, the sensor list, the map centre and both
    station lists as they were. *)
Theorem failed_replies (errorString : string) (searchedCity : string)
    (id : Z) (w : MainWindow) :
  onGeocodeReply (ReplyError errorString) searchedCity w
  = (set_status ("Błąd wyszukiwania: " +:+ errorString) w, [statusChanged])
  ∧ onStationsReply (ReplyError errorString) w
    = (set_status ("Błąd pobierania stacji: " +:+ errorString) w,
       [statusChanged])
  ∧ (let w' := fst (onSensorsReply (ReplyError errorString) w) in
     m_sensors w' = []
     ∧ m_mapCenter w' = m_mapCenter w ∧ m_stations w' = m_stations w
     ∧ m_allStations w' = m_allStations w
     ∧ m_sensorData w' = m_sensorData w)
  ∧ (let w' := fst (onSensorDataReply (ReplyError errorString) id w) in
     m_sensorData w' !! QString_number id = None
     ∧ (∀ key, key ≠ QString_number id →
          m_sensorData w' !! key = m_sensorData w !! key)
     ∧ m_sensors w' = m_sensors w
     ∧ m_mapCenter w' = m_mapCenter w ∧ m_stations w' = m_stations w
     ∧ m_allStations w' = m_allStations w).
Proof.
  split; [done|]. split; [done|]. split; [done|].
  unfold onSensorDataReply. window_simpl.
  split; [apply lookup_delete_eq|].
  split; [|done]. intros key Hne. apply lookup_delete_ne. congruence.
Qed.

End SearchProperties.

(** ** The shape of a formatted number *)

Module FormatFacts.

Lemma length_append (a b : string) :
  String.length (a +:+ b) = (String.length a + String.length b)%nat.
Proof.
  induction a as [|c a IH]; [done|].
  change (S (String.length (a +:+ b))
          = S (String.length a + String.length b)).
  by rewrite IH.
Qed.

Lemma length_zeros (k : nat) : String.length (Num.zeros k) = k.
Proof.
  induction k as [|k IH]; [done|].
  change (S (String.length (Num.zeros k)) = S k). by rewrite IH.
Qed.

Lemma length_substring (s : string) (n m : nat) :
  (n + m <= String.length s)%nat →
  String.length (String.substring n m s) = m.
Proof.
  revert n m. induction s as [|c s IH]; intros n m Hlen; cbn in Hlen.
  - assert (n = O ∧ m = O) as [-> ->] by lia. done.
  - destruct n as [|n], m as [|m]; cbn; try done.
    + rewrite IH; [done|]. cbn. lia.
    + apply IH. lia.
    + apply IH. lia.
Qed.

(** A non-negative number formatted with [f >= 1] digits: an integer
    part of at least one character, the point, and exactly [f]
    characters. *)
Lemma toFixed_nonneg_shape (f : nat) (x : Q) :
  f ≠ O →
  let m := pretty (Qfloor (x * inject_Z (10 ^ Z.of_nat f) + (1 # 2))) in
  let padded := if (String.length m <=? f)%nat
                then Num.zeros (f + 1 - String.length m) +:+ m else m in
  let k := String.length padded in
  Num.toFixed_nonneg f x
  = String.substring 0 (k - f) padded +:+ "." +:+ String.substring (k - f) f padded
  ∧ (f + 1 <= k)%nat.
Proof.
  intros Hf m padded k. split.
  - unfold Num.toFixed_nonneg. fold m. by destruct f.
  - subst k padded. destruct (Nat.leb_spec (String.length m) f) as [Hle|Hgt].
    + rewrite length_append, length_zeros. lia.
    + lia.
Qed.

Lemma toFixed_shape (f : nat) (x : Q) :
  f ≠ O →
  ∃ a b, Num.toFixed f (Finite x) = a +:+ "." +:+ b
         ∧ String.length b = f ∧ (1 <= String.length a)%nat.
Proof.
  intros Hf. unfold Num.toFixed.
  destruct (Qle_bool 0 x).
  - destruct (toFixed_nonneg_shape f x Hf) as [-> Hk].
    eexists _, _. split; [reflexivity|].
    rewrite !length_substring by lia. lia.
  - destruct (toFixed_nonneg_shape f (- x) Hf) as [-> Hk].
    eexists ("-" +:+ _), _. split; [reflexivity|].
    rewrite length_append, !length_substring by lia.
    split; [done|]. lia.
Qed.

End FormatFacts.

(** ** Numbers equal up to their representation *)

Module EquivFacts.

Lemma equiv_same (a : number) : a ≡ₙ a.
Proof. destruct a; cbn; done. Qed.

Lemma equiv_sym (a b : number) : a ≡ₙ b → b ≡ₙ a.
Proof. by destruct a, b; cbn. Qed.

Lemma equiv_trans (a b c : number) : a ≡ₙ b → b ≡ₙ c → a ≡ₙ c.
Proof.
  destruct a, b, c; cbn; try done. intros Hab Hbc. by rewrite Hab.
Qed.

Lemma equiv_isFinite (a b : number) :
  a ≡ₙ b → Num.isFinite b = true → Num.isFinite a = true.
Proof. by destruct a, b. Qed.

Lemma of_nat_zero (n : nat) : Num.of_nat n ≡ₙ Num.zero → n = O.
Proof.
  unfold Num.of_nat, Num.of_Z, Num.zero, Num.equiv, Qeq. cbn. lia.
Qed.

End EquivFacts.

(** ** The ideal arithmetic

    It has the exact cases of the machine, and the decimal form is a
    [toFixed] that gives the decimal form throughout. *)

Module IdealFacts.

Lemma Qeq_bool_false (x y : Q) : ¬ (x == y)%Q → Qeq_bool x y = false.
Proof.
  intros Hne. destruct (Qeq_bool x y) eqn:Heq; [|done].
  by apply Qeq_bool_iff in Heq.
Qed.

Lemma Qeq_bool_true (x y : Q) : (x == y)%Q → Qeq_bool x y = true.
Proof. apply Qeq_bool_iff. Qed.

Lemma signed_inf_zero (q : Q) (positive : bool) :
  (q == 0)%Q → Num.signed_inf q positive = NaN.
Proof.
  intros Hq. unfold Num.signed_inf.
  by rewrite (proj1 (Qeq_alt q 0) Hq).
Qed.

Lemma signed_inf_one (q : Q) (positive : bool) :
  (q == 1)%Q →
  Num.signed_inf q positive = if positive then PosInf else NegInf.
Proof.
  intros Hq. unfold Num.signed_inf.
  assert (Hgt : (0 < q)%Q) by (rewrite Hq; reflexivity).
  apply Qgt_alt in Hgt. by rewrite Hgt.
Qed.

Lemma ideal_exact_cases : ExactCases.
Proof.
  split.
  - intros n Hn _. cbn. rewrite Qred_correct.
    unfold Qeq, Qplus, inject_Z. cbn. lia.
  - intros [x| | |] [y| | |]; cbn; try done.
    intros _ Hxy. rewrite Qred_correct, Hxy. ring.
  - intros [x| | |] [q| | |] _; cbn; try done.
    intros Hq. rewrite Qred_correct, Hq. ring.
  - intros [x| | |] [q| | |] _; cbn; try done.
    intros Hq. rewrite Qred_correct, Hq. ring.
  - intros [q| | |] [y| | |]; cbn; try done.
    intros Hq _ Hy. rewrite (Qeq_bool_false _ _ Hy). cbn.
    rewrite Qred_correct, Hq. by field.
  - intros [q| | |] [y| | |]; cbn; try done.
    intros Hq Hy. rewrite (Qeq_bool_true _ _ Hy).
    by apply signed_inf_zero.
  - intros [x| | |] [y| | |]; cbn; try done.
    intros _ Hx Hxy.
    assert (Hy : ¬ (y == 0)%Q) by by rewrite <- Hxy.
    rewrite (Qeq_bool_false _ _ Hy). cbn.
    rewrite Qred_correct, Hxy. by field.
  - intros [q| | |] [y| | |]; cbn; try done.
    intros Hq _. rewrite Qred_correct, Hq. ring.
  - intros [q| | |] [y| | |] _; cbn; try done.
    + intros Hq. rewrite Qred_correct, Hq. ring.
    + intros Hq. by rewrite (signed_inf_one _ _ Hq).
    + intros Hq. by rewrite (signed_inf_one _ _ Hq).
  - by intros [y| | |].
Qed.

Lemma ideal_decimal : decimalBelow1e21.
Proof. by intros f q _ _. Qed.

Lemma div_number (a b : number) :
  Num.isNaN a = false → Num.isFinite b = true → ¬ b ≡ₙ Num.zero →
  ∃ c, Num.div a b = c ∧ Num.isNaN c = false
       ∧ (Num.isFinite a = true → Num.isFinite c = true).
Proof.
  destruct a as [x| | |], b as [y| | |]; cbn; try done; intros _ _ Hy.
  - rewrite (Qeq_bool_false _ _ Hy). by eexists.
  - destruct (Qle_bool 0 y); by eexists.
  - destruct (Qle_bool 0 y); by eexists.
Qed.

Lemma ideal_number_results : NumberResults.
Proof.
  split.
  - by intros [x| | |] [y| | |].
  - intros a b Ha Hb Hne. change (Num.isNaN (Num.div a b) = false).
    by destruct (div_number a b Ha Hb Hne) as (c & -> & Hc & _).
  - by intros [x| | |] [y| | |].
Qed.

End IdealFacts.

(** ** The arithmetic of the machine

    Rounding to the nearest binary64 number keeps the order and leaves
    a binary64 number as it is; the arithmetic of the machine has the
    exact cases. *)

Module Binary64Facts.
Import Binary64.

#[local] Open Scope Q_scope.

Lemma two_pos (e : Z) : 0 < 2 ^ e.
Proof. by apply Qpower_0_lt. Qed.

Lemma two_nonzero : ¬ 2 == 0.
Proof. done. Qed.

Lemma two_succ (e : Z) : 2 ^ (e + 1) == 2 * 2 ^ e.
Proof. rewrite Qpower_plus by done. change (2 ^ 1) with 2. ring. Qed.

Lemma two_inject (e : Z) : (0 <= e)%Z → inject_Z (2 ^ e) == 2 ^ e.
Proof. intros He. by rewrite Zpower_Qpower. Qed.

Lemma two_le (e e' : Z) : (e <= e')%Z → 2 ^ e <= 2 ^ e'.
Proof. intros He. by apply Qpower_le_compat_l. Qed.

Lemma two_lt_inv (e e' : Z) : 2 ^ e < 2 ^ e' → (e < e')%Z.
Proof. intros Hlt. by apply (Qpower_lt_compat_l_inv 2). Qed.

(** For [x > 0], [binade x] is the [e] with [2^e <= x < 2^(e+1)]. *)
Lemma binade_spec (x : Q) :
  0 < x → 2 ^ binade x <= x ∧ x < 2 ^ (binade x + 1).
Proof.
  intros Hx. destruct x as [n d]. unfold binade. cbn [Qnum Qden].
  assert (Hn : (0 < n)%Z) by (unfold Qlt in Hx; cbn in Hx; lia).
  pose proof (Z.log2_spec n Hn) as [Hn1 Hn2].
  pose proof (Z.log2_spec (Z.pos d) (Pos2Z.is_pos d)) as [Hd1 Hd2].
  pose proof (Z.log2_nonneg n) as Ha.
  pose proof (Z.log2_nonneg (Z.pos d)) as Hb.
  set (a := Z.log2 n) in *. set (b := Z.log2 (Z.pos d)) in *.
  assert (HA : inject_Z (2 ^ a) == 2 ^ a) by by apply two_inject.
  assert (HB : inject_Z (2 ^ b) == 2 ^ b) by by apply two_inject.
  assert (Hx' : n # d == inject_Z n / inject_Z (Z.pos d))
    by apply Qmake_Qdiv.
  assert (HD : 0 < inject_Z (Z.pos d)) by done.
  assert (Hn1' : 2 ^ a <= inject_Z n).
  { rewrite <- HA. by rewrite <- Zle_Qle. }
  assert (Hn2' : inject_Z n < 2 * 2 ^ a).
  { rewrite <- HA. change 2 with (inject_Z 2) at 1. rewrite <- inject_Z_mult.
    rewrite <- Zlt_Qlt. unfold Z.succ in Hn2.
    rewrite Z.pow_add_r in Hn2 by lia. lia. }
  assert (Hd1' : 2 ^ b <= inject_Z (Z.pos d)).
  { rewrite <- HB. by rewrite <- Zle_Qle. }
  assert (Hd2' : inject_Z (Z.pos d) < 2 * 2 ^ b).
  { rewrite <- HB. change 2 with (inject_Z 2) at 1. rewrite <- inject_Z_mult.
    rewrite <- Zlt_Qlt. unfold Z.succ in Hd2.
    rewrite Z.pow_add_r in Hd2 by lia. lia. }
  pose proof (two_pos a) as HA0. pose proof (two_pos b) as HB0.
  assert (Hab : 2 ^ (a - b) == 2 ^ a / 2 ^ b) by by apply Qpower_minus.
  destruct (Qle_bool (2 ^ (a - b)) (n # d)) eqn:Htest.
  - apply Qle_bool_iff in Htest. split; [done|].
    rewrite two_succ, Hab, Hx'.
    apply Qlt_shift_div_r; [done|].
    assert (H1 : 2 * (2 ^ a / 2 ^ b) * inject_Z (Z.pos d)
                 == 2 * 2 ^ a * (inject_Z (Z.pos d) / 2 ^ b)) by (field; lra).
    rewrite H1.
    assert (H2 : 1 <= inject_Z (Z.pos d) / 2 ^ b).
    { apply Qle_shift_div_l; [done|]. lra. }
    nra.
  - apply NumFacts.Qle_bool_false in Htest.
    replace (a - b - 1 + 1)%Z with (a - b)%Z by lia. split; [|done].
    assert (Hs : 2 ^ (a - b - 1) == 2 ^ a / (2 * 2 ^ b)).
    { rewrite Qpower_minus by done. rewrite Hab. change (2 ^ 1) with 2.
      field. lra. }
    rewrite Hs, Hx'. apply Qle_shift_div_l; [done|].
    assert (H1 : 2 ^ a / (2 * 2 ^ b) * inject_Z (Z.pos d)
                 == 2 ^ a * (inject_Z (Z.pos d) / (2 * 2 ^ b))) by (field; lra).
    rewrite H1.
    assert (H2 : inject_Z (Z.pos d) / (2 * 2 ^ b) <= 1).
    { apply Qle_shift_div_r; [lra|]. lra. }
    nra.
Qed.

Lemma binade_unique (x : Q) (e : Z) :
  0 < x → 2 ^ e <= x → x < 2 ^ (e + 1) → binade x = e.
Proof.
  intros Hx Hlo Hhi. destruct (binade_spec x Hx) as [Hlo' Hhi'].
  assert (H1 : (e < binade x + 1)%Z).
  { apply two_lt_inv. eapply Qle_lt_trans; [exact Hlo|exact Hhi']. }
  assert (H2 : (binade x < e + 1)%Z).
  { apply two_lt_inv. eapply Qle_lt_trans; [exact Hlo'|exact Hhi]. }
  lia.
Qed.

Lemma binade_mono (x y : Q) : 0 < x → x <= y → (binade x <= binade y)%Z.
Proof.
  intros Hx Hxy.
  destruct (binade_spec x Hx) as [Hlo _].
  destruct (binade_spec y) as [_ Hhi]; [lra|].
  assert (H : (binade x < binade y + 1)%Z).
  { apply two_lt_inv. lra. }
  lia.
Qed.

Lemma binade_comp (x y : Q) : 0 < x → x == y → binade x = binade y.
Proof.
  intros Hx Hxy. destruct (binade_spec x Hx) as [Hlo Hhi].
  symmetry. apply binade_unique; by rewrite <- Hxy.
Qed.

Lemma lastPlace_ge (x : Q) : (-1074 <= lastPlace x)%Z.
Proof. unfold lastPlace. lia. Qed.

Lemma lastPlace_mono (x y : Q) :
  0 < x → x <= y → (lastPlace x <= lastPlace y)%Z.
Proof.
  intros Hx Hxy. pose proof (binade_mono x y Hx Hxy). unfold lastPlace. lia.
Qed.

(** *** The nearest integer *)

Lemma nearestEven_range (x : Q) :
  (Qfloor x <= nearestEven x <= Qfloor x + 1)%Z.
Proof.
  unfold nearestEven.
  destruct (x - inject_Z (Qfloor x) ?= 1 # 2); [|lia..].
  destruct (Z.even (Qfloor x)); lia.
Qed.

Lemma nearestEven_integer (x : Q) (m : Z) :
  x == inject_Z m → nearestEven x = m.
Proof.
  intros Hx. unfold nearestEven.
  rewrite (Qfloor_comp _ _ Hx), Qfloor_Z.
  assert (Hlt : x - inject_Z m < 1 # 2) by (rewrite Hx; lra).
  assert (Hc : (x - inject_Z m ?= 1 # 2) = Lt) by by apply Qlt_alt.
  by rewrite Hc.
Qed.

Lemma nearestEven_comp (x y : Q) : x == y → nearestEven x = nearestEven y.
Proof.
  intros Hxy. unfold nearestEven. rewrite (Qfloor_comp _ _ Hxy).
  assert (Hc : (x - inject_Z (Qfloor y) ?= 1 # 2)
               = (y - inject_Z (Qfloor y) ?= 1 # 2))
    by by rewrite Hxy.
  by rewrite Hc.
Qed.

Lemma nearestEven_mono (x y : Q) :
  x <= y → (nearestEven x <= nearestEven y)%Z.
Proof.
  intros Hxy. pose proof (Qfloor_resp_le _ _ Hxy) as Hf.
  pose proof (nearestEven_range x) as Hx.
  pose proof (nearestEven_range y) as Hy.
  destruct (Z.eq_dec (Qfloor x) (Qfloor y)) as [Heq|Hne]; [|lia].
  unfold nearestEven in *. rewrite <- Heq in *.
  destruct (x - inject_Z (Qfloor x) ?= 1 # 2) eqn:Hcx;
    destruct (y - inject_Z (Qfloor x) ?= 1 # 2) eqn:Hcy;
    try lia.
  - apply Qeq_alt in Hcx. apply Qlt_alt in Hcy. lra.
  - apply Qgt_alt in Hcx. apply Qeq_alt in Hcy. lra.
  - apply Qgt_alt in Hcx. apply Qlt_alt in Hcy. lra.
Qed.

Lemma nearestEven_ge (x : Q) (m : Z) :
  inject_Z m <= x → (m <= nearestEven x)%Z.
Proof.
  intros Hx. pose proof (nearestEven_mono _ _ Hx) as Hm.
  by rewrite (nearestEven_integer (inject_Z m) m) in Hm.
Qed.

Lemma nearestEven_le (x : Q) (m : Z) :
  x <= inject_Z m → (nearestEven x <= m)%Z.
Proof.
  intros Hx. pose proof (nearestEven_mono _ _ Hx) as Hm.
  by rewrite (nearestEven_integer (inject_Z m) m) in Hm.
Qed.

(** *** The nearest binary64 number *)

Lemma scaled_lt (x : Q) :
  0 < x → x / 2 ^ lastPlace x < inject_Z (2 ^ 53).
Proof.
  intros Hx. destruct (binade_spec x Hx) as [_ Hhi].
  apply Qlt_shift_div_r; [apply two_pos|].
  rewrite two_inject by done. rewrite <- Qpower_plus by done.
  eapply Qlt_le_trans; [exact Hhi|]. apply two_le. unfold lastPlace. lia.
Qed.

Lemma scaled_ge (x : Q) :
  0 < x → (-1074 < lastPlace x)%Z →
  inject_Z (2 ^ 52) <= x / 2 ^ lastPlace x.
Proof.
  intros Hx He. destruct (binade_spec x Hx) as [Hlo _].
  apply Qle_shift_div_l; [apply two_pos|].
  rewrite two_inject by done. rewrite <- Qpower_plus by done.
  eapply Qle_trans; [|exact Hlo]. apply two_le. unfold lastPlace in *. lia.
Qed.

Lemma scaled_pos (x : Q) : 0 < x → 0 < x / 2 ^ lastPlace x.
Proof.
  intros Hx. apply Qlt_shift_div_l; [apply two_pos|]. lra.
Qed.

Lemma significand_range (x : Q) :
  0 < x → (0 <= significand x <= 2 ^ 53)%Z.
Proof.
  intros Hx. unfold significand. split.
  - apply nearestEven_ge. pose proof (scaled_pos x Hx).
    change (inject_Z 0) with 0. lra.
  - apply nearestEven_le. by apply Qlt_le_weak, scaled_lt.
Qed.

Lemma significand_normal (x : Q) :
  0 < x → (-1074 < lastPlace x)%Z → (2 ^ 52 <= significand x)%Z.
Proof. intros Hx He. by apply nearestEven_ge, scaled_ge. Qed.

Lemma nearest_nonneg (x : Q) : 0 < x → 0 <= nearest x.
Proof.
  intros Hx. unfold nearest. destruct (significand_range x Hx) as [H0 _].
  apply Qmult_le_0_compat; [|apply Qlt_le_weak, two_pos].
  change 0 with (inject_Z 0). by rewrite <- Zle_Qle.
Qed.

Lemma nearest_comp (x y : Q) : 0 < x → x == y → nearest x == nearest y.
Proof.
  intros Hx Hxy. unfold nearest, significand, lastPlace.
  rewrite (binade_comp x y Hx Hxy).
  by rewrite (nearestEven_comp (x / _) (y / 2 ^ Z.max (binade y - 52) (-1074)))
    by by rewrite Hxy.
Qed.

(** Rounding keeps the order. *)
Lemma nearest_mono (x y : Q) : 0 < x → x <= y → nearest x <= nearest y.
Proof.
  intros Hx Hxy. assert (Hy : 0 < y) by lra.
  pose proof (lastPlace_mono x y Hx Hxy) as He.
  destruct (significand_range x Hx) as [Hx0 Hx1].
  destruct (significand_range y Hy) as [Hy0 Hy1].
  unfold nearest.
  destruct (Z.eq_dec (lastPlace x) (lastPlace y)) as [Heq|Hne].
  - assert (Hm : (significand x <= significand y)%Z).
    { unfold significand. rewrite Heq. apply nearestEven_mono.
      apply Qmult_le_compat_r; [done|].
      apply Qlt_le_weak, Qinv_lt_0_compat, two_pos. }
    rewrite Heq. apply Qmult_le_compat_r; [by rewrite <- Zle_Qle|].
    apply Qlt_le_weak, two_pos.
  - assert (Hnormal : (2 ^ 52 <= significand y)%Z).
    { apply significand_normal; [done|]. pose proof (lastPlace_ge x). lia. }
    apply Qle_trans with (inject_Z (2 ^ 53) * 2 ^ lastPlace x).
    { apply Qmult_le_compat_r; [by rewrite <- Zle_Qle|].
      apply Qlt_le_weak, two_pos. }
    apply Qle_trans with (inject_Z (2 ^ 52) * 2 ^ lastPlace y).
    { rewrite !two_inject by done. rewrite <- !Qpower_plus by done.
      apply two_le. lia. }
    apply Qmult_le_compat_r; [by rewrite <- Zle_Qle|].
    apply Qlt_le_weak, two_pos.
Qed.

(** A number on the grid of the binary64 numbers is its own nearest
    binary64 number. *)
Lemma nearest_grid (x : Q) (m e : Z) :
  (0 < m <= 2 ^ 53)%Z → (-1074 <= e)%Z → x == inject_Z m * 2 ^ e →
  nearest x == x.
Proof.
  intros Hm He Hx.
  assert (Hpos : 0 < x).
  { rewrite Hx. apply Qmult_lt_0_compat; [|apply two_pos].
    change 0 with (inject_Z 0). rewrite <- Zlt_Qlt. lia. }
  pose proof (Z.log2_spec m (proj1 Hm)) as [Hl1 Hl2].
  pose proof (Z.log2_nonneg m) as Hl0.
  pose proof (Z.log2_le_mono m (2 ^ 53) (proj2 Hm)) as Hl53.
  rewrite (Z.log2_pow2 53) in Hl53 by lia.
  assert (Hbinade : binade x = (Z.log2 m + e)%Z).
  { apply binade_unique; [done| |].
    - rewrite Hx, Qpower_plus by done.
      apply Qmult_le_compat_r; [|apply Qlt_le_weak, two_pos].
      rewrite <- two_inject by done. by rewrite <- Zle_Qle.
    - rewrite Hx. replace (Z.log2 m + e + 1)%Z with (Z.succ (Z.log2 m) + e)%Z
        by lia.
      rewrite Qpower_plus by done.
      apply Qmult_lt_compat_r; [apply two_pos|].
      rewrite <- two_inject by lia. by rewrite <- Zlt_Qlt. }
  assert (Hint : ∃ t : Z, x / 2 ^ lastPlace x == inject_Z t).
  { unfold lastPlace. rewrite Hbinade.
    destruct (Z_le_gt_dec (Z.max (Z.log2 m + e - 52) (-1074)) e) as [Hle|Hgt].
    - exists (m * 2 ^ (e - Z.max (Z.log2 m + e - 52) (-1074)))%Z.
      rewrite inject_Z_mult, two_inject by lia.
      rewrite Hx, Qpower_minus by done. field.
      apply Qnot_eq_sym, Qlt_not_eq, two_pos.
    - assert (Hm53 : m = (2 ^ 53)%Z).
      { assert (Z.log2 m = 53)%Z by lia.
        assert (2 ^ 53 <= m)%Z by (by replace 53%Z with (Z.log2 m)). lia. }
      exists (2 ^ 52)%Z.
      replace (Z.max (Z.log2 m + e - 52) (-1074)) with (e + 1)%Z by lia.
      rewrite Hx, Hm53, !two_inject by done.
      rewrite Qpower_plus by done. change (2 ^ 53) with (2 * 2 ^ 52).
      change (2 ^ 1) with 2. field.
      apply Qnot_eq_sym, Qlt_not_eq, two_pos. }
  destruct Hint as [t Ht].
  unfold nearest, significand. rewrite (nearestEven_integer _ t Ht).
  rewrite <- Ht. field. apply Qnot_eq_sym, Qlt_not_eq, two_pos.
Qed.

(** The nearest binary64 number is one. *)
Lemma nearest_nearest (x : Q) :
  0 < x → 0 < nearest x → nearest (nearest x) == nearest x.
Proof.
  intros Hx Hr. destruct (significand_range x Hx) as [H0 H1].
  apply (nearest_grid _ (significand x) (lastPlace x));
    [|apply lastPlace_ge|reflexivity].
  split; [|done].
  destruct (Z.eq_dec (significand x) 0%Z) as [Hz|Hnz]; [|lia].
  unfold nearest in Hr. rewrite Hz in Hr.
  change (inject_Z 0) with 0 in Hr. lra.
Qed.

(** *** Rounding *)

Lemma round_cases (x : Q) :
  (x == 0 ∧ round x = Finite 0)
  ∨ (0 < x ∧ nearest x <= maxValue ∧ round x ≡ₙ Finite (nearest x))
  ∨ (0 < x ∧ maxValue < nearest x ∧ round x = PosInf)
  ∨ (x < 0 ∧ nearest (- x) <= maxValue
     ∧ round x ≡ₙ Finite (- nearest (- x)))
  ∨ (x < 0 ∧ maxValue < nearest (- x) ∧ round x = NegInf).
Proof.
  pose proof (Qred_correct x) as Hred. unfold round.
  destruct (Qred x ?= 0) eqn:Hc.
  - apply Qeq_alt in Hc. left. split; [by rewrite <- Hred|done].
  - apply Qlt_alt in Hc. right. right. right.
    assert (Hx : x < 0) by by rewrite <- Hred.
    assert (Hn : nearest (- Qred x) == nearest (- x)).
    { apply nearest_comp; [lra|by rewrite Hred]. }
    unfold roundPos. destruct (Qle_bool _ maxValue) eqn:Hle.
    + left. apply Qle_bool_iff in Hle. split; [done|].
      split; [by rewrite <- Hn|]. cbn. by rewrite Qred_correct, Hn.
    + right. apply NumFacts.Qle_bool_false in Hle. split; [done|].
      split; [by rewrite <- Hn|done].
  - apply Qgt_alt in Hc. right.
    assert (Hx : 0 < x) by by rewrite <- Hred.
    assert (Hn : nearest (Qred x) == nearest x).
    { apply nearest_comp; [lra|done]. }
    unfold roundPos. destruct (Qle_bool _ maxValue) eqn:Hle.
    + left. apply Qle_bool_iff in Hle. split; [done|].
      split; [by rewrite <- Hn|]. cbn. by rewrite Qred_correct, Hn.
    + right. left. apply NumFacts.Qle_bool_false in Hle. split; [done|].
      split; [by rewrite <- Hn|done].
Qed.

Lemma round_comp (x y : Q) : x == y → round x = round y.
Proof. intros Hxy. unfold round. by rewrite (Qred_complete x y Hxy). Qed.

Lemma round_zero (x : Q) : x == 0 → round x = Finite 0.
Proof. intros Hx. by rewrite (round_comp x 0 Hx). Qed.

Lemma leb_Finite (a b : number) (p q : Q) :
  a ≡ₙ Finite p → b ≡ₙ Finite q → p <= q → Num.leb a b = true.
Proof.
  destruct a as [x| | |], b as [y| | |]; cbn; try done.
  intros Hx Hy Hpq. apply Qle_bool_iff. by rewrite Hx, Hy.
Qed.

Lemma leb_PosInf (a : number) (p : Q) :
  a ≡ₙ Finite p → Num.leb a PosInf = true.
Proof. by destruct a. Qed.

Lemma leb_NegInf (b : number) (q : Q) :
  b ≡ₙ Finite q → Num.leb NegInf b = true.
Proof. by destruct b. Qed.

(** Rounding keeps the order. *)
Lemma round_mono (x y : Q) :
  x <= y → Num.leb (round x) (round y) = true.
Proof.
  intros Hxy.
  destruct (round_cases x)
    as [[Hx ->]|[(Hx & Hmx & Hrx)|[(Hx & Hmx & ->)|[(Hx & Hmx & Hrx)
       |(Hx & Hmx & ->)]]]];
    destruct (round_cases y)
      as [[Hy ->]|[(Hy & Hmy & Hry)|[(Hy & Hmy & ->)|[(Hy & Hmy & Hry)
         |(Hy & Hmy & ->)]]]];
    try lra; try done;
    try (pose proof (nearest_nonneg x ltac:(lra)));
    try (pose proof (nearest_nonneg y ltac:(lra)));
    try (pose proof (nearest_nonneg (- x) ltac:(lra)));
    try (pose proof (nearest_nonneg (- y) ltac:(lra)));
    try (pose proof (nearest_mono x y ltac:(lra) ltac:(lra)));
    try (pose proof (nearest_mono (- y) (- x) ltac:(lra) ltac:(lra)));
    first
      [ by eapply leb_PosInf
      | by eapply leb_NegInf
      | by apply Qle_bool_iff; lra
      | eapply leb_Finite;
          [eassumption || apply (EquivFacts.equiv_same (Finite 0))
          |eassumption || apply (EquivFacts.equiv_same (Finite 0))
          |lra]
      | lra ].
Qed.

(** A number of the grid within the largest number, or its opposite, is
    left as it is. *)
Lemma round_fixed (v r : Q) :
  0 <= r → r <= maxValue → (0 < r → nearest r == r) →
  v == r ∨ v == - r → round v ≡ₙ Finite v.
Proof.
  intros Hr0 Hmax Hnear Hv.
  destruct (Qlt_le_dec 0 r) as [Hpos|Hzero].
  - specialize (Hnear Hpos).
    destruct (round_cases v)
      as [[Hx _]|[(Hx & Hmx & Hrx)|[(Hx & Hmx & _)|[(Hx & Hmx & Hrx)
         |(Hx & Hmx & _)]]]];
      destruct Hv as [Hv|Hv]; try lra.
    + eapply EquivFacts.equiv_trans; [exact Hrx|]. cbn.
      rewrite (nearest_comp v r Hx Hv). by rewrite Hnear, Hv.
    + rewrite (nearest_comp v r Hx Hv) in Hmx. lra.
    + eapply EquivFacts.equiv_trans; [exact Hrx|]. cbn.
      assert (Hv' : - v == r) by (rewrite Hv; ring).
      rewrite (nearest_comp (- v) r ltac:(lra) Hv'). rewrite Hnear, Hv. ring.
    + assert (Hv' : - v == r) by (rewrite Hv; ring).
      rewrite (nearest_comp (- v) r ltac:(lra) Hv') in Hmx. lra.
  - assert (Hv0 : v == 0) by (destruct Hv as [Hv|Hv]; rewrite Hv; lra).
    rewrite (round_zero v Hv0). cbn. by rewrite Hv0.
Qed.

(** A result of rounding is a binary64 number. *)
Lemma representable_round (x : Q) : representable (round x).
Proof.
  unfold representable.
  destruct (round_cases x)
    as [[Hx ->]|[(Hx & Hmx & Hrx)|[(Hx & Hmx & ->)|[(Hx & Hmx & Hrx)
       |(Hx & Hmx & ->)]]]]; try done.
  - destruct (round x) as [v| | |]; try done. cbn in Hrx. cbn [rounded].
    apply (round_fixed v (nearest x)); [by apply nearest_nonneg|done| |by left].
    intros Hpos. by apply nearest_nearest.
  - destruct (round x) as [v| | |]; try done. cbn in Hrx. cbn [rounded].
    apply (round_fixed v (nearest (- x)));
      [apply nearest_nonneg; lra|done| |by right].
    intros Hpos. apply nearest_nearest; [lra|done].
Qed.

Lemma representable_rounded (a : number) : representable (rounded a).
Proof.
  destruct a as [q| | |]; [apply representable_round|done..].
Qed.

Lemma representable_grid (v : Q) (m e : Z) :
  (0 <= m <= 2 ^ 53)%Z → (-1074 <= e)%Z →
  inject_Z m * 2 ^ e <= maxValue →
  v == inject_Z m * 2 ^ e ∨ v == - (inject_Z m * 2 ^ e) →
  representable (Finite v).
Proof.
  intros Hm He Hmax Hv. unfold representable. cbn [rounded].
  apply (round_fixed v (inject_Z m * 2 ^ e)); [|done| |done].
  - apply Qmult_le_0_compat; [|apply Qlt_le_weak, two_pos].
    change 0 with (inject_Z 0). rewrite <- Zle_Qle. lia.
  - intros Hpos. apply (nearest_grid _ m e); [|done|reflexivity].
    split; [|lia].
    destruct (Z.eq_dec m 0%Z) as [->|Hne]; [|lia].
    change (inject_Z 0) with 0 in Hpos. lra.
Qed.

Lemma representable_of_nat (n : nat) :
  (Z.of_nat n <= 2 ^ 53)%Z → representable (Num.of_nat n).
Proof.
  intros Hn. apply (representable_grid _ (Z.of_nat n) 0); [lia|lia| |left].
  - change (2 ^ 0) with 1. rewrite Qmult_1_r.
    apply Qle_trans with (inject_Z (2 ^ 53)); [by rewrite <- Zle_Qle|].
    by vm_compute.
  - change (2 ^ 0) with 1. by rewrite Qmult_1_r.
Qed.

Lemma maxValue_grid :
  inject_Z ((2 ^ 53 - 1) * 2 ^ 971) == inject_Z (2 ^ 53 - 1) * 2 ^ 971.
Proof. rewrite inject_Z_mult. by rewrite two_inject. Qed.

Lemma representable_MAX_VALUE : representable Num.MAX_VALUE.
Proof.
  apply (representable_grid _ (2 ^ 53 - 1) 971); [lia|lia| |left].
  - rewrite <- maxValue_grid. apply Qle_refl.
  - apply maxValue_grid.
Qed.

Lemma representable_neg_MAX_VALUE : representable (Num.neg Num.MAX_VALUE).
Proof.
  apply (representable_grid _ (2 ^ 53 - 1) 971); [lia|lia| |right].
  - rewrite <- maxValue_grid. apply Qle_refl.
  - by rewrite <- maxValue_grid.
Qed.

Lemma round_one (x : Q) : x == 1 → round x ≡ₙ Finite 1.
Proof. intros Hx. rewrite (round_comp x 1 Hx). by vm_compute. Qed.

Lemma round_number (x : Q) : Num.isNaN (round x) = false.
Proof.
  unfold round. destruct (Qred x ?= 0); [done| |].
  - by destruct (roundPos (- Qred x)).
  - by destruct (roundPos (Qred x)).
Qed.

Lemma rounded_number (a : number) :
  Num.isNaN a = false → Num.isNaN (rounded a) = false.
Proof. destruct a as [q| | |]; try done. intros _. apply round_number. Qed.

(** *** The laws of the machine *)

Lemma binary64_number_results : @NumberResults binary64.
Proof.
  split; cbn [machine fadd fsub fmul fdiv binary64].
  - intros [x| | |] [y| | |]; try done. intros _ _. apply round_number.
  - intros a b Ha Hb Hne. apply rounded_number.
    by destruct (IdealFacts.div_number a b Ha Hb Hne) as (c & -> & Hc & _).
  - intros [x| | |] [y| | |]; try done; intros _ _; by apply rounded_number.
Qed.

Lemma binary64_exact_cases : @ExactCases binary64.
Proof.
  split; cbn [machine fadd fsub fmul fdiv binary64].
  - intros n Hn Hmax. cbn.
    rewrite (round_comp _ (inject_Z (Z.of_nat (n - 1)))).
    + apply (representable_of_nat (n - 1)). lia.
    + rewrite Qred_correct. unfold Qeq, Qplus, inject_Z. cbn. lia.
  - intros [x| | |] [y| | |]; cbn; try done.
    intros _ Hxy. rewrite round_zero; [done|].
    rewrite Qred_correct, Hxy. ring.
  - intros [x| | |] [q| | |] Ha; cbn; try done.
    intros Hq. rewrite (round_comp _ x); [exact Ha|].
    rewrite Qred_correct, Hq. ring.
  - intros [x| | |] [q| | |] Ha; cbn; try done.
    intros Hq. rewrite (round_comp _ x); [exact Ha|].
    rewrite Qred_correct, Hq. ring.
  - intros [q| | |] [y| | |]; cbn; try done.
    intros Hq _ Hy. rewrite (IdealFacts.Qeq_bool_false _ _ Hy). cbn.
    rewrite round_zero; [done|]. rewrite Qred_correct, Hq. by field.
  - intros [q| | |] [y| | |]; cbn; try done.
    intros Hq Hy. rewrite (IdealFacts.Qeq_bool_true _ _ Hy).
    by rewrite IdealFacts.signed_inf_zero.
  - intros [x| | |] [y| | |]; cbn; try done.
    intros _ Hx Hxy.
    assert (Hy : ¬ (y == 0)%Q) by by rewrite <- Hxy.
    rewrite (IdealFacts.Qeq_bool_false _ _ Hy). cbn.
    apply round_one. rewrite Qred_correct, Hxy. by field.
  - intros [q| | |] [y| | |]; cbn; try done.
    intros Hq _. rewrite round_zero; [done|]. rewrite Qred_correct, Hq. ring.
  - intros [q| | |] [y| | |] Hw; cbn; try done.
    + intros Hq. rewrite (round_comp _ y); [exact Hw|].
      rewrite Qred_correct, Hq. ring.
    + intros Hq. by rewrite (IdealFacts.signed_inf_one _ _ Hq).
    + intros Hq. by rewrite (IdealFacts.signed_inf_one _ _ Hq).
  - by intros [y| | |].
Qed.

End Binary64Facts.

(** ** Properties of the chart *)

Section PathFacts.
Context `{Arithmetic}.
Variables width height gmin gmax : number.

Let point := pointOf width height gmin gmax.

Lemma plotSamples_path (n i : nat) (firstPoint : bool) (data : list Sample) :
  plotSamples width height gmin gmax n i firstPoint data
  = pathThrough firstPoint (map (point n) (valuedFrom i data)).
Proof.
  revert i firstPoint.
  induction data as [|sample rest IH]; intros i firstPoint; [done|].
  cbn [plotSamples valuedFrom].
  destruct (value sample) as [|v]; cbn [isValue toDouble]; [apply IH|].
  destruct (Num.isNaN v); cbn [negb]; [apply IH|].
  rewrite IH. cbn [map pathThrough].
  destruct (valuedFrom (S i) rest) as [|iv ivs]; [done|].
  cbn [map pathThrough]. done.
Qed.

Lemma vertices_app (ops ops' : list CanvasOp) :
  vertices (ops ++ ops') = vertices ops ++ vertices ops'.
Proof. apply omap_app. Qed.

Lemma vertices_lineTos (points : list Point) :
  vertices (lineTos points) = points.
Proof.
  induction points as [|[x y] points IH]; [done|].
  change (vertices (lineTos ((x, y) :: points)))
    with ((x, y) :: vertices (lineTos points)).
  by rewrite IH.
Qed.

Lemma vertices_pathThrough (firstPoint : bool) (points : list Point) :
  vertices (pathThrough firstPoint points) = points.
Proof.
  destruct points as [|[x y] rest]; [done|].
  destruct firstPoint;
    [change (vertices (pathThrough true ((x, y) :: rest)))
       with ((x, y) :: vertices (lineTos rest))
    |change (vertices (pathThrough false ((x, y) :: rest)))
       with ((x, y) :: vertices (lineTos rest))];
    by rewrite vertices_lineTos.
Qed.

(** The operations of a series: the path is begun once, and runs
    through the points of the samples that have a value. *)
Lemma plotOne_path (color : string) (data : list Sample) :
  plotOne width height gmin gmax color data
  = [StrokeStyle color; LineWidth (Num.of_Z 2); BeginPath]
    ++ pathThrough true (map (point (length data)) (valued data))
    ++ [Stroke].
Proof. unfold plotOne. by rewrite plotSamples_path. Qed.

(** Every sample that has a value, and no other, is a vertex of the
    path of its series, at the position of its own index among the
    samples of that series. *)
Lemma vertices_plotOne (color : string) (data : list Sample) :
  vertices (plotOne width height gmin gmax color data)
  = map (point (length data)) (valued data).
Proof.
  rewrite plotOne_path, !vertices_app.
  rewrite vertices_pathThrough. apply app_nil_r.
Qed.

Lemma segmentsFrom_lines (p : Point) (points : list Point) :
  Forall (λ q, finitePoint (fst q) (snd q) = true) points →
  segmentsFrom (Some p) (lineTos points ++ [Stroke])
  = zip (p :: points) points.
Proof.
  intros Hfin. revert p.
  induction Hfin as [|q points Hq _ IH]; intros p; [done|].
  unfold lineTos in *. cbn [map app segmentsFrom]. rewrite Hq, IH.
  by destruct q.
Qed.

(** The path of a series whose drawn points are all finite is one
    polyline: each sample that has a value is joined to the next one
    that has a value. *)
Lemma segments_plotOne (color : string) (data : list Sample) :
  Forall (λ q, finitePoint (fst q) (snd q) = true)
         (map (point (length data)) (valued data)) →
  segments (plotOne width height gmin gmax color data)
  = adjacent (map (point (length data)) (valued data)).
Proof.
  intros Hfin. rewrite plotOne_path. unfold segments.
  cbn [app segmentsFrom].
  destruct (map (point (length data)) (valued data)) as [|p points];
    [reflexivity|].
  apply Forall_cons in Hfin as [Hp Hfin]. destruct p as [x y].
  cbn [pathThrough app segmentsFrom fst snd] in *. rewrite Hp.
  by apply segmentsFrom_lines.
Qed.

(** Two neighbours of a path whose points are finite are joined,
    whatever the other points of the path are. *)
Lemma segmentsFrom_joined (current : option Point) (ops rest : list CanvasOp)
    (op : CanvasOp) (p q : Point) :
  finitePoint (fst p) (snd p) = true → finitePoint (fst q) (snd q) = true →
  op = MoveTo (fst p) (snd p) ∨ op = LineTo (fst p) (snd p) →
  (p, q) ∈ segmentsFrom current (ops ++ op :: LineTo (fst q) (snd q) :: rest).
Proof.
  intros Hp Hq Hop. revert current.
  induction ops as [|op0 ops IH]; intros current.
  - destruct p as [px py], q as [qx qy]. cbn [fst snd] in *.
    destruct Hop as [-> | ->]; cbn [app segmentsFrom]; rewrite Hp.
    + cbn [segmentsFrom]. rewrite Hq. by left.
    + destruct current as [c|]; [right|];
        cbn [segmentsFrom]; rewrite Hq; by left.
  - cbn [app segmentsFrom].
    destruct op0 as [c|w| |x y|x y| |c|t x y]; try apply IH.
    + destruct (finitePoint x y); apply IH.
    + destruct (finitePoint x y); [|apply IH].
      destruct current as [c|]; [right|]; apply IH.
Qed.

Lemma pathThrough_middle (firstPoint : bool) (head tail : list Point)
    (p q : Point) :
  ∃ ops op,
    pathThrough firstPoint (head ++ p :: q :: tail)
    = ops ++ op :: LineTo (fst q) (snd q) :: lineTos tail
    ∧ (op = MoveTo (fst p) (snd p) ∨ op = LineTo (fst p) (snd p)).
Proof.
  destruct head as [|h head].
  - exists [], (if firstPoint then MoveTo (fst p) (snd p)
                else LineTo (fst p) (snd p)).
    split; [done|]. destruct firstPoint; [by left|by right].
  - exists ((if firstPoint then MoveTo (fst h) (snd h)
             else LineTo (fst h) (snd h)) :: lineTos head),
           (LineTo (fst p) (snd p)).
    split; [|by right].
    cbn [app pathThrough]. unfold lineTos. by rewrite map_app.
Qed.

Lemma segments_joined (color : string) (data : list Sample)
    (head tail : list (nat * number)) (a b : nat * number) :
  valued data = head ++ a :: b :: tail →
  finitePoint (fst (point (length data) a)) (snd (point (length data) a))
  = true →
  finitePoint (fst (point (length data) b)) (snd (point (length data) b))
  = true →
  (point (length data) a, point (length data) b)
  ∈ segments (plotOne width height gmin gmax color data).
Proof.
  intros Hvalued Ha Hb. rewrite plotOne_path, Hvalued, map_app.
  cbn [map].
  destruct (pathThrough_middle true (map (point (length data)) head)
              (map (point (length data)) tail)
              (point (length data) a) (point (length data) b))
    as (ops & op & -> & Hop).
  unfold segments. cbn [app segmentsFrom].
  rewrite <- app_assoc. cbn [app].
  by apply segmentsFrom_joined.
Qed.

(** With a single sample the quotient is 0/0. *)
Lemma xOf_single : ExactCases → xOf width 1 0 = NaN.
Proof.
  intros Hexact. unfold xOf.
  rewrite (zero_over_zero Hexact); [apply (NaN_times Hexact)| |].
  - apply EquivFacts.equiv_same.
  - by apply (count_pred Hexact 1).
Qed.

(** The first sample of a series of at least two is drawn at the left
    edge and the last one at the right edge. *)
Lemma xOf_ends (n : nat) :
  ExactCases → (2 <= n)%nat → (Z.of_nat n <= 2 ^ 53)%Z →
  (Num.isFinite width = true → xOf width n 0 ≡ₙ Num.zero)
  ∧ (machine width → xOf width n (n - 1) ≡ₙ width).
Proof.
  intros Hexact Hn Hmax.
  assert (Hpred : (Num.of_nat n - Num.one)%num ≡ₙ Num.of_nat (n - 1))
    by (apply (count_pred Hexact); [lia|done]).
  assert (Hne : ¬ Num.of_nat (n - 1) ≡ₙ Num.zero).
  { intros Hz. apply EquivFacts.of_nat_zero in Hz. lia. }
  split.
  - intros Hw. unfold xOf. apply (zero_times Hexact); [|done].
    apply (zero_over Hexact).
    + apply EquivFacts.equiv_same.
    + by apply (EquivFacts.equiv_isFinite _ _ Hpred).
    + intros Hz. apply Hne.
      eapply EquivFacts.equiv_trans; [|exact Hz].
      by apply EquivFacts.equiv_sym.
  - intros Hw. unfold xOf. apply (one_times Hexact); [done|].
    apply (equal_over Hexact); [done|done|by apply EquivFacts.equiv_sym].
Qed.

(** Over a range whose computed extent is finite and not zero, the lower
    bound is drawn at the bottom edge and the upper bound at the top
    edge. *)
Lemma yOf_ends :
  ExactCases → machine height → Num.isFinite height = true →
  Num.isFinite (gmax - gmin)%num = true → ¬ (gmax - gmin)%num ≡ₙ Num.zero →
  (Num.isFinite gmin = true → yOf height gmin gmax gmin ≡ₙ height)
  ∧ yOf height gmin gmax gmax ≡ₙ Num.zero.
Proof.
  intros Hexact Hmh Hh Hfin Hne. split.
  - intros Hgmin. unfold yOf. apply (minus_zero Hexact); [done|].
    apply (zero_times Hexact); [|done].
    apply (zero_over Hexact); [|done|done].
    apply (minus_equal Hexact); [done|apply EquivFacts.equiv_same].
  - unfold yOf. apply (minus_equal Hexact); [done|].
    apply EquivFacts.equiv_sym, (one_times Hexact); [done|].
    apply (equal_over Hexact); [done|done|apply EquivFacts.equiv_same].
Qed.

End PathFacts.

(** What [valued] lists: sample [i] with value [v] is listed exactly when
    the series has at index [i] a sample whose value is the number [v],
    not NaN. *)
Lemma elem_of_valuedFrom (k i : nat) (v : number) (data : list Sample) :
  (i, v) ∈ valuedFrom k data
  ↔ ∃ j sample, i = (k + j)%nat ∧ data !! j = Some sample
                ∧ value sample = VDouble v ∧ Num.isNaN v = false.
Proof.
  revert k. induction data as [|sample rest IH]; intros k.
  - cbn [valuedFrom]. rewrite elem_of_nil. split; [done|].
    by intros (j & s & _ & Hj & _).
  - cbn [valuedFrom]. split.
    + intros Hin.
      assert (Hrest : (i, v) ∈ valuedFrom (S k) rest →
                ∃ j s, i = (k + j)%nat ∧ (sample :: rest) !! j = Some s
                       ∧ value s = VDouble v ∧ Num.isNaN v = false).
      { intros (j & s & -> & Hj & Hv)%IH. exists (S j), s.
        split; [lia|done]. }
      destruct (value sample) as [|d] eqn:Hval; cbn [isValue] in Hin;
        [by apply Hrest|].
      destruct (Num.isNaN d) eqn:Hnan; cbn [negb] in Hin; [by apply Hrest|].
      apply elem_of_cons in Hin as [Heq|Hin]; [|by apply Hrest].
      injection Heq as -> ->. exists O, sample. cbn [toDouble].
      split; [lia|done].
    + intros (j & s & -> & Hj & Hv & Hnan). destruct j as [|j].
      * injection Hj as ->. rewrite Hv. cbn [isValue toDouble].
        rewrite Hnan. cbn [negb]. rewrite Nat.add_0_r. by left.
      * assert (Hin : (k + S j, v)%nat ∈ valuedFrom (S k) rest).
        { apply IH. exists j, s. split; [lia|done]. }
        destruct (isValue (value sample)); [by right|done].
Qed.

Lemma valuedFrom_app (k : nat) (d1 d2 : list Sample) :
  valuedFrom k (d1 ++ d2)
  = valuedFrom k d1 ++ valuedFrom (k + length d1) d2.
Proof.
  revert k. induction d1 as [|sample d1 IH]; intros k.
  - cbn. by rewrite Nat.add_0_r.
  - cbn [app valuedFrom length]. rewrite IH.
    replace (S k + length d1)%nat with (k + S (length d1))%nat by lia.
    by destruct (isValue (value sample)).
Qed.

Lemma valuedFrom_gap (k : nat) (gap : list Sample) :
  Forall (λ s, isValue (value s) = false) gap → valuedFrom k gap = [].
Proof.
  intros Hgap. revert k.
  induction Hgap as [|sample gap Hs _ IH]; intros k; [done|].
  cbn [valuedFrom]. by rewrite Hs.
Qed.

(** C1, as the code has it, in every arithmetic: a sample without a
    value is no vertex of the path of its series, and the path is never
    interrupted.  For a series in which a run [gap] of samples without a
    value lies between the samples [before] and [after], both with a
    value: no sample of the run is a vertex; the path of the series is
    begun once and runs through the points of the samples that have a
    value, so that the point of [after] is the vertex next to the point
    of [before]; and when these two points are finite the segment from
    the one to the other is drawn.  When all the points of a series are
    finite the segments drawn for it are those that join each sample that
    has a value to the next one that has a value. *)
Theorem plotOne_joins_valued_samples `{Arithmetic}
    (width height gmin gmax : number) (color : string)
    (pre gap post : list Sample) (before after : Sample) (vb va : number) :
  let data := pre ++ before :: gap ++ after :: post in
  let point := pointOf width height gmin gmax (length data) in
  let ops := plotOne width height gmin gmax color data in
  let i := length pre in
  let k := (length pre + S (length gap))%nat in
  value before = VDouble vb → Num.isNaN vb = false →
  value after = VDouble va → Num.isNaN va = false →
  Forall (λ s, isValue (value s) = false) gap →
  (∀ j v, (i < j < k)%nat → (j, v) ∉ valued data)
  ∧ ops = [StrokeStyle color; LineWidth (Num.of_Z 2); BeginPath]
          ++ pathThrough true (map point (valued data)) ++ [Stroke]
  ∧ vertices ops = map point (valued data)
  ∧ (∃ head tail,
       vertices ops = head ++ point (i, vb) :: point (k, va) :: tail)
  ∧ (finitePoint (fst (point (i, vb))) (snd (point (i, vb))) = true →
     finitePoint (fst (point (k, va))) (snd (point (k, va))) = true →
     (point (i, vb), point (k, va)) ∈ segments ops)
  ∧ (Forall (λ q, finitePoint (fst q) (snd q) = true)
            (map point (valued data)) →
     segments ops = adjacent (map point (valued data)))
  ∧ ∀ j v, (j, v) ∈ valued data
           ↔ ∃ sample, data !! j = Some sample
                       ∧ value sample = VDouble v ∧ Num.isNaN v = false.
Proof.
  intros data point ops i k Hvb Hnb Hva Hna Hgap.
  assert (Hvalued : valued data
            = valuedFrom 0 pre ++ (i, vb) :: (k, va)
              :: valuedFrom (S k) post).
  { unfold valued. subst data. rewrite valuedFrom_app.
    cbn [valuedFrom Nat.add]. rewrite Hvb. cbn [isValue toDouble].
    rewrite Hnb. cbn [negb].
    rewrite valuedFrom_app, (valuedFrom_gap _ gap Hgap).
    cbn [app valuedFrom]. rewrite Hva. cbn [isValue toDouble].
    rewrite Hna. cbn [negb]. subst i k.
    by replace (S (length pre) + length gap)%nat
         with (length pre + S (length gap))%nat by lia. }
  assert (Hmember : ∀ j v, (j, v) ∈ valued data
            ↔ ∃ sample, data !! j = Some sample
                        ∧ value sample = VDouble v ∧ Num.isNaN v = false).
  { intros j v. unfold valued. rewrite elem_of_valuedFrom. split.
    - intros (j' & s & -> & Hrest). by exists s.
    - intros (s & Hrest). by exists j, s. }
  split.
  { intros j v Hj Hin. apply Hmember in Hin as (s & Hs & Hv & Hnan).
    subst data i k.
    rewrite lookup_app_r in Hs; [|lia].
    destruct (j - length pre)%nat as [|d] eqn:Hd; [lia|].
    change ((gap ++ after :: post) !! d = Some s) in Hs.
    rewrite lookup_app_l in Hs; [|lia].
    apply list_elem_of_lookup_2 in Hs.
    rewrite Forall_forall in Hgap. specialize (Hgap s Hs).
    rewrite Hv in Hgap. cbn [isValue] in Hgap. by rewrite Hnan in Hgap. }
  split; [apply plotOne_path|].
  split; [apply vertices_plotOne|].
  split.
  { exists (map point (valuedFrom 0 pre)), (map point (valuedFrom (S k) post)).
    subst ops. rewrite vertices_plotOne. fold point.
    by rewrite Hvalued, map_app. }
  split; [intros Hb Ha; by eapply segments_joined|].
  split; [apply segments_plotOne|exact Hmember].
Qed.

(** C8, as the code has it, in every arithmetic: the vertices of the
    path of a series are the points [(xOf i, yOf v)] of its samples that
    have a value, [xOf] being [(i / (n - 1)) * width] and [yOf] being
    [height - ((v - gmin) / (gmax - gmin)) * height] as the machine
    computes them, with no test on [n].  Where the arithmetic has the
    exact cases of the machine: for [n = 1] the horizontal position is
    NaN, so that the one vertex of a series of a single sample is not a
    point of the canvas and nothing is drawn for it; for [n >= 2] the
    first sample is drawn at the left edge and the last one at the right
    edge; and over a range whose computed extent is finite and not zero
    the lower bound is drawn at the bottom edge and the upper bound at
    the top edge (the sides of the canvas being finite numbers of the
    machine). *)
Theorem sample_positions `{Arithmetic} (width height gmin gmax : number) :
  (∀ (color : string) (data : list Sample),
     vertices (plotOne width height gmin gmax color data)
     = map (λ iv, (xOf width (length data) (fst iv),
                   yOf height gmin gmax (snd iv)))
           (valued data))
  ∧ (ExactCases →
     xOf width 1 0 = NaN
     ∧ (∀ (color : string) (sample : Sample),
          Forall (λ p, finitePoint (fst p) (snd p) = false)
                 (vertices (plotOne width height gmin gmax color [sample]))
          ∧ segments (plotOne width height gmin gmax color [sample]) = [])
     ∧ (∀ n : nat, (2 <= n)%nat → (Z.of_nat n <= 2 ^ 53)%Z →
          (Num.isFinite width = true → xOf width n 0 ≡ₙ Num.zero)
          ∧ (machine width → xOf width n (n - 1) ≡ₙ width))
     ∧ (machine height → Num.isFinite height = true →
        Num.isFinite (gmax - gmin)%num = true →
        ¬ (gmax - gmin)%num ≡ₙ Num.zero →
        (Num.isFinite gmin = true → yOf height gmin gmax gmin ≡ₙ height)
        ∧ yOf height gmin gmax gmax ≡ₙ Num.zero)).
Proof.
  split; [intros color data; apply vertices_plotOne|].
  intros Hexact.
  pose proof (xOf_single width Hexact) as Hsingle.
  split; [exact Hsingle|]. split.
  { intros color sample. rewrite vertices_plotOne, plotOne_path.
    unfold valued, pointOf. cbn [valuedFrom length].
    destruct (isValue (value sample)); cbn [map fst snd];
      [|by split].
    rewrite Hsingle. split; [by repeat constructor|done]. }
  split; [intros n Hn Hmax; by apply xOf_ends|].
  intros Hmh Hh Hfin Hne. by apply yOf_ends.
Qed.

(** *** The time axis and the order of the selected ids *)

Lemma scanSample_later (i : nat) (data : list Sample) (acc : Scan) :
  timePoints (fold_left (scanSample (S i)) data acc) = timePoints acc.
Proof.
  revert acc. induction data as [|sample rest IH]; intros acc; [done|].
  cbn [fold_left]. rewrite IH. unfold scanSample.
  by destruct (value sample) as [|v]; [|destruct (negb (Num.isNaN v))].
Qed.

Lemma scanSample_first (data : list Sample) (acc : Scan) :
  timePoints (fold_left (scanSample 0) data acc)
  = timePoints acc ++ map date data.
Proof.
  revert acc. induction data as [|sample rest IH]; intros acc.
  - by rewrite app_nil_r.
  - cbn [fold_left map]. rewrite IH. unfold scanSample.
    destruct (value sample) as [|v]; [|destruct (negb (Num.isNaN v))];
      cbn [timePoints Nat.eqb]; by rewrite <- app_assoc.
Qed.

Lemma scanSensors_later (sensorData : gmap string QVariant) (i : nat)
    (ids : list string) (acc : Scan) :
  timePoints (scanSensors sensorData (S i) ids acc) = timePoints acc.
Proof.
  revert i acc. induction ids as [|id rest IH]; intros i acc; [done|].
  cbn [scanSensors]. destruct (dataOf sensorData id) as [data|];
    rewrite IH; [|done].
  cbn [timePoints]. apply scanSample_later.
Qed.

(** The time points are the dates of the series of the first selected
    id, and empty when that id has no data. *)
Lemma scanSensors_timePoints (sensorData : gmap string QVariant)
    (ids : list string) :
  timePoints (scanSensors sensorData 0 ids scanStart)
  = match ids with
    | [] => []
    | first :: _ =>
        match dataOf sensorData first with
        | Some data => map date data
        | None => []
        end
    end.
Proof.
  destruct ids as [|first rest]; [done|]. cbn [scanSensors].
  destruct (dataOf sensorData first) as [data|];
    rewrite scanSensors_later; [|done].
  cbn [timePoints]. by rewrite scanSample_first.
Qed.

Lemma plotSeries_each (width height gmin gmax : number)
    (sensorData : gmap string QVariant) (palette ids : list string) :
  plotSeries width height sensorData gmin gmax palette ids
  = flat_map (λ p, match dataOf sensorData (fst p) with
                   | Some data => plotOne width height gmin gmax (snd p) data
                   | None => []
                   end) (zip ids palette).
Proof.
  revert palette.
  induction ids as [|id rest IH]; intros palette; [reflexivity|].
  destruct palette as [|color palette]; [reflexivity|].
  cbn [plotSeries zip zip_with flat_map fst snd].
  destruct (dataOf sensorData id) as [data|]; by rewrite IH.
Qed.

Lemma putIndexed_keys (k k' : Z) (v : string) (l : list (Z * string)) :
  k' ∈ map fst (putIndexed k v l) ↔ k' = k ∨ k' ∈ map fst l.
Proof.
  induction l as [|[k0 v0] l IH]; cbn [putIndexed map fst].
  - rewrite list_elem_of_singleton, elem_of_nil. tauto.
  - destruct (Z.ltb_spec k k0) as [Hlt|Hge].
    + cbn [map fst]. rewrite !elem_of_cons. tauto.
    + destruct (Z.eqb_spec k k0) as [->|Hne]; cbn [map fst].
      * rewrite !elem_of_cons. tauto.
      * rewrite !elem_of_cons, IH. tauto.
Qed.

Lemma putIndexed_sorted (k : Z) (v : string) (l : list (Z * string)) :
  StronglySorted Z.lt (map fst l) →
  StronglySorted Z.lt (map fst (putIndexed k v l)).
Proof.
  induction l as [|[k0 v0] l IH]; intros Hs; cbn [putIndexed map fst].
  - repeat constructor.
  - cbn [map fst] in Hs. apply StronglySorted_inv in Hs as [Hs Hall].
    destruct (Z.ltb_spec k k0) as [Hlt|Hge].
    + cbn [map fst]. constructor; [by constructor|].
      constructor; [done|]. eapply Forall_impl; [exact Hall|].
      intros k1 Hk1. cbn in *. lia.
    + destruct (Z.eqb_spec k k0) as [->|Hne]; cbn [map fst].
      * by constructor.
      * constructor; [by apply IH|].
        apply Forall_forall. intros k1 [->|Hk1]%putIndexed_keys; [lia|].
        rewrite Forall_forall in Hall. by apply Hall.
Qed.

(** Ticking boxes of sensors whose ids are array indices keeps the
    selection an object with array-index keys only, held in ascending
    order. *)
Lemma tick_all (sensors : list Sensor) (o : JSObject) :
  Forall (λ s, isArrayIndex (sensorId s) = true) sensors →
  StronglySorted Z.lt (map fst (indexed o)) → named o = [] →
  let o' := fold_left (λ o s, setProperty (sensorId s) (paramName s) o)
                      sensors o in
  StronglySorted Z.lt (map fst (indexed o')) ∧ named o' = []
  ∧ ∀ k, k ∈ map fst (indexed o')
         ↔ k ∈ map fst (indexed o) ∨ k ∈ map sensorId sensors.
Proof.
  intros Hidx. revert o.
  induction Hidx as [|s sensors Hs _ IH]; intros o Hsorted Hnamed.
  - cbn. split; [done|]. split; [done|]. intros k. rewrite elem_of_nil. tauto.
  - cbn [fold_left]. unfold setProperty at 2 4 6. rewrite Hs.
    destruct (IH {| indexed := putIndexed (sensorId s) (paramName s)
                                          (indexed o);
                    named := named o |}
                 (putIndexed_sorted _ _ _ Hsorted) Hnamed)
      as (Hsorted' & Hnamed' & Hkeys).
    split; [done|]. split; [done|]. intros k.
    rewrite Hkeys. cbn [indexed map]. rewrite putIndexed_keys, elem_of_cons.
    tauto.
Qed.

(** C5, as the code has it: the selected ids are the keys of the
    selection object, which come in ascending numeric order of the sensor
    ids and not in the order the boxes were ticked; the time axis is the
    dates of the series of the first of these ids (empty when it has no
    data); and each selected id within the palette that has data is
    plotted on its own, every sample that has a value at the position of
    its index among the samples of its own series. *)
Theorem time_axis_of_first_key (width height gmin gmax : number)
    (sensorData : gmap string QVariant) (sensors : list Sensor) :
  let selectedSensorIds := Object_keys (ticked sensors) in
  Forall (λ s, isArrayIndex (sensorId s) = true) sensors →
  (∃ ids, selectedSensorIds = map propertyKey ids
          ∧ StronglySorted Z.lt ids
          ∧ ∀ k, k ∈ ids ↔ k ∈ map sensorId sensors)
  ∧ timePoints (scanSensors sensorData 0 selectedSensorIds scanStart)
    = match selectedSensorIds with
      | [] => []
      | first :: _ =>
          match dataOf sensorData first with
          | Some data => map date data
          | None => []
          end
      end
  ∧ plotSeries width height sensorData gmin gmax colors selectedSensorIds
    = flat_map (λ p, match dataOf sensorData (fst p) with
                     | Some data =>
                         plotOne width height gmin gmax (snd p) data
                     | None => []
                     end) (zip selectedSensorIds colors)
  ∧ ∀ (color : string) (data : list Sample),
      vertices (plotOne width height gmin gmax color data)
      = map (λ iv, (xOf width (length data) (fst iv),
                    yOf height gmin gmax (snd iv))) (valued data).
Proof.
  intros selectedSensorIds Hidx. split.
  { destruct (tick_all sensors emptyObject Hidx) as (Hsorted & Hnamed & Hkeys);
      [constructor|done|].
    exists (map fst (indexed (ticked sensors))).
    split; [|split; [exact Hsorted|]].
    - subst selectedSensorIds. unfold Object_keys, ticked.
      rewrite Hnamed, app_nil_r. by rewrite map_map.
    - intros k. unfold ticked. rewrite Hkeys. cbn [indexed emptyObject map].
      rewrite elem_of_nil. tauto. }
  split; [apply scanSensors_timePoints|].
  split; [apply plotSeries_each|].
  intros color data. apply vertices_plotOne.
Qed.

(** *** The values of a series *)

Lemma valuedFrom_values (k k' : nat) (data : list Sample) :
  map snd (valuedFrom k data) = map snd (valuedFrom k' data).
Proof.
  revert k k'. induction data as [|sample rest IH]; intros k k'; [done|].
  cbn [valuedFrom]. destruct (isValue (value sample)); cbn [map snd];
    by rewrite (IH (S k) (S k')).
Qed.

Lemma validValues_cons (sample : Sample) (rest : list Sample) :
  validValues (sample :: rest)
  = if isValue (value sample)
    then toDouble (value sample) :: validValues rest
    else validValues rest.
Proof.
  unfold validValues, valued. cbn [valuedFrom].
  destruct (isValue (value sample)); cbn [map snd];
    by rewrite (valuedFrom_values 1 0).
Qed.

Lemma validValues_not_NaN (data : list Sample) :
  Forall (λ v, Num.isNaN v = false) (validValues data).
Proof.
  induction data as [|sample rest IH]; [constructor|].
  rewrite validValues_cons.
  destruct (value sample) as [|v] eqn:Hv; cbn [isValue toDouble]; [done|].
  destruct (Num.isNaN v) eqn:Hnan; cbn [negb]; [done|]. by constructor.
Qed.

Lemma elem_of_validValues (data : list Sample) (v : number) :
  v ∈ validValues data
  ↔ ∃ sample, sample ∈ data ∧ value sample = VDouble v
              ∧ Num.isNaN v = false.
Proof.
  unfold validValues, valued. rewrite list_elem_of_fmap. split.
  - intros ([i v'] & -> & Hin).
    apply elem_of_valuedFrom in Hin as (j & s & _ & Hj & Hv & Hnan).
    exists s. split; [by eapply list_elem_of_lookup_2|done].
  - intros (s & Hs & Hv & Hnan).
    apply list_elem_of_lookup_1 in Hs as [j Hj].
    exists (j, v). split; [done|].
    apply elem_of_valuedFrom. by exists j, s.
Qed.

(** *** The value axis *)

(** A scan of series without a value leaves the range as it was. *)
Lemma scanSample_untouched (i : nat) (data : list Sample) (acc : Scan) :
  validValues data = [] →
  globalMaxValue (fold_left (scanSample i) data acc) = globalMaxValue acc
  ∧ globalMinValue (fold_left (scanSample i) data acc) = globalMinValue acc.
Proof.
  revert acc. induction data as [|sample rest IH]; intros acc; [done|].
  rewrite validValues_cons. cbn [fold_left].
  destruct (isValue (value sample)) eqn:Hvalue; [done|].
  intros Hrest. destruct (IH (scanSample i acc sample) Hrest) as [-> ->].
  unfold scanSample. destruct (value sample) as [|v]; [done|].
  cbn [isValue] in Hvalue. by rewrite Hvalue.
Qed.

Lemma scanSensors_untouched (sensorData : gmap string QVariant) (i : nat)
    (ids : list string) (acc : Scan) :
  selectedValues sensorData ids = [] →
  globalMaxValue (scanSensors sensorData i ids acc) = globalMaxValue acc
  ∧ globalMinValue (scanSensors sensorData i ids acc) = globalMinValue acc.
Proof.
  revert i acc. induction ids as [|id rest IH]; intros i acc; [done|].
  unfold selectedValues. cbn [flat_map scanSensors].
  intros [Hfirst Hrest]%app_eq_nil.
  destruct (dataOf sensorData id) as [data|]; [|by apply IH].
  destruct (IH (S i)
              {| globalMaxValue :=
                   globalMaxValue (fold_left (scanSample i) data acc);
                 globalMinValue :=
                   globalMinValue (fold_left (scanSample i) data acc);
                 allDataPoints :=
                   allDataPoints (fold_left (scanSample i) data acc)
                   ++ [data];
                 timePoints :=
                   timePoints (fold_left (scanSample i) data acc) |} Hrest)
    as [-> ->].
  cbn [globalMaxValue globalMinValue]. by apply scanSample_untouched.
Qed.

Lemma flat_map_filter {A B : Type} (p : A → bool) (f : A → B) (l : list A) :
  flat_map (λ a, if negb (p a) then [f a] else []) l
  = map f (filter (λ a, p a = false) l).
Proof.
  induction l as [|a l IH]; [done|]. cbn [flat_map]. rewrite IH.
  destruct (p a) eqn:Hp; cbn [negb].
  - rewrite filter_cons_False; [done|]. by rewrite Hp.
  - by rewrite filter_cons_True.
Qed.

Lemma filter_all {A : Type} (P : A → Prop) `{!∀ x, Decision (P x)}
    (l : list A) :
  Forall P l → filter P l = l.
Proof.
  induction 1 as [|x l Hx _ IH]; [done|]. by rewrite filter_cons_True, IH.
Qed.

Lemma texts_labels (t : nat → string) (x : number) (y : nat → number)
    (l : list nat) :
  texts (map (λ i, FillText (t i) x (y i)) l) = map t l.
Proof.
  induction l as [|i l IH]; [done|].
  change (t i :: texts (map (λ i, FillText (t i) x (y i)) l) = t i :: map t l).
  by rewrite IH.
Qed.

(** The loop of the labels writes one label for each of the six ticks
    that is not NaN, lowest tick first. *)
Lemma valueLabels_shown `{Arithmetic} `{Engine}
    (height gmin gmax : number) :
  valueLabels height gmin gmax
  = FillStyle "black"
    :: map (λ i, FillText (toFixed 1 (tickValue gmin gmax i)) (Num.of_Z 10)
                   ((height - (Num.of_nat i * height) / Num.of_Z 5)
                    - Num.of_Z 5)%num)
           (filter (λ i, Num.isNaN (tickValue gmin gmax i) = false)
                   (seq 0 6)).
Proof.
  unfold valueLabels. f_equal.
  apply (flat_map_filter
           (λ i, Num.isNaN (tickValue gmin gmax i))
           (λ i, FillText (toFixed 1 (tickValue gmin gmax i)) (Num.of_Z 10)
                   ((height - (Num.of_nat i * height) / Num.of_Z 5)
                    - Num.of_Z 5)%num)).
Qed.

(** The lowest tick is the lower bound, when the computed extent of the
    range is finite. *)
Lemma tickValue_first `{Arithmetic} (gmin gmax : number) :
  ExactCases → machine gmin → Num.isFinite (gmax - gmin)%num = true →
  tickValue gmin gmax 0 ≡ₙ gmin.
Proof.
  intros Hexact Hgmin Hfin. unfold tickValue.
  apply (plus_zero Hexact); [done|].
  apply (zero_over Hexact); [|done|done].
  apply (zero_times Hexact); [apply EquivFacts.equiv_same|done].
Qed.

(** Every tick is a number when the lower bound and the computed extent
    of the range are finite. *)
Lemma tickValue_number `{Arithmetic} (gmin gmax : number) (i : nat) :
  NumberResults → Num.isFinite gmin = true →
  Num.isFinite (gmax - gmin)%num = true →
  Num.isNaN (tickValue gmin gmax i) = false.
Proof.
  intros Hnumber Hgmin Hextent. unfold tickValue.
  apply (plus_number Hnumber); [done|].
  apply (over_number Hnumber); [|done|done].
  by apply (times_number Hnumber).
Qed.

(** C7, as the code has it, in every arithmetic and with every engine:
    whenever a chart is painted, the time points each having a time part,
    the paint ends with the labels of the value axis.  The loop of the
    labels goes through the six ticks [gmin + (i * (gmax - gmin)) / 5],
    [i] from 0 to 5, as the machine computes them, and writes one label,
    [toFixed(1)] of the tick, for each tick that is not NaN, lowest tick
    first: at most six labels, and six exactly when no tick is NaN, as
    is the case, where the results of the arithmetic are numbers, when
    the lower bound and the computed extent of the range are finite.
    When no selected series has a value the bounds are still those the
    scan began with, [Number.MAX_VALUE] and [-Number.MAX_VALUE].  Where
    the arithmetic has the exact cases of the machine, the lower bound is
    one of its numbers and the computed extent of the range is finite,
    the lowest tick is the lower bound.  Where [toFixed] gives the
    decimal form below 10^21, the label of a finite tick below 10^21 has
    one digit after the point. *)
Theorem value_axis_labels `{Arithmetic} `{Engine} (width height : number)
    (sensorData : gmap string QVariant) (selectedSensors : JSObject) :
  let selectedSensorIds := Object_keys selectedSensors in
  let scan := scanSensors sensorData 0 selectedSensorIds scanStart in
  let gmin := fst (chartRange scan) in
  let gmax := snd (chartRange scan) in
  let tick := tickValue gmin gmax in
  let shown := filter (λ i, Num.isNaN (tick i) = false) (seq 0 6) in
  (((length selectedSensorIds =? 0)%nat || (size sensorData =? 0)%nat
    || (length (timePoints scan) =? 0)%nat) = false →
   forallb hasTimePart (timePoints scan) = true →
   onPaint width height sensorData selectedSensors
   = plotSeries width height sensorData gmin gmax colors selectedSensorIds
     ++ valueLabels height gmin gmax)
  ∧ valueLabels height gmin gmax
    = FillStyle "black"
      :: map (λ i, FillText (toFixed 1 (tick i)) (Num.of_Z 10)
                     ((height - (Num.of_nat i * height) / Num.of_Z 5)
                      - Num.of_Z 5)%num)
             shown
  ∧ texts (valueLabels height gmin gmax)
    = map (λ i, toFixed 1 (tick i)) shown
  ∧ (length shown <= 6)%nat
  ∧ ((∀ i, (i < 6)%nat → Num.isNaN (tick i) = false) ↔ shown = seq 0 6)
  ∧ (NumberResults → Num.isFinite gmin = true →
     Num.isFinite (gmax - gmin)%num = true → shown = seq 0 6)
  ∧ (selectedValues sensorData selectedSensorIds = [] →
     gmin = Num.MAX_VALUE ∧ gmax = Num.neg Num.MAX_VALUE)
  ∧ (ExactCases → machine gmin → Num.isFinite (gmax - gmin)%num = true →
     tick 0%nat ≡ₙ gmin)
  ∧ (decimalBelow1e21 →
     ∀ (i : nat) (q : Q),
       tick i = Finite q → (Qabs q < inject_Z (10 ^ 21))%Q →
       ∃ a b, toFixed 1 (tick i) = a +:+ "." +:+ b
              ∧ String.length b = 1%nat).
Proof.
  intros selectedSensorIds scan gmin gmax tick shown.
  split.
  { intros Hshown Hparts. apply orb_false_iff in Hshown as [Hshown Htime].
    unfold onPaint. fold selectedSensorIds. rewrite Hshown.
    fold scan. subst gmin gmax. destruct (chartRange scan) as [a b].
    by rewrite Htime, Hparts. }
  split; [apply valueLabels_shown|].
  split.
  { rewrite valueLabels_shown. fold tick shown.
    change (texts (map (λ i, FillText (toFixed 1 (tick i)) (Num.of_Z 10)
                          ((height - (Num.of_nat i * height) / Num.of_Z 5)
                           - Num.of_Z 5)%num) shown)
            = map (λ i, toFixed 1 (tick i)) shown).
    apply (texts_labels (λ i, toFixed 1 (tick i))). }
  split.
  { subst shown.
    etransitivity; [apply length_filter|]. by rewrite length_seq. }
  split.
  { split.
    - intros Hall. subst shown. apply filter_all, Forall_forall.
      intros i Hi%elem_of_seq. apply Hall. lia.
    - intros Heq i Hi.
      assert (Hin : i ∈ shown) by (rewrite Heq; apply elem_of_seq; lia).
      subst shown. by apply list_elem_of_filter in Hin as [Hnan _]. }
  split.
  { intros Hnumber Hgmin Hextent. subst shown.
    apply filter_all, Forall_forall. intros i _.
    by apply tickValue_number. }
  split.
  { intros Hnone.
    destruct (scanSensors_untouched sensorData 0 selectedSensorIds scanStart
                Hnone) as [Hmax Hmin].
    subst gmin gmax. unfold chartRange. fold scan in Hmax, Hmin.
    rewrite Hmax, Hmin. cbn [scanStart globalMaxValue globalMinValue].
    assert (Hne : Num.eqb (Num.neg Num.MAX_VALUE) Num.MAX_VALUE = false)
      by by vm_compute.
    by rewrite Hne. }
  split; [intros Hexact Hgmin Hfin; by apply tickValue_first|].
  intros Hdecimal i q Hq Hbelow. rewrite Hq, (Hdecimal 1%nat q); [|lia|done].
  destruct (FormatFacts.toFixed_shape 1 q) as (a & b & Hab & Hb & _);
    [done|].
  by exists a, b.
Qed.

(** ** Properties of the statistics texts *)

Lemma meanStep_fold `{Arithmetic} (data : list Sample) (sum : number)
    (count : nat) :
  fold_left meanStep data (sum, count)
  = (fold_left fadd (validValues data) sum,
     (count + length (validValues data))%nat).
Proof.
  revert sum count.
  induction data as [|sample rest IH]; intros sum count.
  - cbn. by rewrite Nat.add_0_r.
  - cbn [fold_left]. rewrite validValues_cons. unfold meanStep at 2.
    destruct (value sample) as [|v]; cbn [isValue toDouble fst snd];
      [apply IH|].
    destruct (Num.isNaN v); cbn [negb]; [apply IH|].
    rewrite IH. cbn [fold_left length]. f_equal. lia.
Qed.

Lemma minStep_fold (data : list Sample) (m : number) :
  fold_left minStep data m = fold_left Num.min (validValues data) m.
Proof.
  revert m. induction data as [|sample rest IH]; intros m; [done|].
  cbn [fold_left]. rewrite validValues_cons. unfold minStep at 2.
  destruct (value sample) as [|v]; cbn [isValue toDouble]; [apply IH|].
  destruct (Num.isNaN v); cbn [negb]; [apply IH|]. by rewrite IH.
Qed.

Lemma maxStep_fold (data : list Sample) (m : number) :
  fold_left maxStep data m = fold_left Num.max (validValues data) m.
Proof.
  revert m. induction data as [|sample rest IH]; intros m; [done|].
  cbn [fold_left]. rewrite validValues_cons. unfold maxStep at 2.
  destruct (value sample) as [|v]; cbn [isValue toDouble]; [apply IH|].
  destruct (Num.isNaN v); cbn [negb]; [apply IH|]. by rewrite IH.
Qed.

(** The mean shown is that of the values of the series: their sum, added
    in order to zero, over their number. *)
Lemma meanText_values `{Arithmetic} `{Engine} (data : list Sample) :
  meanText data
  = "Średnia wartość: "
    +:+ (if (0 <? length (validValues data))%nat
         then toFixed 2 (total (validValues data)
                         / Num.of_nat (length (validValues data)))%num
         else "Brak")
    +:+ " µg/m³".
Proof. unfold meanText. by rewrite meanStep_fold. Qed.

Module ExtremumFacts.

Lemma min_spec (a b : number) :
  Num.isNaN a = false → Num.isNaN b = false →
  Num.isNaN (Num.min a b) = false
  ∧ Num.leb (Num.min a b) a = true ∧ Num.leb (Num.min a b) b = true
  ∧ (Num.min a b = a ∨ Num.min a b = b).
Proof.
  intros Ha Hb. unfold Num.min. rewrite Ha, Hb. cbn [orb].
  destruct (Num.ltb b a) eqn:Hlt.
  - split; [done|]. split; [by apply NumFacts.ltb_leb|].
    split; [by apply NumFacts.leb_refl|by right].
  - split; [done|]. split; [by apply NumFacts.leb_refl|].
    split; [by apply NumFacts.not_ltb_leb|by left].
Qed.

Lemma max_spec (a b : number) :
  Num.isNaN a = false → Num.isNaN b = false →
  Num.isNaN (Num.max a b) = false
  ∧ Num.leb a (Num.max a b) = true ∧ Num.leb b (Num.max a b) = true
  ∧ (Num.max a b = a ∨ Num.max a b = b).
Proof.
  intros Ha Hb. unfold Num.max. rewrite Ha, Hb. cbn [orb].
  destruct (Num.ltb a b) eqn:Hlt.
  - split; [done|]. split; [by apply NumFacts.ltb_leb|].
    split; [by apply NumFacts.leb_refl|by right].
  - split; [done|]. split; [by apply NumFacts.leb_refl|].
    split; [by apply NumFacts.not_ltb_leb|by left].
Qed.

(** The running minimum is below its start and below every value, and
    is one of them. *)
Lemma fold_min (values : list number) (m : number) :
  Num.isNaN m = false → Forall (λ v, Num.isNaN v = false) values →
  let r := fold_left Num.min values m in
  Num.isNaN r = false ∧ Num.leb r m = true
  ∧ (∀ v, v ∈ values → Num.leb r v = true)
  ∧ (r = m ∨ r ∈ values).
Proof.
  intros Hm Hvs. revert m Hm.
  induction Hvs as [|v values Hv _ IH]; intros m Hm r.
  - subst r. cbn. split; [done|]. split; [by apply NumFacts.leb_refl|].
    split; [|by left]. intros v Hin. by apply elem_of_nil in Hin.
  - destruct (min_spec m v Hm Hv) as (Hn & Hle_m & Hle_v & Hor).
    destruct (IH (Num.min m v) Hn) as (Hrn & Hrle & Hrall & Hror).
    subst r. cbn [fold_left].
    split; [done|].
    split; [by eapply NumFacts.leb_trans|].
    split.
    + intros v' [->|Hin]%elem_of_cons; [by eapply NumFacts.leb_trans|].
      by apply Hrall.
    + destruct Hror as [Heq|Hin]; [|right; by right].
      rewrite Heq. destruct Hor as [->| ->]; [by left|right; by left].
Qed.

Lemma fold_max (values : list number) (m : number) :
  Num.isNaN m = false → Forall (λ v, Num.isNaN v = false) values →
  let r := fold_left Num.max values m in
  Num.isNaN r = false ∧ Num.leb m r = true
  ∧ (∀ v, v ∈ values → Num.leb v r = true)
  ∧ (r = m ∨ r ∈ values).
Proof.
  intros Hm Hvs. revert m Hm.
  induction Hvs as [|v values Hv _ IH]; intros m Hm r.
  - subst r. cbn. split; [done|]. split; [by apply NumFacts.leb_refl|].
    split; [|by left]. intros v Hin. by apply elem_of_nil in Hin.
  - destruct (max_spec m v Hm Hv) as (Hn & Hle_m & Hle_v & Hor).
    destruct (IH (Num.max m v) Hn) as (Hrn & Hrle & Hrall & Hror).
    subst r. cbn [fold_left].
    split; [done|].
    split; [by eapply NumFacts.leb_trans|].
    split.
    + intros v' [->|Hin]%elem_of_cons; [by eapply NumFacts.leb_trans|].
      by apply Hrall.
    + destruct Hror as [Heq|Hin]; [|right; by right].
      rewrite Heq. destruct Hor as [->| ->]; [by left|right; by left].
Qed.

(** A number at most one that is below [c] is not [c]; one at least one
    that is above [c] is not [c]. *)
Lemma below_not_eqb (r v c : number) :
  Num.leb r v = true → Num.ltb v c = true → Num.eqb r c = false.
Proof.
  destruct r as [x| | |], v as [y| | |], c as [z| | |]; cbn; try done.
  intros Hxy%Qle_bool_iff Hyz%negb_true_iff%NumFacts.Qle_bool_false.
  apply IdealFacts.Qeq_bool_false. intros Hxz. rewrite Hxz in Hxy.
  by apply Qle_not_lt in Hxy.
Qed.

Lemma above_not_eqb (r v c : number) :
  Num.leb v r = true → Num.ltb c v = true → Num.eqb r c = false.
Proof.
  destruct r as [x| | |], v as [y| | |], c as [z| | |]; cbn; try done.
  intros Hyx%Qle_bool_iff Hzy%negb_true_iff%NumFacts.Qle_bool_false.
  apply IdealFacts.Qeq_bool_false. intros Hxz. rewrite Hxz in Hyx.
  by apply Qle_not_lt in Hyx.
Qed.

Lemma eqb_same (c : number) : Num.isNaN c = false → Num.eqb c c = true.
Proof.
  destruct c as [z| | |]; cbn; try done. intros _. by apply Qeq_bool_iff.
Qed.

End ExtremumFacts.

(** The text of the minimum: it is governed by the least of
    [Number.MAX_VALUE] and the values of the series. *)
Lemma minText_values `{Engine} (data : list Sample) :
  ∃ m, (m = Num.MAX_VALUE ∨ m ∈ validValues data)
       ∧ Num.leb m Num.MAX_VALUE = true
       ∧ (∀ v, v ∈ validValues data → Num.leb m v = true)
       ∧ minText data
         = "Minimalna wartość: "
           +:+ (if Num.eqb m Num.MAX_VALUE then "Brak" else toFixed 2 m)
           +:+ " µg/m³".
Proof.
  destruct (ExtremumFacts.fold_min (validValues data) Num.MAX_VALUE eq_refl
              (validValues_not_NaN data)) as (_ & Hstart & Hle & Hin).
  exists (fold_left Num.min (validValues data) Num.MAX_VALUE).
  split; [done|]. split; [done|]. split; [done|].
  unfold minText. rewrite minStep_fold.
  by destruct (Num.eqb _ Num.MAX_VALUE).
Qed.

Lemma maxText_values `{Engine} (data : list Sample) :
  ∃ m, (m = Num.neg Num.MAX_VALUE ∨ m ∈ validValues data)
       ∧ Num.leb (Num.neg Num.MAX_VALUE) m = true
       ∧ (∀ v, v ∈ validValues data → Num.leb v m = true)
       ∧ maxText data
         = "Maksymalna wartość: "
           +:+ (if Num.eqb m (Num.neg Num.MAX_VALUE) then "Brak"
                else toFixed 2 m)
           +:+ " µg/m³".
Proof.
  destruct (ExtremumFacts.fold_max (validValues data)
              (Num.neg Num.MAX_VALUE) eq_refl
              (validValues_not_NaN data)) as (_ & Hstart & Hle & Hin).
  exists (fold_left Num.max (validValues data) (Num.neg Num.MAX_VALUE)).
  split; [done|]. split; [done|]. split; [done|].
  unfold maxText. rewrite maxStep_fold.
  by destruct (Num.eqb _ (Num.neg Num.MAX_VALUE)).
Qed.

(** C6, in every arithmetic and with every engine: the mean, the minimum
    and the maximum of a series are computed over its samples that have a
    value (a number, not NaN), and over no others.  The text of the mean
    shows the sum of these values, added in order to zero, over their
    number, and the word for no data when there is none.  The text of the
    minimum is governed by the least of [Number.MAX_VALUE] and these
    values: it shows the word for no data when that is
    [Number.MAX_VALUE], as it is when no sample has a value, and the
    least value otherwise, as it does as soon as one value is below
    [Number.MAX_VALUE]; likewise the text of the maximum, with
    [-Number.MAX_VALUE] and the greatest value.  The four bindings show,
    for the chosen sensor, the texts of its series: the latest value is
    that of the first sample, the word for no data when it is null.  A
    sensor without a series, or with an empty one, shows the words for no
    data in all four texts, and no choice shows four empty texts.  The
    numbers are formatted by [toFixed(2)]: where it gives the decimal
    form below 10^21, a finite number below 10^21 has two digits after
    the point, and in the scenario the minimum reads 10.00, the maximum
    20.00 and the latest value is the word for no data. *)
Theorem statistics_of_valid_samples `{Arithmetic} `{Engine}
    (data : list Sample) :
  let values := validValues data in
  (∀ v, v ∈ values
        ↔ ∃ sample, sample ∈ data ∧ value sample = VDouble v
                    ∧ Num.isNaN v = false)
  ∧ meanText data
    = "Średnia wartość: "
      +:+ (if (0 <? length values)%nat
           then toFixed 2 (total values / Num.of_nat (length values))%num
           else "Brak")
      +:+ " µg/m³"
  ∧ (∃ m, (m = Num.MAX_VALUE ∨ m ∈ values)
          ∧ Num.leb m Num.MAX_VALUE = true
          ∧ (∀ v, v ∈ values → Num.leb m v = true)
          ∧ minText data
            = "Minimalna wartość: "
              +:+ (if Num.eqb m Num.MAX_VALUE then "Brak" else toFixed 2 m)
              +:+ " µg/m³")
  ∧ (∃ m, (m = Num.neg Num.MAX_VALUE ∨ m ∈ values)
          ∧ Num.leb (Num.neg Num.MAX_VALUE) m = true
          ∧ (∀ v, v ∈ values → Num.leb v m = true)
          ∧ maxText data
            = "Maksymalna wartość: "
              +:+ (if Num.eqb m (Num.neg Num.MAX_VALUE) then "Brak"
                   else toFixed 2 m)
              +:+ " µg/m³")
  ∧ (values = [] →
     meanText data = "Średnia wartość: Brak µg/m³"
     ∧ minText data = "Minimalna wartość: Brak µg/m³"
     ∧ maxText data = "Maksymalna wartość: Brak µg/m³")
  ∧ ((∃ v, v ∈ values ∧ Num.ltb v Num.MAX_VALUE = true) →
     ∃ m, m ∈ values ∧ (∀ v, v ∈ values → Num.leb m v = true)
          ∧ minText data
            = "Minimalna wartość: " +:+ toFixed 2 m +:+ " µg/m³")
  ∧ ((∃ v, v ∈ values ∧ Num.ltb (Num.neg Num.MAX_VALUE) v = true) →
     ∃ m, m ∈ values ∧ (∀ v, v ∈ values → Num.leb v m = true)
          ∧ maxText data
            = "Maksymalna wartość: " +:+ toFixed 2 m +:+ " µg/m³")
  ∧ (∀ (currentIndex : Z) (w : MainWindow) (sensor : Sensor)
       (latest : Sample) (older : list Sample),
       (0 <= currentIndex)%Z →
       m_sensors w !! Z.to_nat currentIndex = Some sensor →
       dataOf (m_sensorData w) (propertyKey (sensorId sensor)) = Some data →
       data = latest :: older →
       latestValueText currentIndex w
       = Return ("Aktualny odczyt: "
                 +:+ match value latest with
                     | VNull => "Brak"
                     | VDouble d => toFixed 2 d
                     end
                 +:+ " µg/m³ (" +:+ date latest +:+ ")")
       ∧ meanValueText currentIndex w = Return (meanText data)
       ∧ minValueText currentIndex w = Return (minText data)
       ∧ maxValueText currentIndex w = Return (maxText data))
  ∧ (∀ (currentIndex : Z) (w : MainWindow) (sensor : Sensor),
       (0 <= currentIndex)%Z →
       m_sensors w !! Z.to_nat currentIndex = Some sensor →
       dataOf (m_sensorData w) (propertyKey (sensorId sensor)) = None
       ∨ dataOf (m_sensorData w) (propertyKey (sensorId sensor)) = Some [] →
       latestValueText currentIndex w = Return "Brak danych"
       ∧ meanValueText currentIndex w = Return "Średnia wartość: Brak danych"
       ∧ minValueText currentIndex w
         = Return "Minimalna wartość: Brak danych"
       ∧ maxValueText currentIndex w
         = Return "Maksymalna wartość: Brak danych")
  ∧ (∀ (currentIndex : Z) (w : MainWindow),
       (currentIndex < 0)%Z →
       latestValueText currentIndex w = Return ""
       ∧ meanValueText currentIndex w = Return ""
       ∧ minValueText currentIndex w = Return ""
       ∧ maxValueText currentIndex w = Return "")
  ∧ (decimalBelow1e21 →
     (∀ q : Q, (Qabs q < inject_Z (10 ^ 21))%Q →
        ∃ a b, toFixed 2 (Finite q) = a +:+ "." +:+ b
               ∧ String.length b = 2%nat)
     ∧ minValueText 0 scenarioWindow
       = Return "Minimalna wartość: 10.00 µg/m³"
     ∧ maxValueText 0 scenarioWindow
       = Return "Maksymalna wartość: 20.00 µg/m³"
     ∧ latestValueText 0 scenarioWindow
       = Return "Aktualny odczyt: Brak µg/m³ (2025-01-01 02:00:00)").
Proof.
  intros values.
  destruct (minText_values data) as (lo & Hlo_in & Hlo_start & Hlo_le & Hlo).
  destruct (maxText_values data) as (hi & Hhi_in & Hhi_start & Hhi_le & Hhi).
  fold values in Hlo_in, Hlo_le, Hhi_in, Hhi_le.
  split; [intros v; apply elem_of_validValues|].
  split; [apply meanText_values|].
  split; [by exists lo|]. split; [by exists hi|].
  split.
  { intros Hnone. rewrite meanText_values. fold values. rewrite Hnone.
    split; [done|].
    unfold minText, maxText. rewrite minStep_fold, maxStep_fold.
    fold values. rewrite Hnone. cbn [fold_left].
    rewrite !ExtremumFacts.eqb_same by done. done. }
  split.
  { intros (v & Hv & Hbelow).
    assert (Hne : Num.eqb lo Num.MAX_VALUE = false)
      by (eapply ExtremumFacts.below_not_eqb; [by apply Hlo_le|done]).
    exists lo. rewrite Hne in Hlo. split; [|done].
    destruct Hlo_in as [->|Hin]; [|done].
    by rewrite ExtremumFacts.eqb_same in Hne. }
  split.
  { intros (v & Hv & Habove).
    assert (Hne : Num.eqb hi (Num.neg Num.MAX_VALUE) = false)
      by (eapply ExtremumFacts.above_not_eqb; [by apply Hhi_le|done]).
    exists hi. rewrite Hne in Hhi. split; [|done].
    destruct Hhi_in as [->|Hin]; [|done].
    by rewrite ExtremumFacts.eqb_same in Hne. }
  split.
  { intros currentIndex w sensor latest older Hidx Hsensor Hdata Hcons.
    unfold latestValueText, meanValueText, minValueText, maxValueText,
      statText.
    destruct (Z.ltb_spec currentIndex 0) as [Hneg|_]; [lia|].
    rewrite Hsensor, Hdata, Hcons. done. }
  split.
  { intros currentIndex w sensor Hidx Hsensor Hdata.
    unfold latestValueText, meanValueText, minValueText, maxValueText,
      statText.
    destruct (Z.ltb_spec currentIndex 0) as [Hneg|_]; [lia|].
    rewrite Hsensor. by destruct Hdata as [-> | ->]. }
  split.
  { intros currentIndex w Hneg.
    unfold latestValueText, meanValueText, minValueText, maxValueText,
      statText.
    by destruct (Z.ltb_spec currentIndex 0) as [_|Hidx]; [|lia]. }
  intros Hdecimal. split.
  { intros q Hq. rewrite (Hdecimal 2%nat q); [|lia|done].
    destruct (FormatFacts.toFixed_shape 2 q) as (a & b & Hab & Hb & _);
      [done|].
    by exists a, b. }
  assert (Hmin : minValueText 0 scenarioWindow
            = Return ("Minimalna wartość: " +:+ toFixed 2 (Finite 10)
                      +:+ " µg/m³")) by (vm_compute; reflexivity).
  assert (Hmax : maxValueText 0 scenarioWindow
            = Return ("Maksymalna wartość: " +:+ toFixed 2 (Finite 20)
                      +:+ " µg/m³")) by (vm_compute; reflexivity).
  rewrite Hmin, Hmax, !Hdecimal; [|lia|done|lia|done].
  split; [reflexivity|]. split; reflexivity.
Qed.

(** ** The statements on concrete data *)

(** C2 fails for the sensor list: a failed load empties the list of
    sensors and leaves the status as it was. *)
Lemma failed_sensor_load_clears_list :
  onSensorsReply (ReplyError "Host not found") catalogueWindow
  = (set_sensors [] catalogueWindow, [sensorsChanged])
  ∧ m_sensors catalogueWindow = [ {| paramName := "PM10"; sensorId := 3 |} ]
  ∧ m_sensors (fst (onSensorsReply (ReplyError "Host not found")
                                   catalogueWindow)) = []
  ∧ m_status (fst (onSensorsReply (ReplyError "Host not found")
                                  catalogueWindow))
    = m_status catalogueWindow.
Proof. repeat split. Qed.

(** C1 fails: the reading at index 0 and the reading at index 2 are
    joined by a segment across the missing value at index 1. *)
Lemma gap_is_bridged :
  let w := Num.of_Z 100 in
  let h := Num.of_Z 100 in
  let gmin := Num.of_Z 10 in
  let gmax := Num.of_Z 20 in
  map value gapSeries
  = [VDouble (Num.of_Z 10); VNull; VDouble (Num.of_Z 20)]
  ∧ segments (plotOne w h gmin gmax "#4CAF50" gapSeries)
    = [(pointOf w h gmin gmax 3 (0%nat, Num.of_Z 10),
        pointOf w h gmin gmax 3 (2%nat, Num.of_Z 20))]
  ∧ pointOf w h gmin gmax 3 (0%nat, Num.of_Z 10)
    = (Num.of_Z 0, Num.of_Z 100)
  ∧ pointOf w h gmin gmax 3 (2%nat, Num.of_Z 20)
    = (Num.of_Z 100, Num.of_Z 0).
Proof. repeat split. Qed.

(** C5 fails: A is ticked first, yet the keys come as 10, 20 and the
    time axis is that of B, with five points. *)
Lemma time_axis_follows_lowest_id :
  let selectedSensorIds := Object_keys (fst selectionAB) in
  let scan := scanSensors (m_sensorData (snd selectionAB)) 0
                          selectedSensorIds scanStart in
  fst selectionAB = ticked [sensorA; sensorB]
  ∧ selectedSensorIds = ["10"; "20"]
  ∧ timePoints scan = map date seriesB
  ∧ length (timePoints scan) = 5%nat
  ∧ length seriesA = 3%nat.
Proof. repeat split. Qed.

(** C7 fails: the labels of the value axis have one digit after the
    point. *)
Lemma value_labels_one_decimal :
  texts (onPaint (Num.of_Z 600) (Num.of_Z 400)
                 (m_sensorData scenarioWindow)
                 (ticked (m_sensors scenarioWindow)))
  = ["10.0"; "12.0"; "14.0"; "16.0"; "18.0"; "20.0"]
  ∧ Num.toFixed 2 (tickValue (Num.of_Z 10) (Num.of_Z 20) 0) = "10.00".
Proof. split; vm_compute; reflexivity. Qed.

(** C8 fails: for a series of one sample the horizontal position is
    NaN, not 0. *)
Lemma single_sample_position_NaN :
  let w := Num.of_Z 600 in
  let h := Num.of_Z 400 in
  xOf w 1 0 = NaN
  ∧ Num.eqb (xOf w 1 0) Num.zero = false
  ∧ vertices (plotOne w h (Num.of_Z 4) (Num.of_Z 6) "#4CAF50"
                [ {| date := "2025-01-01 00:00:00";
                     value := VDouble (Num.of_Z 5) |} ])
    = [(NaN, Num.of_Z 200)].
Proof. repeat split. Qed.

(** *** The model at work *)

(** Rounding to two digits: ties go up, the sign is kept. *)
Example toFixed_examples :
  Num.toFixed 2 (Finite 5) = "5.00"
  ∧ Num.toFixed 2 (Finite (1 # 8)) = "0.13"
  ∧ Num.toFixed 2 (Finite (- 314159 # 100000)) = "-3.14"
  ∧ Num.toFixed 1 (Finite (1975 # 100)) = "19.8"
  ∧ Num.toFixed 2 NaN = "NaN".
Proof. repeat split. Qed.

(** A search for a city that has a station: the station is listed and
    flagged, the earlier flag is cleared and the map is centred on the
    geocoded point. *)
Example search_with_match :
  let reply := ReplyFinished [ {| geo_lat := Finite (5223 # 100);
                                  geo_lon := Finite (2101 # 100) |} ] in
  let '(w', emitted) :=
    @onGeocodeReply planarQt reply "Warszawa" catalogueWindow in
  m_stations w' = [setIsSearched true warszawa]
  ∧ m_allStations w' = [setIsSearched true warszawa;
                        setIsSearched false krakow]
  ∧ m_status w' = "Znaleziono 1 stacji w Warszawa."
  ∧ m_mapCenter w' = mkQGeoCoordinate (Finite (5223 # 100))
                                      (Finite (2101 # 100))
  ∧ emitted = [mapCenterChanged; allStationsChanged; stationsChanged;
               statusChanged].
Proof. repeat split. Qed.

(** A search for a city without a station falls back on the closest
    one. *)
Example search_without_match :
  let '(w', emitted) :=
    @onGeocodeReply planarQt (ReplyFinished [gdansk]) "Gdansk"
                    catalogueWindow in
  m_stations w' = [setIsSearched true warszawa]
  ∧ m_allStations w' = [setIsSearched true warszawa;
                        setIsSearched false krakow]
  ∧ m_status w' = "Nie znaleziono stacji w Gdansk. "
                  +:+ "Najbliższa stacja znajduje się w Warszawa."
  ∧ m_mapCenter w' = mkQGeoCoordinate (lat warszawa) (lon warszawa)
  ∧ emitted = [mapCenterChanged; allStationsChanged; mapCenterChanged;
               stationsChanged; statusChanged].
Proof. repeat split. Qed.

(** A fetch that succeeds and a later one that fails, for sensor 7. *)
Example fetch_then_failure :
  let fetched := fst (onSensorDataReply (ReplyFinished seriesA) 7
                                        scenarioWindow) in
  let failed := fst (onSensorDataReply (ReplyError "Timeout") 7 fetched) in
  m_sensorData fetched !! "7" = Some (QList seriesA)
  ∧ m_sensorData fetched !! "3" = Some (QList scenarioSeries)
  ∧ m_sensorData failed !! "7" = None
  ∧ m_sensorData failed !! "3" = Some (QList scenarioSeries).
Proof. repeat split. Qed.

(** Saving a station of the catalogue writes one file, named after the
    station and the time. *)
Example save_known_station :
  let '(w', fs', emitted) :=
    saveStationData saveEnv 1 "Warszawa" "Marszałkowska 1" ∅
                    catalogueWindow in
  m_status w' = "Dane zapisano do pliku: station_1_20250422_101500.json"
  ∧ size fs' = 1%nat
  ∧ is_Some (fs' !! "station_1_20250422_101500.json")
  ∧ emitted = [statusChanged].
Proof. vm_compute. repeat split. by eexists. Qed.

(** The four texts of the scenario. *)
Example scenario_texts :
  latestValueText 0 scenarioWindow
  = Return "Aktualny odczyt: Brak µg/m³ (2025-01-01 02:00:00)"
  ∧ meanValueText 0 scenarioWindow = Return "Średnia wartość: 15.00 µg/m³"
  ∧ minValueText 0 scenarioWindow = Return "Minimalna wartość: 10.00 µg/m³"
  ∧ maxValueText 0 scenarioWindow = Return "Maksymalna wartość: 20.00 µg/m³"
  ∧ minValueText (-1) scenarioWindow = Return ""
  ∧ minValueText 1 scenarioWindow = TypeError.
Proof. repeat split. Qed.

(** *** The arithmetic of the machine at work *)

(** The mean of 0.125, 0.125, 0.125, 0 and 0: the quotient of 0.375 and
    5 is rounded to the binary64 number just below 0.075 and reads 0.07;
    without rounding it is 0.075 and reads 0.08. *)
Example mean_is_rounded :
  @meanText binary64 decimalForm eighths = "Średnia wartość: 0.07 µg/m³"
  ∧ @meanText idealArithmetic decimalForm eighths
    = "Średnia wartość: 0.08 µg/m³".
Proof. split; by vm_compute. Qed.

(** Two readings of 10^16: one less and one more are 10^16 again, the
    bounds of the range stay equal, and every vertical position is the
    product of 0/0. *)
Example widening_is_absorbed :
  let scan := scanSensors (storeOf absorbedSeries) 0 (Object_keys sensor3)
                          scanStart in
  @chartRange binary64 scan = (Num.of_Z (10 ^ 16), Num.of_Z (10 ^ 16))
  ∧ vertices (@plotOne binary64 (Finite 600) (Finite 400)
                       (Num.of_Z (10 ^ 16)) (Num.of_Z (10 ^ 16)) "#4CAF50"
                       absorbedSeries)
    = [(Finite 0, NaN); (Finite 600, NaN)].
Proof. split; by vm_compute. Qed.

(** Readings of 1e308 and -1e308: the extent of the range overflows, the
    first point has no vertical position, its [moveTo] is ignored, and
    the [lineTo] to the second point draws nothing. *)
Example overflow_draws_nothing :
  let scan := scanSensors (storeOf overflowSeries) 0 (Object_keys sensor3)
                          scanStart in
  let gmin := fst (@chartRange binary64 scan) in
  let gmax := snd (@chartRange binary64 scan) in
  let ops := @plotOne binary64 (Finite 600) (Finite 400) gmin gmax "#4CAF50"
                      overflowSeries in
  @fsub binary64 gmax gmin = PosInf
  ∧ vertices ops = [(Finite 0, NaN); (Finite 600, Finite 400)]
  ∧ segments ops = [].
Proof. repeat split; by vm_compute. Qed.

(** No value at all: the range is still the one the scan began with,
    its extent overflows, the lowest tick is NaN and has no label, and the
    other five read -Infinity. *)
Example labels_without_a_value :
  texts (@onPaint binary64 decimalForm (Finite 600) (Finite 400)
                  (storeOf missingSeries) sensor3)
  = ["-Infinity"; "-Infinity"; "-Infinity"; "-Infinity"; "-Infinity"].
Proof. by vm_compute. Qed.

(** The chart of the scenario reads the same in the arithmetic of the
    machine. *)
Example scenario_labels_rounded :
  texts (@onPaint binary64 decimalForm (Finite 600) (Finite 400)
                  (m_sensorData scenarioWindow)
                  (ticked (m_sensors scenarioWindow)))
  = ["10.0"; "12.0"; "14.0"; "16.0"; "18.0"; "20.0"].
Proof. by vm_compute. Qed.

(** *** The hypotheses of the theorems hold on the data of the examples *)

(** Saving station 7, which the catalogue of the example does not
    list. *)
Lemma saveStationData_unknown_station_witness :
  (∀ s, s ∈ m_allStations catalogueWindow → stationId s ≠ 7%Z)
  ∧ let '(w', fs', emitted) :=
      saveStationData saveEnv 7 "Gdansk" "Długa 1" ∅ catalogueWindow in
    fs' = ∅
    ∧ m_status w' = "Błąd: Stacja o ID " +:+ QString_number 7
                    +:+ " nie znaleziona."
    ∧ m_sensors w' = m_sensors catalogueWindow
    ∧ m_sensorData w' = m_sensorData catalogueWindow
    ∧ m_stations w' = m_stations catalogueWindow
    ∧ m_allStations w' = m_allStations catalogueWindow
    ∧ m_mapCenter w' = m_mapCenter catalogueWindow
    ∧ emitted = [statusChanged].
Proof.
  assert (Hall : ∀ s, s ∈ m_allStations catalogueWindow → stationId s ≠ 7%Z).
  { apply Forall_forall. repeat constructor; discriminate. }
  split; [exact Hall|].
  exact (saveStationData_unknown_station saveEnv 7 "Gdansk" "Długa 1" ∅
           catalogueWindow Hall).
Defined.

(** A search for a city without a station, on the catalogue of the
    example. *)
Lemma onGeocodeReply_nearest_fallback_witness :
  let cityCoord := mkQGeoCoordinate (geo_lat gdansk) (geo_lon gdansk) in
  let w' := fst (@onGeocodeReply planarQt (ReplyFinished [gdansk]) "Gdansk"
                                 catalogueWindow) in
  m_allStations catalogueWindow ≠ []
  ∧ (∀ s, s ∈ m_allStations catalogueWindow →
       @simplified planarQt (@toLower planarQt (cityName s))
       ≠ @simplified planarQt (@toLower planarQt "Gdansk"))
  ∧ (∀ s, s ∈ m_allStations catalogueWindow →
       Num.ltb (@distanceFrom planarQt cityCoord s) Num.MAX_VALUE = true)
  ∧ ∃ closest,
      closest ∈ m_allStations catalogueWindow
      ∧ m_stations w' = [setIsSearched true closest]
      ∧ (∀ s, s ∈ m_allStations catalogueWindow →
           Num.leb (@distanceFrom planarQt cityCoord closest)
                   (@distanceFrom planarQt cityCoord s) = true)
      ∧ m_allStations w'
        = map (λ s, setIsSearched (stationId s =? stationId closest)%Z s)
              (m_allStations catalogueWindow)
      ∧ m_mapCenter w'
        = mkQGeoCoordinate (lat closest) (lon closest).
Proof.
  intros cityCoord w'.
  assert (Hne : m_allStations catalogueWindow ≠ []) by discriminate.
  assert (Hcity : ∀ s, s ∈ m_allStations catalogueWindow →
            @simplified planarQt (@toLower planarQt (cityName s))
            ≠ @simplified planarQt (@toLower planarQt "Gdansk")).
  { apply Forall_forall. repeat constructor; discriminate. }
  assert (Hfar : ∀ s, s ∈ m_allStations catalogueWindow →
            Num.ltb (@distanceFrom planarQt cityCoord s) Num.MAX_VALUE
            = true).
  { apply Forall_forall. repeat constructor; reflexivity. }
  split; [exact Hne|]. split; [exact Hcity|]. split; [exact Hfar|].
  exact (@onGeocodeReply_nearest_fallback planarQt gdansk [] "Gdansk"
           catalogueWindow Hne Hcity Hfar).
Defined.

(** The series with one missing value between two readings, in the
    arithmetic of the machine. *)
Lemma plotOne_joins_valued_samples_witness :
  let point := @pointOf binary64 (Finite 600) (Finite 400) (Finite 10)
                        (Finite 20) (length gapSeries) in
  let ops := @plotOne binary64 (Finite 600) (Finite 400) (Finite 10)
                      (Finite 20) "#4CAF50" gapSeries in
  value reading10 = VDouble (Num.of_Z 10)
  ∧ Num.isNaN (Num.of_Z 10) = false
  ∧ value reading20 = VDouble (Num.of_Z 20)
  ∧ Num.isNaN (Num.of_Z 20) = false
  ∧ Forall (λ s, isValue (value s) = false) [missing]
  ∧ finitePoint (fst (point (0%nat, Num.of_Z 10)))
                (snd (point (0%nat, Num.of_Z 10))) = true
  ∧ finitePoint (fst (point (2%nat, Num.of_Z 20)))
                (snd (point (2%nat, Num.of_Z 20))) = true
  ∧ (∀ j v, (0 < j < 2)%nat → (j, v) ∉ valued gapSeries)
  ∧ vertices ops = map point (valued gapSeries)
  ∧ (point (0%nat, Num.of_Z 10), point (2%nat, Num.of_Z 20)) ∈ segments ops.
Proof.
  intros point ops.
  assert (Hgap : Forall (λ s, isValue (value s) = false) [missing])
    by (repeat constructor).
  assert (Hbefore : finitePoint (fst (point (0%nat, Num.of_Z 10)))
                                (snd (point (0%nat, Num.of_Z 10))) = true)
    by by vm_compute.
  assert (Hafter : finitePoint (fst (point (2%nat, Num.of_Z 20)))
                               (snd (point (2%nat, Num.of_Z 20))) = true)
    by by vm_compute.
  destruct (@plotOne_joins_valued_samples binary64
              (Finite 600) (Finite 400) (Finite 10) (Finite 20) "#4CAF50"
              [] [missing] [] reading10 reading20 (Num.of_Z 10) (Num.of_Z 20)
              eq_refl eq_refl eq_refl eq_refl Hgap)
    as (Hnone & _ & Hvertices & _ & Hjoined & _).
  split; [reflexivity|]. split; [reflexivity|].
  split; [reflexivity|]. split; [reflexivity|]. split; [exact Hgap|].
  split; [exact Hbefore|]. split; [exact Hafter|].
  split; [exact Hnone|]. split; [exact Hvertices|].
  exact (Hjoined Hbefore Hafter).
Defined.

(** A canvas of 600 by 400 and the range from 10 to 20, in the
    arithmetic of the machine. *)
Lemma sample_positions_witness :
  @ExactCases binary64
  ∧ @xOf binary64 (Finite 600) 1 0 = NaN
  ∧ @xOf binary64 (Finite 600) 3 0 ≡ₙ Num.zero
  ∧ @xOf binary64 (Finite 600) 3 2 ≡ₙ Finite 600
  ∧ @yOf binary64 (Finite 400) (Finite 10) (Finite 20) (Finite 10)
    ≡ₙ Finite 400
  ∧ @yOf binary64 (Finite 400) (Finite 10) (Finite 20) (Finite 20)
    ≡ₙ Num.zero.
Proof.
  destruct (proj2 (@sample_positions binary64 (Finite 600) (Finite 400)
                     (Finite 10) (Finite 20))
              Binary64Facts.binary64_exact_cases)
    as (Hsingle & _ & Hx & Hy).
  destruct (Hx 3%nat) as [Hfirst Hlast]; [lia|by vm_compute|].
  destruct Hy as [Hlow Hhigh];
    [by vm_compute|reflexivity|by vm_compute|by vm_compute|].
  split; [exact Binary64Facts.binary64_exact_cases|]. split; [exact Hsingle|].
  split; [exact (Hfirst eq_refl)|].
  split; [apply Hlast; by vm_compute|].
  split; [exact (Hlow eq_refl)|exact Hhigh].
Defined.

(** The selection of sensor A, then sensor B. *)
Lemma time_axis_of_first_key_witness :
  let w := Num.of_Z 600 in
  let h := Num.of_Z 400 in
  let gmin := Num.of_Z 1 in
  let gmax := Num.of_Z 9 in
  let sensorData := m_sensorData (snd selectionAB) in
  let selectedSensorIds := Object_keys (ticked [sensorA; sensorB]) in
  Forall (λ s, isArrayIndex (sensorId s) = true) [sensorA; sensorB]
  ∧ (∃ ids, selectedSensorIds = map propertyKey ids
            ∧ StronglySorted Z.lt ids
            ∧ ∀ k, k ∈ ids ↔ k ∈ map sensorId [sensorA; sensorB])
  ∧ timePoints (scanSensors sensorData 0 selectedSensorIds scanStart)
    = match selectedSensorIds with
      | [] => []
      | first :: _ =>
          match dataOf sensorData first with
          | Some data => map date data
          | None => []
          end
      end
  ∧ plotSeries w h sensorData gmin gmax colors selectedSensorIds
    = flat_map (λ p, match dataOf sensorData (fst p) with
                     | Some data => plotOne w h gmin gmax (snd p) data
                     | None => []
                     end) (zip selectedSensorIds colors)
  ∧ ∀ (color : string) (data : list Sample),
      vertices (plotOne w h gmin gmax color data)
      = map (λ iv, (xOf w (length data) (fst iv), yOf h gmin gmax (snd iv)))
            (valued data).
Proof.
  intros w h gmin gmax sensorData selectedSensorIds.
  assert (Hidx : Forall (λ s, isArrayIndex (sensorId s) = true)
                        [sensorA; sensorB]) by (repeat constructor).
  split; [exact Hidx|].
  exact (time_axis_of_first_key w h gmin gmax sensorData [sensorA; sensorB]
           Hidx).
Defined.

(** The chart of the scenario, in the arithmetic of the machine and with
    the decimal form. *)
Lemma value_axis_labels_witness :
  let width := Num.of_Z 600 in
  let height := Num.of_Z 400 in
  let sensorData := m_sensorData scenarioWindow in
  let selectedSensors := ticked (m_sensors scenarioWindow) in
  let selectedSensorIds := Object_keys selectedSensors in
  let scan := scanSensors sensorData 0 selectedSensorIds scanStart in
  let gmin := fst (@chartRange binary64 scan) in
  let gmax := snd (@chartRange binary64 scan) in
  let tick := @tickValue binary64 gmin gmax in
  @ExactCases binary64 ∧ @NumberResults binary64
  ∧ @decimalBelow1e21 decimalForm
  ∧ @onPaint binary64 decimalForm width height sensorData selectedSensors
    = @plotSeries binary64 width height sensorData gmin gmax colors
                  selectedSensorIds
      ++ @valueLabels binary64 decimalForm height gmin gmax
  ∧ texts (@valueLabels binary64 decimalForm height gmin gmax)
    = map (λ i, Num.toFixed 1 (tick i)) (seq 0 6)
  ∧ tick 0%nat ≡ₙ gmin
  ∧ ∃ a b, Num.toFixed 1 (tick 1%nat) = a +:+ "." +:+ b
           ∧ String.length b = 1%nat.
Proof.
  intros width height sensorData selectedSensors selectedSensorIds scan
    gmin gmax tick.
  destruct (@value_axis_labels binary64 decimalForm width height sensorData
              selectedSensors)
    as (Hpaint & _ & Htexts & _ & _ & Hsix & _ & Hfirst & Hshape).
  rewrite (Hsix Binary64Facts.binary64_number_results) in Htexts
    by by vm_compute.
  split; [exact Binary64Facts.binary64_exact_cases|].
  split; [exact Binary64Facts.binary64_number_results|].
  split; [exact IdealFacts.ideal_decimal|].
  split; [apply Hpaint; by vm_compute|].
  split; [exact Htexts|].
  split.
  { apply (Hfirst Binary64Facts.binary64_exact_cases); by vm_compute. }
  apply (Hshape IdealFacts.ideal_decimal 1%nat 12%Q); by vm_compute.
Defined.

(** ** Further properties of the slots *)

Lemma set_sensorData_same (w : MainWindow) (m : gmap string QVariant) :
  m = m_sensorData w → set_sensorData m w = w.
Proof. intros ->. by destruct w. Qed.

Lemma set_allStations_same (w : MainWindow) (l : list Station) :
  l = m_allStations w → set_allStations l w = w.
Proof. intros ->. by destruct w. Qed.

Lemma map_fixed {A : Type} (f : A → A) (l : list A) :
  (∀ x, x ∈ l → f x = x) → map f l = l.
Proof.
  intros Hf. induction l as [|x l IH]; [done|]. cbn.
  rewrite Hf by by left. rewrite IH; [done|].
  intros y Hy. apply Hf. by right.
Qed.

(** X1: removing the data of a sensor leaves no entry under its key and
    touches no other key and no other member; when the sensor had no
    entry the window is exactly as before, and the number of entries goes
    down by one exactly when it had one. *)
Theorem removeSensorData_only_own_entry (id : Z) (w : MainWindow) :
  let w' := fst (removeSensorData id w) in
  m_sensorData w' !! QString_number id = None
  ∧ (∀ key, key ≠ QString_number id →
       m_sensorData w' !! key = m_sensorData w !! key)
  ∧ (m_sensorData w !! QString_number id = None → w' = w)
  ∧ size (m_sensorData w')
    = match m_sensorData w !! QString_number id with
      | Some _ => pred (size (m_sensorData w))
      | None => size (m_sensorData w)
      end
  ∧ m_sensors w' = m_sensors w ∧ m_status w' = m_status w
  ∧ m_stations w' = m_stations w ∧ m_allStations w' = m_allStations w
  ∧ m_mapCenter w' = m_mapCenter w.
Proof.
  intros w'. subst w'. unfold removeSensorData. window_simpl.
  split; [apply lookup_delete_eq|].
  split; [intros key Hne; apply lookup_delete_ne; congruence|].
  split; [intros Hnone; by apply set_sensorData_same, delete_id|].
  split; [|done].
  rewrite map_size_delete. by destruct (m_sensorData w !! QString_number id).
Qed.

Lemma setIsSearched_same (s : Station) : setIsSearched (isSearched s) s = s.
Proof. by destruct s. Qed.

(** X2: setting the search flag of an id keeps the catalogue's length and
    order and every other member of a station; it changes the flag of the
    stations with that id and of no other; it changes nothing when no
    station has the id; doing it twice is doing it once; and setting the
    opposite flag afterwards restores a catalogue in which the stations of
    that id had the opposite flag. *)
Theorem updateStationSearchStatus_flags (id : Z) (b : bool) (w : MainWindow) :
  let w' := fst (updateStationSearchStatus id b w) in
  length (m_allStations w') = length (m_allStations w)
  ∧ (∀ i s, m_allStations w !! i = Some s →
       m_allStations w' !! i
       = Some (setIsSearched (if (stationId s =? id)%Z then b
                              else isSearched s) s))
  ∧ ((∀ s, s ∈ m_allStations w → stationId s ≠ id) → w' = w)
  ∧ fst (updateStationSearchStatus id b w') = w'
  ∧ ((∀ s, s ∈ m_allStations w → stationId s = id → isSearched s = negb b) →
     fst (updateStationSearchStatus id (negb b) w') = w)
  ∧ m_stations w' = m_stations w ∧ m_sensors w' = m_sensors w
  ∧ m_sensorData w' = m_sensorData w ∧ m_status w' = m_status w
  ∧ m_mapCenter w' = m_mapCenter w.
Proof.
  intros w'. subst w'. unfold updateStationSearchStatus. window_simpl.
  split; [apply length_map|].
  split.
  { intros i s Hs. rewrite list_lookup_fmap, Hs. cbn.
    destruct (stationId s =? id)%Z; [done|]. by rewrite setIsSearched_same. }
  split.
  { intros Hnone. apply set_allStations_same, map_fixed. intros s Hs.
    destruct (Z.eqb_spec (stationId s) id) as [Heq|_]; [|done].
    by destruct (Hnone s Hs). }
  split.
  { change (set_allStations ?l (set_allStations ?l' w))
      with (set_allStations l w). f_equal. rewrite map_map. apply map_ext.
    intros s. destruct (Z.eqb_spec (stationId s) id) as [Heq|Hne]; cbn.
    - by rewrite Heq, Z.eqb_refl.
    - by destruct (Z.eqb_spec (stationId s) id). }
  split; [|done].
  intros Hflags.
  change (set_allStations ?l (set_allStations ?l' w))
    with (set_allStations l w).
  apply set_allStations_same. rewrite map_map. apply map_fixed. intros s Hs.
  destruct (Z.eqb_spec (stationId s) id) as [Heq|Hne]; cbn.
  - rewrite Heq, Z.eqb_refl. rewrite <- (Hflags s Hs Heq). by destruct s.
  - by destruct (Z.eqb_spec (stationId s) id).
Qed.

(** X3: a fetch that completes twice with the same answer leaves the
    window as one completion does; of two completions for the same sensor
    the later one decides the entry, whatever the earlier one was. *)
Theorem onSensorDataReply_last_wins
    (earlier later : QNetworkReply (list Sample)) (id : Z) (w : MainWindow) :
  let once := fst (onSensorDataReply later id w) in
  fst (onSensorDataReply later id once) = once
  ∧ fst (onSensorDataReply later id (fst (onSensorDataReply earlier id w)))
    = once.
Proof.
  intros once. subst once.
  destruct later as [e2|v2], earlier as [e1|v1];
    unfold onSensorDataReply, set_sensorData; cbn;
    rewrite ?delete_delete_eq, ?insert_insert_eq, ?delete_insert_eq,
      ?insert_delete_eq; done.
Qed.

(** X4: completions of fetches for two different sensors can arrive in
    either order: the window ends the same. *)
Theorem onSensorDataReply_commute
    (reply1 reply2 : QNetworkReply (list Sample)) (id1 id2 : Z)
    (w : MainWindow) :
  id1 ≠ id2 →
  fst (onSensorDataReply reply2 id2 (fst (onSensorDataReply reply1 id1 w)))
  = fst (onSensorDataReply reply1 id1 (fst (onSensorDataReply reply2 id2 w))).
Proof.
  intros Hne.
  assert (Hkey : QString_number id1 ≠ QString_number id2).
  { intros Heq. by apply Hne, QString_number_inj. }
  destruct reply1 as [e1|v1], reply2 as [e2|v2];
    unfold onSensorDataReply, set_sensorData; cbn; f_equal.
  - apply delete_delete.
  - by rewrite delete_insert_ne.
  - symmetry. by rewrite delete_insert_ne.
  - by apply insert_insert_ne.
Qed.

Lemma onSensorDataReply_commute_witness :
  fst (onSensorDataReply (ReplyFinished seriesB) 10
         (fst (onSensorDataReply (ReplyError "timeout") 20 scenarioWindow)))
  = fst (onSensorDataReply (ReplyError "timeout") 20
           (fst (onSensorDataReply (ReplyFinished seriesB) 10
                                   scenarioWindow))).
Proof. apply (onSensorDataReply_commute _ _ 20 10). done. Defined.

(** ** Further properties of the search *)

Module OrderFacts.

Lemma ltb_trans (a b c : number) :
  Num.ltb a b = true → Num.ltb b c = true → Num.ltb a c = true.
Proof.
  destruct a as [x| | |], b as [y| | |], c as [z| | |]; simpl; try done.
  intros Hxy%negb_true_iff%NumFacts.Qle_bool_false
         Hyz%negb_true_iff%NumFacts.Qle_bool_false.
  apply negb_true_iff. destruct (Qle_bool z x) eqn:Hzx; [|done].
  apply Qle_bool_iff in Hzx. lra.
Qed.

Lemma ltb_leb_trans (a b c : number) :
  Num.ltb a b = true → Num.leb b c = true → Num.ltb a c = true.
Proof.
  destruct a as [x| | |], b as [y| | |], c as [z| | |]; simpl; try done.
  intros Hxy%negb_true_iff%NumFacts.Qle_bool_false Hyz%Qle_bool_iff.
  apply negb_true_iff. destruct (Qle_bool z x) eqn:Hzx; [|done].
  apply Qle_bool_iff in Hzx. lra.
Qed.

Lemma ltb_irrefl (a : number) : Num.ltb a a = false.
Proof.
  destruct a as [x| | |]; simpl; try done.
  apply negb_false_iff, Qle_bool_iff, Qle_refl.
Qed.

End OrderFacts.

Lemma flagIds_nil (stations : list Station) : flagIds [] stations = stations.
Proof.
  unfold flagIds. apply map_fixed. intros s _.
  rewrite bool_decide_eq_false_2; [done|]. apply not_elem_of_nil.
Qed.

Lemma flagIds_app (ids ids' : list Z) (stations : list Station) :
  flagIds ids' (flagIds ids stations) = flagIds (ids ++ ids') stations.
Proof.
  unfold flagIds. rewrite map_map. apply map_ext. intros s.
  destruct (decide (stationId s ∈ ids)) as [Hin|Hout].
  - rewrite (bool_decide_eq_true_2 (stationId s ∈ ids) Hin).
    rewrite (bool_decide_eq_true_2 (stationId s ∈ ids ++ ids'));
      [|apply elem_of_app; by left].
    by destruct (bool_decide _).
  - rewrite (bool_decide_eq_false_2 (stationId s ∈ ids) Hout).
    rewrite (bool_decide_ext (stationId s ∈ ids ++ ids')
                             (stationId s ∈ ids')); [done|].
    rewrite elem_of_app. tauto.
Qed.

Lemma flagIds_one (id : Z) (stations : list Station) :
  map (λ station, if (stationId station =? id)%Z
                  then setIsSearched true station else station) stations
  = flagIds [id] stations.
Proof.
  unfold flagIds. apply map_ext. intros s.
  destruct (Z.eqb_spec (stationId s) id) as [Heq|Hne].
  - rewrite bool_decide_eq_true_2; [done|]. by apply list_elem_of_singleton.
  - rewrite bool_decide_eq_false_2; [done|]. by rewrite list_elem_of_singleton.
Qed.

(** Where [flagIds] starts from a catalogue without flags, a station is
    flagged exactly when its id is among the ids. *)
Lemma flagIds_reset (ids : list Z) (stations : list Station) :
  flagIds ids (map (setIsSearched false) stations)
  = map (λ s, setIsSearched (bool_decide (stationId s ∈ ids)) s) stations.
Proof.
  unfold flagIds. rewrite map_map. apply map_ext. intros s.
  cbn [stationId setIsSearched]. by destruct (bool_decide _).
Qed.

Section SearchFacts.
Context `{QtLibrary}.

Lemma cityStations_cons (searchedCity : string) (s : Station)
    (stations : list Station) :
  cityStations searchedCity (s :: stations)
  = if cityMatches searchedCity s
    then s :: cityStations searchedCity stations
    else cityStations searchedCity stations.
Proof.
  unfold cityStations. rewrite filter_cons.
  destruct (cityMatches searchedCity s); by destruct (decide _).
Qed.

Lemma cityStations_reset (searchedCity : string) (stations : list Station) :
  cityStations searchedCity (map (setIsSearched false) stations)
  = map (setIsSearched false) (cityStations searchedCity stations).
Proof.
  induction stations as [|s stations IH]; [done|].
  cbn [map]. rewrite !cityStations_cons.
  change (cityMatches searchedCity (setIsSearched false s))
    with (cityMatches searchedCity s).
  destruct (cityMatches searchedCity s); cbn [map]; by rewrite IH.
Qed.

(** The loop over the catalogue: the stations of the searched city are
    appended to the list, in order, and their ids flagged. *)
Lemma matchCity_fold (searchedCity : string) (stations : list Station)
    (w : MainWindow) (emitted : list Signal) :
  let found := cityStations searchedCity stations in
  fold_left (matchCity (simplified (toLower searchedCity))) stations
            (w, emitted)
  = (set_allStations (flagIds (map stationId found) (m_allStations w))
       (set_stations (m_stations w ++ map searchedCopy found) w),
     emitted ++ repeat allStationsChanged (length found)).
Proof.
  cbn zeta. revert w emitted.
  induction stations as [|s stations IH]; intros w emitted.
  - cbn. rewrite flagIds_nil, !app_nil_r. by destruct w.
  - cbn [fold_left]. rewrite cityStations_cons. unfold matchCity at 2.
    unfold cityMatches.
    destruct (String.eqb (simplified (toLower (cityName s)))
                         (simplified (toLower searchedCity))); [|apply IH].
    unfold updateStationSearchStatus. rewrite IH. window_simpl.
    rewrite flagIds_one, flagIds_app. cbn [map length repeat].
    rewrite <- !app_assoc. done.
Qed.

Lemma closer_elem (cityCoord : QGeoCoordinate) (stations : list Station)
    (acc : option Station * number) (c : Station) :
  fst (fold_left (closer cityCoord) stations acc) = Some c →
  c ∈ stations ∨ fst acc = Some c.
Proof.
  revert acc. induction stations as [|s stations IH]; intros acc Hc.
  - by right.
  - cbn [fold_left] in Hc. apply IH in Hc as [Hc|Hc].
    + left. by right.
    + unfold closer in Hc. destruct acc as [closest minDistance].
      destruct (Num.ltb _ _); cbn in Hc.
      * left. injection Hc as ->. by left.
      * by right.
Qed.

End SearchFacts.

Section SearchAnswers.
Context `{QtLibrary}.

(** The window after an answer of the geocoder, by the three ways the
    search can end. *)
Lemma onGeocodeReply_answer (result : GeocodeResult)
    (more : list GeocodeResult) (searchedCity : string) (w : MainWindow) :
  let found := cityStations searchedCity (m_allStations w) in
  let reset := map (setIsSearched false) (m_allStations w) in
  let cityCoord := mkQGeoCoordinate (geo_lat result) (geo_lon result) in
  fst (onGeocodeReply (ReplyFinished (result :: more)) searchedCity w)
  = match found with
    | _ :: _ =>
        set_status ("Znaleziono "
                    +:+ QString_number (Z.of_nat (length found))
                    +:+ " stacji w " +:+ searchedCity +:+ ".")
          (set_allStations (flagIds (map stationId found) reset)
             (set_stations (map (setIsSearched true) found)
                (set_mapCenter cityCoord w)))
    | [] =>
        match fst (findClosest cityCoord reset) with
        | Some closest =>
            set_status ("Nie znaleziono stacji w " +:+ searchedCity
                        +:+ ". Najbliższa stacja znajduje się w "
                        +:+ cityName closest +:+ ".")
              (set_mapCenter (mkQGeoCoordinate (lat closest) (lon closest))
                 (set_allStations (flagIds [stationId closest] reset)
                    (set_stations [setIsSearched true closest] w)))
        | None =>
            set_status ("Nie znaleziono stacji w " +:+ searchedCity +:+ ".")
              (set_allStations reset
                 (set_stations [] (set_mapCenter cityCoord w)))
        end
    end.
Proof.
  cbn zeta. unfold onGeocodeReply. window_simpl.
  rewrite matchCity_fold. window_simpl. rewrite cityStations_reset.
  destruct (cityStations searchedCity (m_allStations w)) as [|s found].
  - cbn [map app]. rewrite flagIds_nil.
    destruct (fst (findClosest _ _)) as [closest|]; [|done].
    unfold updateStationSearchStatus. window_simpl.
    by rewrite flagIds_one.
  - cbn [map app length]. window_simpl. rewrite !length_map.
    rewrite !map_map. reflexivity.
Qed.

(** However the search ends, the list holds flagged copies of stations
    of the catalogue, and the catalogue is flagged at their ids and
    nowhere else. *)
Lemma onGeocodeReply_found (result : GeocodeResult)
    (more : list GeocodeResult) (searchedCity : string) (w : MainWindow) :
  let w' := fst (onGeocodeReply (ReplyFinished (result :: more))
                                searchedCity w) in
  ∃ found,
    (∀ s, s ∈ found → s ∈ m_allStations w)
    ∧ m_stations w' = map (setIsSearched true) found
    ∧ m_allStations w'
      = map (λ s, setIsSearched
                    (bool_decide (stationId s ∈ map stationId found)) s)
            (m_allStations w)
    ∧ m_sensors w' = m_sensors w ∧ m_sensorData w' = m_sensorData w.
Proof.
  intros w'. subst w'. rewrite onGeocodeReply_answer.
  destruct (cityStations searchedCity (m_allStations w))
    as [|s found] eqn:Hfound.
  - destruct (fst (findClosest _ _)) as [closest|] eqn:Hclosest.
    + apply closer_elem in Hclosest as [Hin|Hnone]; [|done].
      apply list_elem_of_fmap in Hin as (c & -> & Hc).
      exists [c]. window_simpl.
      split; [by intros s ->%list_elem_of_singleton|].
      split; [done|]. split; [|done]. apply flagIds_reset.
    + exists []. window_simpl. split; [by intros s ?%elem_of_nil|].
      split; [done|]. split; [|done].
      by rewrite <- (flagIds_reset []), flagIds_nil.
  - exists (s :: found). window_simpl.
    split.
    { intros s' Hs'. rewrite <- Hfound in Hs'.
      by apply list_elem_of_filter in Hs' as [_ ?]. }
    split; [done|]. split; [|done]. apply flagIds_reset.
Qed.

(** X5: when the geocoder answers and the catalogue has stations in the
    searched city, the search lists exactly these stations, in the order
    of the catalogue and flagged; in the catalogue a station is flagged
    exactly when it has the id of one of them; the map is centred on the
    geocoded point and not on a station; the status counts the stations
    found; the sensors and the store are as before; and the catalogue is
    announced as changed once for every station found. *)
Theorem onGeocodeReply_city_match (result : GeocodeResult)
    (more : list GeocodeResult) (searchedCity : string) (w : MainWindow) :
  let found := cityStations searchedCity (m_allStations w) in
  let answer :=
    onGeocodeReply (ReplyFinished (result :: more)) searchedCity w in
  found ≠ [] →
  m_stations (fst answer) = map (setIsSearched true) found
  ∧ m_allStations (fst answer)
    = map (λ s, setIsSearched
                  (bool_decide (stationId s ∈ map stationId found)) s)
          (m_allStations w)
  ∧ m_mapCenter (fst answer)
    = mkQGeoCoordinate (geo_lat result) (geo_lon result)
  ∧ m_status (fst answer)
    = "Znaleziono " +:+ QString_number (Z.of_nat (length found))
      +:+ " stacji w " +:+ searchedCity +:+ "."
  ∧ m_sensors (fst answer) = m_sensors w
  ∧ m_sensorData (fst answer) = m_sensorData w
  ∧ snd answer
    = [mapCenterChanged] ++ repeat allStationsChanged (length found)
      ++ [stationsChanged; statusChanged].
Proof.
  intros found answer Hfound. split; [|split; [|split; [|split; [|split;
    [|split]]]]]; subst answer.
  1-6: rewrite onGeocodeReply_answer; fold found;
    destruct found as [|s found']; [done|]; window_simpl; try done.
  - apply flagIds_reset.
  - unfold onGeocodeReply. window_simpl. rewrite matchCity_fold.
    window_simpl. rewrite cityStations_reset. fold found.
    destruct found as [|s found']; [done|].
    cbn [map app length]. window_simpl. rewrite length_map.
    done.
Qed.

(** X6: however a search ends once the geocoder has answered, the flags
    of the catalogue agree with the list: a station of the catalogue is
    flagged exactly when its id is the id of a listed station; every listed
    station is flagged and is a station of the catalogue; and the catalogue
    is as before but for the flags. *)
Theorem onGeocodeReply_flags_agree (result : GeocodeResult)
    (more : list GeocodeResult) (searchedCity : string) (w : MainWindow) :
  let w' := fst (onGeocodeReply (ReplyFinished (result :: more))
                                searchedCity w) in
  (∀ s, s ∈ m_allStations w' →
     isSearched s = true ↔ stationId s ∈ map stationId (m_stations w'))
  ∧ (∀ s, s ∈ m_stations w' →
       isSearched s = true
       ∧ ∃ s0, s0 ∈ m_allStations w ∧ s = setIsSearched true s0)
  ∧ map (setIsSearched false) (m_allStations w')
    = map (setIsSearched false) (m_allStations w)
  ∧ m_sensors w' = m_sensors w ∧ m_sensorData w' = m_sensorData w.
Proof.
  intros w'.
  destruct (onGeocodeReply_found result more searchedCity w)
    as (found & Hsub & Hlist & Hall & Hsensors & Hdata).
  fold w' in Hlist, Hall, Hsensors, Hdata. rewrite Hlist, Hall.
  split.
  { intros s (s0 & -> & Hs0)%list_elem_of_fmap.
    cbn [isSearched stationId setIsSearched]. rewrite bool_decide_eq_true.
    rewrite map_map. cbn [stationId setIsSearched]. done. }
  split.
  { intros s (s0 & -> & Hs0)%list_elem_of_fmap. split; [done|].
    exists s0. split; [by apply Hsub|done]. }
  split; [|done].
  rewrite map_map. by apply map_ext.
Qed.

(** X7: the window after an answered search does not depend on the
    search before it: two windows whose catalogues agree but for the
    flags, and that have the same sensors and the same store, are the same
    window after the same answer, whatever their status, centre, list and
    flags were; so the same answer handled twice leaves the window of the
    first time. *)
Theorem onGeocodeReply_forgets_earlier_search (result : GeocodeResult)
    (more : list GeocodeResult) (searchedCity : string)
    (w1 w2 : MainWindow) :
  let search := onGeocodeReply (ReplyFinished (result :: more))
                               searchedCity in
  map (setIsSearched false) (m_allStations w1)
  = map (setIsSearched false) (m_allStations w2) →
  m_sensors w1 = m_sensors w2 → m_sensorData w1 = m_sensorData w2 →
  fst (search w1) = fst (search w2)
  ∧ fst (search (fst (search w1))) = fst (search w1).
Proof.
  intros search.
  assert (Hsame : ∀ w w', 
            map (setIsSearched false) (m_allStations w)
            = map (setIsSearched false) (m_allStations w') →
            m_sensors w = m_sensors w' → m_sensorData w = m_sensorData w' →
            fst (search w) = fst (search w')).
  { intros w w' Hreset Hsensors Hdata. subst search.
    rewrite !onGeocodeReply_answer.
    pose proof (f_equal (cityStations searchedCity) Hreset) as Hfound.
    rewrite !cityStations_reset in Hfound. rewrite <- Hreset.
    pose proof (f_equal (map (setIsSearched true)) Hfound) as Hlist.
    pose proof (f_equal (map stationId) Hfound) as Hids.
    pose proof (f_equal length Hfound) as Hlength.
    rewrite !map_map in Hlist, Hids. rewrite !length_map in Hlength.
    cbn [stationId setIsSearched] in Hids.
    change (map (λ x, setIsSearched true (setIsSearched false x)))
      with (map (setIsSearched true)) in Hlist.
    change (map (λ x, stationId x)) with (map stationId) in Hids.
    destruct (cityStations searchedCity (m_allStations w)) as [|s found],
      (cityStations searchedCity (m_allStations w')) as [|s' found'];
      try done.
    - destruct (fst (findClosest _ _)) as [closest|];
        unfold set_status, set_mapCenter, set_allStations, set_stations;
        cbn; by rewrite Hsensors, Hdata.
    - rewrite Hlist, Hids, Hlength.
      unfold set_status, set_mapCenter, set_allStations, set_stations;
        cbn; by rewrite Hsensors, Hdata. }
  intros Hreset Hsensors Hdata. split; [by apply Hsame|].
  destruct (onGeocodeReply_found result more searchedCity w1)
    as (found & _ & _ & Hall & Hsensors' & Hdata').
  apply Hsame; [|done|done].
  fold search in Hall. rewrite Hall, map_map. by apply map_ext.
Qed.

(** X8: the loop for the closest station finds no station exactly when
    none lies at less than the largest [double] from the point; otherwise
    it finds a station at such a distance that no station of the catalogue
    is closer than, and that every earlier station with a distance is
    strictly farther than: of stations equally close, the first wins. *)
Theorem findClosest_first_of_nearest (cityCoord : QGeoCoordinate)
    (stations : list Station) :
  firstClosest cityCoord stations (findClosest cityCoord stations).
Proof.
  unfold findClosest.
  enough (Hgen : ∀ rest seen acc,
            Num.isNaN (snd acc) = false →
            firstClosest cityCoord seen acc →
            firstClosest cityCoord (seen ++ rest)
                         (fold_left (closer cityCoord) rest acc)).
  { apply (Hgen stations [] (None, Num.MAX_VALUE)); [done|].
    split; [done|]. by intros s ?%elem_of_nil. }
  induction rest as [|s rest IH]; intros seen acc Hnan Hacc.
  { by rewrite app_nil_r. }
  cbn [fold_left]. rewrite (cons_middle s seen rest), app_assoc.
  assert (Hstep : Num.isNaN (snd (closer cityCoord acc s)) = false
                  ∧ firstClosest cityCoord (seen ++ [s])
                                 (closer cityCoord acc s)).
  { destruct acc as [[c|] d]; unfold closer, firstClosest in *;
      fold (distanceFrom cityCoord s); cbn [snd] in Hnan.
    - destruct Hacc as (pre & post & -> & -> & Hmax & Hpre & Hall).
      destruct (Num.ltb (distanceFrom cityCoord s)
                        (distanceFrom cityCoord c)) eqn:Hlt.
      + split; [by apply NumFacts.ltb_not_NaN_l in Hlt|].
        exists (pre ++ c :: post), []. split; [done|]. split; [done|].
        split; [by apply (OrderFacts.ltb_trans _ _ _ Hlt)|].
        split.
        * intros s' Hs' Hs'nan.
          apply (OrderFacts.ltb_leb_trans _ _ _ Hlt).
          apply NumFacts.not_ltb_leb; [done|done|].
          apply Hall, Hs'.
        * intros s' [Hs'|Hs']%elem_of_app;
            [|apply list_elem_of_singleton in Hs' as ->;
              apply OrderFacts.ltb_irrefl].
          destruct (Num.ltb (distanceFrom cityCoord s')
                            (distanceFrom cityCoord s)) eqn:Hs's; [|done].
          by rewrite <- (Hall s' Hs'),
            (OrderFacts.ltb_trans _ _ _ Hs's Hlt).
      + split; [done|].
        exists pre, (post ++ [s]). split; [by rewrite <- app_assoc|].
        split; [done|]. split; [done|]. split; [done|].
        intros s' [Hs'|Hs']%elem_of_app; [by apply Hall|].
        by apply list_elem_of_singleton in Hs' as ->.
    - destruct Hacc as [-> Hall].
      destruct (Num.ltb (distanceFrom cityCoord s) Num.MAX_VALUE) eqn:Hlt.
      + split; [by apply NumFacts.ltb_not_NaN_l in Hlt|].
        exists seen, []. split; [done|]. split; [done|]. split; [done|].
        split.
        * intros s' Hs' Hs'nan.
          apply (OrderFacts.ltb_leb_trans _ _ _ Hlt).
          apply NumFacts.not_ltb_leb; [done|done|]. by apply Hall.
        * intros s' [Hs'|Hs']%elem_of_app;
            [|apply list_elem_of_singleton in Hs' as ->;
              apply OrderFacts.ltb_irrefl].
          destruct (Num.ltb (distanceFrom cityCoord s')
                            (distanceFrom cityCoord s)) eqn:Hs's; [|done].
          by rewrite <- (Hall s' Hs'),
            (OrderFacts.ltb_trans _ _ _ Hs's Hlt).
      + split; [done|]. split; [done|].
        intros s' [Hs'|Hs']%elem_of_app; [by apply Hall|].
        by apply list_elem_of_singleton in Hs' as ->. }
  destruct Hstep as [Hnan' Hacc']. by apply IH.
Qed.

End SearchAnswers.

(** A search for Warszawa on the catalogue of the example. *)
Lemma onGeocodeReply_city_match_witness :
  let found := @cityStations planarQt "Warszawa"
                 (m_allStations catalogueWindow) in
  let answer := @onGeocodeReply planarQt (ReplyFinished [gdansk]) "Warszawa"
                                catalogueWindow in
  found ≠ []
  ∧ m_stations (fst answer) = map (setIsSearched true) found
  ∧ m_allStations (fst answer)
    = map (λ s, setIsSearched
                  (bool_decide (stationId s ∈ map stationId found)) s)
          (m_allStations catalogueWindow)
  ∧ m_mapCenter (fst answer)
    = mkQGeoCoordinate (geo_lat gdansk) (geo_lon gdansk)
  ∧ m_status (fst answer)
    = "Znaleziono " +:+ QString_number (Z.of_nat (length found))
      +:+ " stacji w " +:+ "Warszawa" +:+ "."
  ∧ m_sensors (fst answer) = m_sensors catalogueWindow
  ∧ m_sensorData (fst answer) = m_sensorData catalogueWindow
  ∧ snd answer
    = [mapCenterChanged] ++ repeat allStationsChanged (length found)
      ++ [stationsChanged; statusChanged].
Proof.
  intros found answer.
  assert (Hfound : found ≠ []) by discriminate.
  split; [exact Hfound|].
  exact (@onGeocodeReply_city_match planarQt gdansk [] "Warszawa"
           catalogueWindow Hfound).
Defined.

(** The window of the example, and the same window after a search for
    Warszawa. *)
Lemma onGeocodeReply_forgets_earlier_search_witness :
  let search := @onGeocodeReply planarQt (ReplyFinished [gdansk]) "Gdansk" in
  let searched :=
    fst (@onGeocodeReply planarQt (ReplyFinished [gdansk]) "Warszawa"
                         catalogueWindow) in
  map (setIsSearched false) (m_allStations catalogueWindow)
  = map (setIsSearched false) (m_allStations searched)
  ∧ m_sensors catalogueWindow = m_sensors searched
  ∧ m_sensorData catalogueWindow = m_sensorData searched
  ∧ fst (search catalogueWindow) = fst (search searched)
  ∧ fst (search (fst (search catalogueWindow)))
    = fst (search catalogueWindow).
Proof.
  intros search searched.
  split; [reflexivity|]. split; [reflexivity|]. split; [reflexivity|].
  exact (@onGeocodeReply_forgets_earlier_search planarQt gdansk [] "Gdansk"
           catalogueWindow searched eq_refl eq_refl eq_refl).
Defined.

(** ** Saving a station of the catalogue *)

Lemma touched_nil (sensorData : gmap string QVariant) (key : string) :
  touched sensorData [] key = sensorData !! key.
Proof.
  unfold touched. destruct (sensorData !! key); [done|].
  rewrite bool_decide_eq_false_2; [done|]. apply not_elem_of_nil.
Qed.

Lemma dataOf_touched (sensorData sensorData' : gmap string QVariant)
    (sensors : list Sensor) :
  (∀ key, sensorData' !! key = touched sensorData sensors key) →
  ∀ key, dataOf sensorData' key = dataOf sensorData key.
Proof.
  intros Hstore key. unfold dataOf. rewrite Hstore. unfold touched.
  destruct (sensorData !! key); [done|]. by destruct (bool_decide _).
Qed.

(** The loop over the sensors: every sensor gets the object read from
    the store as it was before the loop, and the store has been read
    under the key of each of them. *)
Lemma saveSensor_fold (sensorData0 : gmap string QVariant)
    (sensors processed : list Sensor) (sensorData : gmap string QVariant)
    (sensorsArray : list QJsonValue) :
  (∀ key, sensorData !! key = touched sensorData0 processed key) →
  let result := fold_left saveSensor sensors (sensorData, sensorsArray) in
  (∀ key, fst result !! key = touched sensorData0 (processed ++ sensors) key)
  ∧ snd result = sensorsArray ++ map (sensorObjOf sensorData0) sensors.
Proof.
  cbn zeta. revert processed sensorData sensorsArray.
  induction sensors as [|sensor sensors IH];
    intros processed sensorData sensorsArray Hstore.
  { cbn. by rewrite !app_nil_r. }
  cbn [fold_left]. rewrite (cons_middle sensor processed sensors), app_assoc.
  set (key := QString_number (sensorId sensor)).
  assert (Hkey : key ∈ sensorKeys (processed ++ [sensor])).
  { unfold sensorKeys. rewrite map_app. apply elem_of_app. right.
    by apply list_elem_of_singleton. }
  assert (Hother : ∀ key', key' ≠ key →
            touched sensorData0 (processed ++ [sensor]) key'
            = touched sensorData0 processed key').
  { intros key' Hne. unfold touched. destruct (sensorData0 !! key'); [done|].
    rewrite (bool_decide_ext (key' ∈ sensorKeys (processed ++ [sensor]))
                             (key' ∈ sensorKeys processed)); [done|].
    unfold sensorKeys.
    rewrite map_app, elem_of_app. cbn [map]. rewrite list_elem_of_singleton.
    fold key. tauto. }
  unfold saveSensor at 2 4. fold key.
  pose proof (Hstore key) as Hread. unfold touched in Hread.
  destruct (sensorData !! key) as [v|] eqn:Hv.
  - destruct (IH (processed ++ [sensor]) sensorData
                 (sensorsArray
                  ++ [JObject [("sensorId", JInt (sensorId sensor));
                               ("paramName", JString (paramName sensor));
                               ("measurements",
                                JArray (map measurementObj (toList v)))]]))
      as [Hstore' Harray'].
    { intros key'. destruct (decide (key' = key)) as [->|Hne].
      - rewrite Hv. unfold touched.
        destruct (sensorData0 !! key) as [v0|]; [done|].
        rewrite bool_decide_eq_true_2 by done.
        by destruct (bool_decide _).
      - rewrite Hother by done. apply Hstore. }
    split; [done|]. rewrite Harray', <- app_assoc. f_equal. cbn [map app].
    f_equal. unfold sensorObjOf, storedSamples. fold key.
    destruct (sensorData0 !! key) as [v0|]; [congruence|].
    destruct (bool_decide _); [|done]. by injection Hread as ->.
  - assert (Hnone : sensorData0 !! key = None).
    { destruct (sensorData0 !! key); [done|]. by destruct (bool_decide _). }
    destruct (IH (processed ++ [sensor]) (<[key := QInvalid]> sensorData)
                 (sensorsArray
                  ++ [JObject [("sensorId", JInt (sensorId sensor));
                               ("paramName", JString (paramName sensor));
                               ("measurements",
                                JArray (map measurementObj
                                            (toList QInvalid)))]]))
      as [Hstore' Harray'].
    { intros key'. destruct (decide (key' = key)) as [->|Hne].
      - rewrite lookup_insert_eq. unfold touched. rewrite Hnone.
        by rewrite bool_decide_eq_true_2.
      - rewrite lookup_insert_ne by done. rewrite Hother by done.
        apply Hstore. }
    split; [done|]. rewrite Harray', <- app_assoc. f_equal. cbn [map app].
    f_equal. unfold sensorObjOf, storedSamples. fold key. by rewrite Hnone.
Qed.

(** X9: saving a station of the catalogue names the file after the id
    and the time; when the file opens, it holds the document of the first
    station with that id, with one object for every listed sensor, in
    order, each with the samples stored for it (none when nothing is
    stored); when it does not open, no file is written.  A sample whose
    value is missing is written with the value 0.  No other file changes,
    and the station lists, the sensors and the map centre are as before. *)
Theorem saveStationData_file (env : SaveEnv) (id : Z) (city addr : string)
    (fs : FileSystem) (w : MainWindow) (station : Station) :
  find (λ s, (stationId s =? id)%Z) (m_allStations w) = Some station →
  let filename := fileNameOf env id in
  let '(w', fs', emitted) := saveStationData env id city addr fs w in
  (if openWriteOnly env filename
   then fs' = <[filename := documentOf env id city addr station w]> fs
        ∧ m_status w' = "Dane zapisano do pliku: " +:+ filename
   else fs' = fs
        ∧ m_status w' = "Błąd: Nie można otworzyć pliku do zapisu: "
                        +:+ filename)
  ∧ (∀ name, name ≠ filename → fs' !! name = fs !! name)
  ∧ (∀ sample, value sample = VNull →
       measurementObj sample
       = JObject [("date", JString (date sample));
                  ("value", JDouble Num.zero)])
  ∧ emitted = [statusChanged]
  ∧ m_stations w' = m_stations w ∧ m_allStations w' = m_allStations w
  ∧ m_sensors w' = m_sensors w ∧ m_mapCenter w' = m_mapCenter w.
Proof.
  intros Hfind filename.
  assert (Hnull : ∀ sample, value sample = VNull →
            measurementObj sample
            = JObject [("date", JString (date sample));
                       ("value", JDouble Num.zero)]).
  { intros sample Hvalue. unfold measurementObj. by rewrite Hvalue. }
  unfold saveStationData. rewrite Hfind.
  destruct (saveSensor_fold (m_sensorData w) (m_sensors w) []
              (m_sensorData w) [])
    as [_ Harray]; [intros key; by rewrite touched_nil|].
  destruct (fold_left saveSensor (m_sensors w) (m_sensorData w, []))
    as [sensorData sensorsArray].
  cbn [snd app] in Harray. subst sensorsArray.
  fold (fileNameOf env id). fold filename.
  destruct (openWriteOnly env filename); window_simpl.
  - split; [done|]. split; [|done].
    intros name Hne. by apply lookup_insert_ne.
  - done.
Qed.

(** Saving station 1 of the catalogue of the example. *)
Lemma saveStationData_file_witness :
  let filename := fileNameOf saveEnv 1 in
  find (λ s, (stationId s =? 1)%Z) (m_allStations catalogueWindow)
  = Some warszawa
  ∧ let '(w', fs', emitted) :=
      saveStationData saveEnv 1 "Warszawa" "Marszałkowska 1" ∅
                      catalogueWindow in
    (if openWriteOnly saveEnv filename
     then fs' = <[filename := documentOf saveEnv 1 "Warszawa"
                                "Marszałkowska 1" warszawa
                                catalogueWindow]> ∅
          ∧ m_status w' = "Dane zapisano do pliku: " +:+ filename
     else fs' = ∅
          ∧ m_status w' = "Błąd: Nie można otworzyć pliku do zapisu: "
                          +:+ filename)
    ∧ (∀ name, name ≠ filename → fs' !! name = (∅ : FileSystem) !! name)
    ∧ (∀ sample, value sample = VNull →
         measurementObj sample
         = JObject [("date", JString (date sample));
                    ("value", JDouble Num.zero)])
    ∧ emitted = [statusChanged]
    ∧ m_stations w' = m_stations catalogueWindow
    ∧ m_allStations w' = m_allStations catalogueWindow
    ∧ m_sensors w' = m_sensors catalogueWindow
    ∧ m_mapCenter w' = m_mapCenter catalogueWindow.
Proof.
  intros filename. split; [reflexivity|].
  exact (saveStationData_file saveEnv 1 "Warszawa" "Marszałkowska 1" ∅
           catalogueWindow warszawa eq_refl).
Defined.

(** X10: saving a station of the catalogue reads the store under the key
    of every listed sensor, which leaves an invalid value under each key
    that had none; the store changes exactly when some listed sensor had
    no entry, no series of the store changes, and the change of the store
    is not announced. *)
Theorem saveStationData_touches_store (env : SaveEnv) (id : Z)
    (city addr : string) (fs : FileSystem) (w : MainWindow)
    (station : Station) :
  find (λ s, (stationId s =? id)%Z) (m_allStations w) = Some station →
  let '(w', _, emitted) := saveStationData env id city addr fs w in
  (∀ key, m_sensorData w' !! key
          = touched (m_sensorData w) (m_sensors w) key)
  ∧ (∀ key, dataOf (m_sensorData w') key = dataOf (m_sensorData w) key)
  ∧ (m_sensorData w' = m_sensorData w
     ↔ ∀ sensor, sensor ∈ m_sensors w →
         is_Some (m_sensorData w !! QString_number (sensorId sensor)))
  ∧ sensorDataChanged ∉ emitted.
Proof.
  intros Hfind. unfold saveStationData. rewrite Hfind.
  destruct (saveSensor_fold (m_sensorData w) (m_sensors w) []
              (m_sensorData w) [])
    as [Hstore _]; [intros key; by rewrite touched_nil|].
  destruct (fold_left saveSensor (m_sensors w) (m_sensorData w, []))
    as [sensorData sensorsArray].
  cbn [fst app] in Hstore.
  assert (Hgoal : (∀ key, sensorData !! key
                          = touched (m_sensorData w) (m_sensors w) key)
                  ∧ (∀ key, dataOf sensorData key
                            = dataOf (m_sensorData w) key)
                  ∧ (sensorData = m_sensorData w
                     ↔ ∀ sensor, sensor ∈ m_sensors w →
                         is_Some (m_sensorData w
                                  !! QString_number (sensorId sensor)))).
  { split; [done|]. split; [by apply (dataOf_touched _ _ (m_sensors w))|].
    split.
    - intros -> sensor Hsensor.
      pose proof (Hstore (QString_number (sensorId sensor))) as Hkey.
      unfold touched in Hkey.
      destruct (m_sensorData w !! QString_number (sensorId sensor));
        [done|].
      rewrite bool_decide_eq_true_2 in Hkey; [done|].
      apply list_elem_of_fmap. by exists sensor.
    - intros Hall. apply map_eq. intros key. rewrite Hstore. unfold touched.
      destruct (m_sensorData w !! key) eqn:Hkey; [done|].
      rewrite bool_decide_eq_false_2; [done|].
      intros (sensor & -> & Hsensor)%list_elem_of_fmap.
      destruct (Hall sensor Hsensor) as [v Hv]. congruence. }
  destruct (openWriteOnly env _); window_simpl;
    (split; [apply Hgoal|]); (split; [apply Hgoal|]);
    (split; [apply Hgoal|]);
    by intros [=]%list_elem_of_singleton.
Qed.

(** Saving station 1 when no data has been fetched. *)
Lemma saveStationData_touches_store_witness :
  find (λ s, (stationId s =? 1)%Z) (m_allStations openedWindow)
  = Some warszawa
  ∧ let '(w', _, emitted) :=
      saveStationData saveEnv 1 "Warszawa" "Marszałkowska 1" ∅
                      openedWindow in
    (∀ key, m_sensorData w' !! key
            = touched (m_sensorData openedWindow) (m_sensors openedWindow)
                      key)
    ∧ (∀ key, dataOf (m_sensorData w') key
              = dataOf (m_sensorData openedWindow) key)
    ∧ (m_sensorData w' = m_sensorData openedWindow
       ↔ ∀ sensor, sensor ∈ m_sensors openedWindow →
           is_Some (m_sensorData openedWindow
                    !! QString_number (sensorId sensor)))
    ∧ sensorDataChanged ∉ emitted.
Proof.
  split; [reflexivity|].
  exact (saveStationData_touches_store saveEnv 1 "Warszawa"
           "Marszałkowska 1" ∅ openedWindow warszawa eq_refl).
Defined.

(** ** The selection under clicks *)

Lemma removeKey_keys (k k' : Z) (l : list (Z * string)) :
  k' ∈ map fst (removeKey k l) ↔ k' ≠ k ∧ k' ∈ map fst l.
Proof.
  unfold removeKey. split.
  - intros ([k0 v0] & -> & [Hne Hin]%list_elem_of_filter)%list_elem_of_fmap.
    split; [done|]. apply list_elem_of_fmap. by exists (k0, v0).
  - intros [Hne ([k0 v0] & -> & Hin)%list_elem_of_fmap].
    apply list_elem_of_fmap. exists (k0, v0). split; [done|].
    by apply list_elem_of_filter.
Qed.

Lemma removeKey_absent (k : Z) (l : list (Z * string)) :
  k ∉ map fst l → removeKey k l = l.
Proof.
  unfold removeKey. induction l as [|[k0 v0] l IH]; intros Hk; [done|].
  cbn [map fst] in Hk. apply not_elem_of_cons in Hk as [Hne Hk].
  rewrite filter_cons_True by (cbn; congruence). by rewrite IH.
Qed.

Lemma removeKey_cons_eq (k : Z) (v : string) (l : list (Z * string)) :
  removeKey k ((k, v) :: l) = removeKey k l.
Proof. unfold removeKey. by rewrite filter_cons_False by (cbn; tauto). Qed.

Lemma removeKey_cons_ne (k k0 : Z) (v0 : string) (l : list (Z * string)) :
  k0 ≠ k → removeKey k ((k0, v0) :: l) = (k0, v0) :: removeKey k l.
Proof. intros Hne. unfold removeKey. by rewrite filter_cons_True. Qed.

Lemma removeKey_putIndexed (k : Z) (v : string) (l : list (Z * string)) :
  k ∉ map fst l → removeKey k (putIndexed k v l) = l.
Proof.
  induction l as [|[k0 v0] l IH]; intros Hk; cbn [putIndexed].
  - by rewrite removeKey_cons_eq.
  - cbn [map fst] in Hk. apply not_elem_of_cons in Hk as [Hne Hk].
    destruct (k <? k0)%Z.
    + rewrite removeKey_cons_eq. apply removeKey_absent. cbn [map fst].
      by apply not_elem_of_cons.
    + destruct (Z.eqb_spec k k0) as [Heq|_]; [done|].
      rewrite removeKey_cons_ne by done. by rewrite IH.
Qed.

Lemma removeKey_putNamed (k : Z) (v : string) (l : list (Z * string)) :
  k ∉ map fst l → removeKey k (putNamed k v l) = l.
Proof.
  induction l as [|[k0 v0] l IH]; intros Hk; cbn [putNamed].
  - by rewrite removeKey_cons_eq.
  - cbn [map fst] in Hk. apply not_elem_of_cons in Hk as [Hne Hk].
    destruct (Z.eqb_spec k k0) as [Heq|_]; [done|].
    rewrite removeKey_cons_ne by done. by rewrite IH.
Qed.

Lemma removeKey_sorted (k : Z) (l : list (Z * string)) :
  StronglySorted Z.lt (map fst l) →
  StronglySorted Z.lt (map fst (removeKey k l)).
Proof.
  induction l as [|[k0 v0] l IH]; intros Hs; [constructor|].
  cbn [map fst] in Hs. apply StronglySorted_inv in Hs as [Hs Hall].
  destruct (decide (k0 = k)) as [->|Hne].
  - rewrite removeKey_cons_eq. by apply IH.
  - rewrite removeKey_cons_ne by done. cbn [map fst].
    constructor; [by apply IH|].
    apply Forall_forall. intros k1 [_ Hk1]%removeKey_keys.
    rewrite Forall_forall in Hall. by apply Hall.
Qed.

Lemma removeKey_NoDup (k : Z) (l : list (Z * string)) :
  NoDup (map fst l) → NoDup (map fst (removeKey k l)).
Proof.
  induction l as [|[k0 v0] l IH]; intros Hs; [constructor|].
  cbn [map fst] in Hs. apply NoDup_cons in Hs as [Hk0 Hs].
  destruct (decide (k0 = k)) as [->|Hne].
  - rewrite removeKey_cons_eq. by apply IH.
  - rewrite removeKey_cons_ne by done. cbn [map fst].
    apply NoDup_cons. split; [|by apply IH].
    by intros [_ ?]%removeKey_keys.
Qed.

Lemma putNamed_keys (k k' : Z) (v : string) (l : list (Z * string)) :
  k' ∈ map fst (putNamed k v l) ↔ k' = k ∨ k' ∈ map fst l.
Proof.
  induction l as [|[k0 v0] l IH]; cbn [putNamed map fst].
  - rewrite list_elem_of_singleton, elem_of_nil. tauto.
  - destruct (Z.eqb_spec k k0) as [->|Hne]; cbn [map fst].
    + rewrite !elem_of_cons. tauto.
    + rewrite !elem_of_cons, IH. tauto.
Qed.

Lemma putNamed_NoDup (k : Z) (v : string) (l : list (Z * string)) :
  NoDup (map fst l) → NoDup (map fst (putNamed k v l)).
Proof.
  induction l as [|[k0 v0] l IH]; intros Hs; cbn [putNamed map fst].
  - apply NoDup_singleton.
  - cbn [map fst] in Hs. apply NoDup_cons in Hs as [Hk0 Hs].
    destruct (Z.eqb_spec k k0) as [->|Hne]; cbn [map fst].
    + by apply NoDup_cons.
    + apply NoDup_cons. split; [|by apply IH].
      intros [->|Hin]%putNamed_keys; done.
Qed.

Lemma sorted_NoDup (l : list Z) : StronglySorted Z.lt l → NoDup l.
Proof.
  induction 1 as [|k l _ IH Hall]; [constructor|].
  apply NoDup_cons. split; [|done].
  intros Hk. rewrite Forall_forall in Hall. specialize (Hall k Hk). lia.
Qed.

Lemma wellFormed_empty : wellFormed emptyObject.
Proof. repeat split; constructor. Qed.

Lemma setProperty_wellFormed (k : Z) (v : string) (o : JSObject) :
  wellFormed o → wellFormed (setProperty k v o).
Proof.
  intros (Hsorted & Hidx & Hdup & Hnamed). unfold setProperty.
  destruct (isArrayIndex k) eqn:Hk; repeat split; cbn [indexed named];
    try done.
  - by apply putIndexed_sorted.
  - apply Forall_forall. intros k' [->|Hk']%putIndexed_keys; [done|].
    rewrite Forall_forall in Hidx. by apply Hidx.
  - by apply putNamed_NoDup.
  - apply Forall_forall. intros k' [->|Hk']%putNamed_keys; [done|].
    rewrite Forall_forall in Hnamed. by apply Hnamed.
Qed.

Lemma deleteProperty_wellFormed (k : Z) (o : JSObject) :
  wellFormed o → wellFormed (deleteProperty k o).
Proof.
  intros (Hsorted & Hidx & Hdup & Hnamed). unfold deleteProperty.
  repeat split; cbn [indexed named].
  - by apply removeKey_sorted.
  - apply Forall_forall. intros k' [_ Hk']%removeKey_keys.
    rewrite Forall_forall in Hidx. by apply Hidx.
  - by apply removeKey_NoDup.
  - apply Forall_forall. intros k' [_ Hk']%removeKey_keys.
    rewrite Forall_forall in Hnamed. by apply Hnamed.
Qed.

Lemma keysOf_setProperty (k k' : Z) (v : string) (o : JSObject) :
  k' ∈ keysOf (setProperty k v o) ↔ k' = k ∨ k' ∈ keysOf o.
Proof.
  unfold keysOf, setProperty.
  destruct (isArrayIndex k); cbn [indexed named];
    rewrite !map_app, !elem_of_app, ?putIndexed_keys, ?putNamed_keys; tauto.
Qed.

Lemma keysOf_deleteProperty (k k' : Z) (o : JSObject) :
  k' ∈ keysOf (deleteProperty k o) ↔ k' ≠ k ∧ k' ∈ keysOf o.
Proof.
  unfold keysOf, deleteProperty. cbn [indexed named].
  rewrite !map_app, !elem_of_app, !removeKey_keys. tauto.
Qed.

Lemma Object_keys_keysOf (o : JSObject) :
  Object_keys o = map propertyKey (keysOf o).
Proof. unfold Object_keys, keysOf. by rewrite map_map. Qed.

Lemma propertyKey_elem (k : Z) (l : list Z) :
  propertyKey k ∈ map propertyKey l ↔ k ∈ l.
Proof.
  split.
  - intros (k' & Heq & Hk')%list_elem_of_fmap.
    by apply (inj pretty) in Heq as ->.
  - intros Hk. apply list_elem_of_fmap. by exists k.
Qed.

Lemma wellFormed_NoDup (o : JSObject) :
  wellFormed o → NoDup (Object_keys o).
Proof.
  intros (Hsorted & Hidx & Hdup & Hnamed). rewrite Object_keys_keysOf.
  apply (NoDup_fmap_2 propertyKey). unfold keysOf. rewrite map_app.
  apply NoDup_app. split; [by apply sorted_NoDup|]. split; [|done].
  intros k Hk Hk'. rewrite Forall_forall in Hidx, Hnamed.
  specialize (Hidx k Hk). specialize (Hnamed k Hk'). congruence.
Qed.

Lemma clicks_snoc (events : list (bool * Sensor)) (ev : bool * Sensor)
    (st : JSObject * MainWindow) :
  clicks (events ++ [ev]) st
  = onCheckedChanged (fst ev) (snd ev) (clicks events st).
Proof. unfold clicks. by rewrite fold_left_app. Qed.

Lemma lastClick_snoc (events : list (bool * Sensor)) (ev : bool * Sensor)
    (id : Z) :
  lastClick (events ++ [ev]) id
  = if (sensorId (snd ev) =? id)%Z then Some (fst ev)
    else lastClick events id.
Proof. unfold lastClick. by rewrite fold_left_app. Qed.

Lemma clicks_wellFormed (events : list (bool * Sensor))
    (st : JSObject * MainWindow) :
  wellFormed (fst st) → wellFormed (fst (clicks events st)).
Proof.
  intros Hst. induction events as [|[checked sensor] events IH] using rev_ind;
    [done|].
  rewrite clicks_snoc. destruct (clicks events st) as [o w].
  unfold onCheckedChanged. cbn [fst snd] in *.
  destruct checked; cbn [fst];
    [by apply setProperty_wellFormed|by apply deleteProperty_wellFormed].
Qed.

(** X11: after any run of clicks that starts with nothing selected, the
    keys of the selection are distinct; a sensor id is among them exactly
    when the last click on it ticked its box; the store holds nothing for
    an id whose last click cleared the box; and when the ids clicked are
    array indices the keys are their decimal forms in ascending order of
    the ids, whatever the order of the clicks. *)
Theorem clicks_selection (events : list (bool * Sensor)) (w : MainWindow) :
  let st := clicks events (emptyObject, w) in
  NoDup (Object_keys (fst st))
  ∧ (∀ id, propertyKey id ∈ Object_keys (fst st)
           ↔ lastClick events id = Some true)
  ∧ (∀ id, lastClick events id = Some false →
           m_sensorData (snd st) !! QString_number id = None)
  ∧ (Forall (λ ev, isArrayIndex (sensorId (snd ev)) = true) events →
     ∃ ids, Object_keys (fst st) = map propertyKey ids
            ∧ StronglySorted Z.lt ids).
Proof.
  intros st. subst st. split; [|split; [|split]].
  - apply wellFormed_NoDup, clicks_wellFormed, wellFormed_empty.
  - intros id. rewrite Object_keys_keysOf, propertyKey_elem.
    induction events as [|[checked sensor] events IH] using rev_ind.
    { cbn. rewrite elem_of_nil. split; [done|discriminate]. }
    rewrite clicks_snoc, lastClick_snoc.
    destruct (clicks events (emptyObject, w)) as [o w'].
    unfold onCheckedChanged. cbn [fst snd] in *.
    destruct checked; cbn [fst].
    + rewrite keysOf_setProperty, IH.
      destruct (Z.eqb_spec (sensorId sensor) id) as [Heq|Hne];
        [by split; [|left]|].
      split; [intros [Heq|Hlast]|intros Hlast]; [congruence|done|by right].
    + rewrite keysOf_deleteProperty, IH.
      destruct (Z.eqb_spec (sensorId sensor) id) as [Heq|Hne].
      * split; [intros [Hne _]; congruence|discriminate].
      * split; [by intros [_ ?]|intros ?; split; [congruence|done]].
  - intros id.
    induction events as [|[checked sensor] events IH] using rev_ind;
      [discriminate|].
    rewrite clicks_snoc, lastClick_snoc.
    destruct (clicks events (emptyObject, w)) as [o w'].
    unfold onCheckedChanged, removeSensorData. cbn [fst snd] in *.
    destruct (Z.eqb_spec (sensorId sensor) id) as [Heq|Hne].
    + intros [= ->]. window_simpl. rewrite Heq. apply lookup_delete_eq.
    + intros Hlast. destruct checked; window_simpl; [by apply IH|].
      rewrite lookup_delete_ne; [by apply IH|].
      intros Heq. by apply Hne, QString_number_inj.
  - intros Hidx.
    assert (Hnamed : named (fst (clicks events (emptyObject, w))) = []).
    { induction events as [|[checked sensor] events IH] using rev_ind;
        [done|].
      apply Forall_app in Hidx as [Hidx Hev].
      apply Forall_inv in Hev. cbn [snd] in Hev.
      rewrite clicks_snoc. specialize (IH Hidx).
      destruct (clicks events (emptyObject, w)) as [o w'].
      unfold onCheckedChanged, setProperty, deleteProperty.
      cbn [fst snd] in *. destruct checked; cbn [fst].
      - by rewrite Hev.
      - cbn [named]. by rewrite IH. }
    exists (map fst (indexed (fst (clicks events (emptyObject, w))))).
    split.
    + unfold Object_keys. rewrite Hnamed, app_nil_r. by rewrite map_map.
    + by destruct (clicks_wellFormed events (emptyObject, w)
                     wellFormed_empty) as [Hsorted _].
Qed.

(** X12: ticking the box of a sensor that is not selected and has no
    data, and clearing it again before any data arrives, leaves the
    selection and the window exactly as they were. *)
Theorem tick_then_clear (sensor : Sensor) (selectedSensors : JSObject)
    (w : MainWindow) :
  sensorId sensor ∉ keysOf selectedSensors →
  m_sensorData w !! QString_number (sensorId sensor) = None →
  onCheckedChanged false sensor
    (onCheckedChanged true sensor (selectedSensors, w))
  = (selectedSensors, w).
Proof.
  intros Hkey Hdata. unfold onCheckedChanged, removeSensorData.
  window_simpl. f_equal.
  - unfold keysOf in Hkey. rewrite map_app, not_elem_of_app in Hkey.
    destruct Hkey as [Hidx Hnamed].
    unfold setProperty, deleteProperty.
    destruct selectedSensors as [idx nmd]. cbn [indexed named] in *.
    destruct (isArrayIndex (sensorId sensor)); cbn [indexed named]; f_equal;
      by first [apply removeKey_putIndexed | apply removeKey_putNamed
               | apply removeKey_absent].
  - by apply set_sensorData_same, delete_id.
Qed.

(** Sensor B on the selection of sensor A alone. *)
Lemma tick_then_clear_witness :
  let st := onCheckedChanged true sensorA (emptyObject, emptyWindow) in
  (sensorId sensorB ∉ keysOf (fst st))
  ∧ m_sensorData (snd st) !! QString_number (sensorId sensorB) = None
  ∧ onCheckedChanged false sensorB (onCheckedChanged true sensorB st) = st.
Proof.
  intros st.
  assert (Hkey : sensorId sensorB ∉ keysOf (fst st)).
  { intros Hin%list_elem_of_singleton. discriminate Hin. }
  assert (Hdata : m_sensorData (snd st)
                  !! QString_number (sensorId sensorB) = None)
    by reflexivity.
  split; [exact Hkey|]. split; [exact Hdata|].
  exact (tick_then_clear sensorB (fst st) (snd st) Hkey Hdata).
Defined.

(** ** What a paint shows *)

Lemma scanSensors_ext (sensorData sensorData' : gmap string QVariant)
    (i : nat) (ids : list string) (acc : Scan) :
  (∀ key, key ∈ ids → dataOf sensorData key = dataOf sensorData' key) →
  scanSensors sensorData i ids acc = scanSensors sensorData' i ids acc.
Proof.
  revert i acc. induction ids as [|id rest IH]; intros i acc Hsame; [done|].
  cbn [scanSensors]. rewrite <- (Hsame id) by by left.
  destruct (dataOf sensorData id); apply IH; intros key Hkey; apply Hsame;
    by right.
Qed.

Lemma plotSeries_ext (width height gmin gmax : number)
    (sensorData sensorData' : gmap string QVariant)
    (palette ids : list string) :
  (∀ key, key ∈ ids → dataOf sensorData key = dataOf sensorData' key) →
  plotSeries width height sensorData gmin gmax palette ids
  = plotSeries width height sensorData' gmin gmax palette ids.
Proof.
  revert palette. induction ids as [|id rest IH]; intros palette Hsame;
    [done|].
  destruct palette as [|color palette]; [done|].
  cbn [plotSeries]. rewrite <- (Hsame id) by by left.
  destruct (dataOf sensorData id); rewrite IH; try done;
    intros key Hkey; apply Hsame; by right.
Qed.

Lemma size_zero (sensorData : gmap string QVariant) :
  (size sensorData =? 0)%nat = bool_decide (sensorData = ∅).
Proof.
  destruct (decide (sensorData = ∅)) as [->|Hne].
  - by rewrite bool_decide_eq_true_2.
  - rewrite bool_decide_eq_false_2 by done. apply Nat.eqb_neq.
    by rewrite map_size_empty_iff.
Qed.

(** The three ways a paint can end. *)
Lemma onPaint_cases (width height : number)
    (sensorData : gmap string QVariant) (selectedSensors : JSObject) :
  onPaint width height sensorData selectedSensors
  = match Object_keys selectedSensors with
    | [] => [noSelectionText width height]
    | first :: rest =>
        if bool_decide (sensorData = ∅) then [noSelectionText width height]
        else
          match dataOf sensorData first with
          | Some (_ :: _) =>
              chartOf width height sensorData (first :: rest)
          | _ => [noTimeText width height]
          end
    end.
Proof.
  unfold onPaint, chartOf. rewrite size_zero, scanSensors_timePoints.
  destruct (Object_keys selectedSensors) as [|first rest]; [done|].
  cbn [length Nat.eqb orb]. destruct (bool_decide _); [done|].
  destruct (chartRange _) as [gmin gmax].
  destruct (dataOf sensorData first) as [[|sample data]|] eqn:Hdata;
    [done| |done].
  rewrite scanSensors_timePoints, Hdata. done.
Qed.

(** X13: a paint writes the invitation to choose parameters, and nothing
    else, when nothing is selected or the store is empty; otherwise it
    writes that there is no time data, and nothing else, when the first
    key of the selection has no samples in the store, whatever the other
    selected sensors have; otherwise it draws the chart. *)
Theorem onPaint_placeholders (width height : number)
    (sensorData : gmap string QVariant) (selectedSensors : JSObject) :
  let ids := Object_keys selectedSensors in
  let paint := onPaint width height sensorData selectedSensors in
  (ids = [] ∨ sensorData = ∅ → paint = [noSelectionText width height])
  ∧ (∀ first rest, ids = first :: rest → sensorData ≠ ∅ →
       dataOf sensorData first = None ∨ dataOf sensorData first = Some [] →
       paint = [noTimeText width height])
  ∧ (∀ first rest sample data, ids = first :: rest →
       dataOf sensorData first = Some (sample :: data) →
       paint = chartOf width height sensorData ids).
Proof.
  intros ids paint. subst ids paint. rewrite onPaint_cases.
  split; [|split].
  - intros [->| ->]; [done|].
    destruct (Object_keys selectedSensors); [done|].
    by rewrite bool_decide_eq_true_2.
  - intros first rest -> Hne Hdata.
    rewrite bool_decide_eq_false_2 by done.
    by destruct Hdata as [-> | ->].
  - intros first rest sample data -> Hdata.
    destruct (decide (sensorData = ∅)) as [->|Hne].
    + unfold dataOf in Hdata. by rewrite lookup_empty in Hdata.
    + rewrite bool_decide_eq_false_2 by done. by rewrite Hdata.
Qed.

(** X14: a paint reads the store only under the keys of the selection,
    and to see whether it is empty: two stores that are both empty or both
    not, and hold the same series under every selected key, give the same
    paint. *)
Theorem onPaint_selected_only (width height : number)
    (sensorData sensorData' : gmap string QVariant)
    (selectedSensors : JSObject) :
  (∀ key, key ∈ Object_keys selectedSensors →
          dataOf sensorData key = dataOf sensorData' key) →
  (sensorData = ∅ ↔ sensorData' = ∅) →
  onPaint width height sensorData selectedSensors
  = onPaint width height sensorData' selectedSensors.
Proof.
  intros Hsame Hempty. rewrite !onPaint_cases.
  destruct (Object_keys selectedSensors) as [|first rest]; [done|].
  rewrite (bool_decide_ext _ _ Hempty). destruct (bool_decide _); [done|].
  rewrite <- (Hsame first) by by left.
  destruct (dataOf sensorData first) as [[|sample data]|]; try done.
  unfold chartOf. rewrite (scanSensors_ext _ _ _ _ _ Hsame).
  by rewrite (plotSeries_ext _ _ _ _ _ _ _ _ Hsame).
Qed.

(** The store of sensors A and B when only A is selected, and the store
    of sensor A alone. *)
Lemma onPaint_selected_only_witness :
  let sensorData := m_sensorData (snd selectionAB) in
  let sensorData' := delete "10" sensorData in
  let selectedSensors := ticked [sensorA] in
  (∀ key, key ∈ Object_keys selectedSensors →
          dataOf sensorData key = dataOf sensorData' key)
  ∧ (sensorData = ∅ ↔ sensorData' = ∅)
  ∧ onPaint (Num.of_Z 600) (Num.of_Z 400) sensorData selectedSensors
    = onPaint (Num.of_Z 600) (Num.of_Z 400) sensorData' selectedSensors.
Proof.
  intros sensorData sensorData' selectedSensors.
  assert (Hsame : ∀ key, key ∈ Object_keys selectedSensors →
                         dataOf sensorData key = dataOf sensorData' key).
  { intros key Hkey%list_elem_of_singleton. by subst key. }
  assert (Hempty : sensorData = ∅ ↔ sensorData' = ∅).
  { split; intros Habs;
      [apply (f_equal (λ m, m !! "20")) in Habs
      |apply (f_equal (λ m, m !! "20")) in Habs]; discriminate Habs. }
  split; [exact Hsame|]. split; [exact Hempty|].
  exact (onPaint_selected_only (Num.of_Z 600) (Num.of_Z 400) sensorData
           sensorData' selectedSensors Hsame Hempty).
Defined.

(** X15: when sensors are listed, something is selected and the store is
    empty, a paint writes the invitation to choose parameters; once the
    station has been saved, the store is no longer empty, and a paint of
    the same selection writes that there is no time data. *)
Theorem onPaint_after_save (width height : number) (env : SaveEnv) (id : Z)
    (city addr : string) (fs : FileSystem) (w : MainWindow)
    (station : Station) (selectedSensors : JSObject) :
  find (λ s, (stationId s =? id)%Z) (m_allStations w) = Some station →
  m_sensorData w = ∅ → m_sensors w ≠ [] →
  Object_keys selectedSensors ≠ [] →
  let '(w', _, _) := saveStationData env id city addr fs w in
  onPaint width height (m_sensorData w) selectedSensors
  = [noSelectionText width height]
  ∧ onPaint width height (m_sensorData w') selectedSensors
    = [noTimeText width height].
Proof.
  intros Hfind Hempty Hsensors Hselected. unfold saveStationData.
  rewrite Hfind.
  destruct (saveSensor_fold (m_sensorData w) (m_sensors w) []
              (m_sensorData w) [])
    as [Hstore _]; [intros key; by rewrite touched_nil|].
  destruct (fold_left saveSensor (m_sensors w) (m_sensorData w, []))
    as [sensorData sensorsArray].
  cbn [fst app] in Hstore.
  assert (Hpaints : onPaint width height (m_sensorData w) selectedSensors
                    = [noSelectionText width height]
                    ∧ onPaint width height sensorData selectedSensors
                      = [noTimeText width height]).
  { rewrite !onPaint_cases.
    destruct (Object_keys selectedSensors) as [|first rest]; [done|].
    rewrite bool_decide_eq_true_2 by done. split; [done|].
    rewrite bool_decide_eq_false_2.
    - rewrite (dataOf_touched _ _ _ Hstore). unfold dataOf.
      by rewrite Hempty, lookup_empty.
    - destruct (m_sensors w) as [|sensor sensors] eqn:Hlist; [done|].
      intros Habs.
      pose proof (Hstore (QString_number (sensorId sensor))) as Hkey.
      rewrite Habs, lookup_empty in Hkey. unfold touched in Hkey.
      rewrite Hempty, lookup_empty in Hkey.
      rewrite bool_decide_eq_true_2 in Hkey; [done|]. by left. }
  by destruct (openWriteOnly env _); window_simpl.
Qed.

(** The dialog of station 1 just opened, with its one box ticked and no
    data yet. *)
Lemma onPaint_after_save_witness :
  let selectedSensors := ticked (m_sensors openedWindow) in
  find (λ s, (stationId s =? 1)%Z) (m_allStations openedWindow)
  = Some warszawa
  ∧ m_sensorData openedWindow = ∅ ∧ m_sensors openedWindow ≠ []
  ∧ Object_keys selectedSensors ≠ []
  ∧ let '(w', _, _) :=
      saveStationData saveEnv 1 "Warszawa" "Marszałkowska 1" ∅
                      openedWindow in
    onPaint (Num.of_Z 600) (Num.of_Z 400) (m_sensorData openedWindow)
            selectedSensors
    = [noSelectionText (Num.of_Z 600) (Num.of_Z 400)]
    ∧ onPaint (Num.of_Z 600) (Num.of_Z 400) (m_sensorData w')
              selectedSensors
      = [noTimeText (Num.of_Z 600) (Num.of_Z 400)].
Proof.
  intros selectedSensors.
  assert (Hsensors : m_sensors openedWindow ≠ []) by discriminate.
  assert (Hselected : Object_keys selectedSensors ≠ []) by discriminate.
  split; [reflexivity|]. split; [reflexivity|].
  split; [exact Hsensors|]. split; [exact Hselected|].
  exact (onPaint_after_save (Num.of_Z 600) (Num.of_Z 400) saveEnv 1
           "Warszawa" "Marszałkowska 1" ∅ openedWindow warszawa
           selectedSensors eq_refl eq_refl Hsensors Hselected).
Defined.

(** ** The colours of the series *)

Lemma indexOfFrom_absent (i : Z) (key : string) (keys : list string) :
  key ∉ keys → indexOfFrom i key keys = (-1)%Z.
Proof.
  revert i. induction keys as [|k keys IH]; intros i Hkey; [done|].
  apply not_elem_of_cons in Hkey as [Hne Hkey]. cbn [indexOfFrom].
  destruct (String.eqb_spec k key) as [Heq|_]; [congruence|]. by apply IH.
Qed.

Lemma indexOfFrom_position (i : Z) (key : string) (keys : list string)
    (n : nat) :
  NoDup keys → keys !! n = Some key →
  indexOfFrom i key keys = (i + Z.of_nat n)%Z.
Proof.
  revert i n. induction keys as [|k keys IH]; intros i n Hdup Hn; [done|].
  apply NoDup_cons in Hdup as [Hk Hdup]. cbn [indexOfFrom].
  destruct n as [|n].
  - injection Hn as ->. rewrite String.eqb_refl. lia.
  - cbn in Hn. destruct (String.eqb_spec k key) as [->|_].
    + exfalso. apply Hk. by eapply list_elem_of_lookup_2.
    + rewrite (IH (i + 1)%Z n Hdup Hn). lia.
Qed.

Lemma plotSeries_palette (width height gmin gmax : number)
    (sensorData : gmap string QVariant) (palette ids : list string) :
  plotSeries width height sensorData gmin gmax palette ids
  = plotSeries width height sensorData gmin gmax palette
               (take (length palette) ids).
Proof.
  revert palette. induction ids as [|id rest IH]; intros palette.
  - by rewrite take_nil.
  - destruct palette as [|color palette]; [done|].
    cbn [length take plotSeries]. by rewrite <- IH.
Qed.

(** X16: on a selection with distinct keys, the dot beside the box of a
    sensor has the colour in which a paint of that selection strokes the
    series of the sensor: the colour of the palette at the position of the
    sensor's key among the keys.  From the seventh key on the dot is
    transparent and the series is not drawn, as for a sensor that is not
    selected. *)
Theorem indicatorColor_of_series (width height gmin gmax : number)
    (sensorData : gmap string QVariant) (selectedSensors : JSObject)
    (modelData : Sensor) :
  let ids := Object_keys selectedSensors in
  let key := propertyKey (sensorId modelData) in
  NoDup ids →
  (key ∉ ids → indicatorColor selectedSensors modelData = "transparent")
  ∧ (∀ i, ids !! i = Some key → (6 <= i)%nat →
       indicatorColor selectedSensors modelData = "transparent")
  ∧ (∀ i color, ids !! i = Some key → colors !! i = Some color →
       indicatorColor selectedSensors modelData = color
       ∧ ∀ data, dataOf sensorData key = Some data →
           ∃ before after,
             plotSeries width height sensorData gmin gmax colors ids
             = before ++ plotOne width height gmin gmax color data ++ after)
  ∧ plotSeries width height sensorData gmin gmax colors ids
    = plotSeries width height sensorData gmin gmax colors (take 6 ids).
Proof.
  intros ids key Hdup. split; [|split; [|split]].
  - intros Hkey. unfold indicatorColor, indexOf. fold ids key.
    by rewrite indexOfFrom_absent.
  - intros i Hi Hlate. unfold indicatorColor, indexOf. fold ids key.
    rewrite (indexOfFrom_position 0 key ids i Hdup Hi).
    replace (0 + Z.of_nat i <? Z.of_nat (length colors))%Z with false;
      [by rewrite andb_false_r|].
    symmetry. apply Z.ltb_ge. cbn [length colors]. lia.
  - intros i color Hi Hcolor. split.
    + unfold indicatorColor, indexOf. fold ids key.
      rewrite (indexOfFrom_position 0 key ids i Hdup Hi).
      pose proof (lookup_lt_Some _ _ _ Hcolor) as Hlt.
      replace (0 <=? 0 + Z.of_nat i)%Z with true
        by (symmetry; apply Z.leb_le; lia).
      replace (0 + Z.of_nat i <? Z.of_nat (length colors))%Z with true
        by (symmetry; apply Z.ltb_lt; lia).
      cbn [andb]. rewrite Z.add_0_l, Nat2Z.id.
      by apply nth_lookup_Some.
    + intros data Hdata. rewrite plotSeries_each.
      assert (Hzip : zip ids colors !! i = Some (key, color)).
      { apply lookup_zip_with_Some. by exists key, color. }
      rewrite <- (take_drop_middle _ _ _ Hzip), flat_map_app.
      cbn [flat_map fst snd]. rewrite Hdata.
      eexists _, _. reflexivity.
  - apply plotSeries_palette.
Qed.

(** The selection of sensors A and B. *)
Lemma indicatorColor_of_series_witness :
  let w := Num.of_Z 600 in
  let h := Num.of_Z 400 in
  let gmin := Num.of_Z 1 in
  let gmax := Num.of_Z 9 in
  let sensorData := m_sensorData (snd selectionAB) in
  let selectedSensors := fst selectionAB in
  let ids := Object_keys selectedSensors in
  let key := propertyKey (sensorId sensorA) in
  NoDup ids
  ∧ (key ∉ ids → indicatorColor selectedSensors sensorA = "transparent")
  ∧ (∀ i, ids !! i = Some key → (6 <= i)%nat →
       indicatorColor selectedSensors sensorA = "transparent")
  ∧ (∀ i color, ids !! i = Some key → colors !! i = Some color →
       indicatorColor selectedSensors sensorA = color
       ∧ ∀ data, dataOf sensorData key = Some data →
           ∃ before after,
             plotSeries w h sensorData gmin gmax colors ids
             = before ++ plotOne w h gmin gmax color data ++ after)
  ∧ plotSeries w h sensorData gmin gmax colors ids
    = plotSeries w h sensorData gmin gmax colors (take 6 ids).
Proof.
  intros w h gmin gmax sensorData selectedSensors ids key.
  assert (Hdup : NoDup ids).
  { apply NoDup_cons. split.
    - intros Hin%list_elem_of_singleton. discriminate Hin.
    - apply NoDup_singleton. }
  split; [exact Hdup|].
  exact (indicatorColor_of_series w h gmin gmax sensorData selectedSensors
           sensorA Hdup).
Defined.

(** ** The range of a chart *)

Module RangeFacts.

Lemma equiv_refl (a : number) : a ≡ₙ a.
Proof. destruct a; cbn; [apply Qeq_refl|done..]. Qed.

Lemma leb_antisym (a b : number) :
  Num.leb a b = true → Num.leb b a = true → a ≡ₙ b.
Proof.
  destruct a as [x| | |], b as [y| | |]; cbn; try done.
  rewrite !Qle_bool_iff. apply Qle_antisym.
Qed.

Lemma leb_pred (a : number) :
  Num.isNaN a = false → Num.leb (a - Num.one)%num a = true.
Proof.
  destruct a as [x| | |]; cbn; try done. intros _.
  apply Qle_bool_iff. rewrite Qred_correct. lra.
Qed.

Lemma leb_succ (a : number) :
  Num.isNaN a = false → Num.leb a (a + Num.one)%num = true.
Proof.
  destruct a as [x| | |]; cbn; try done. intros _.
  apply Qle_bool_iff. rewrite Qred_correct. lra.
Qed.

Lemma unit_scale (t w : Q) :
  (0 <= t <= 1)%Q → (0 <= w)%Q → (0 <= t * w <= w)%Q.
Proof. intros [H0 H1] Hw. split; nra. Qed.

Lemma ratio_unit (a d : Q) :
  (0 < d)%Q → (0 <= a <= d)%Q → (0 <= a / d <= 1)%Q.
Proof.
  intros Hd [H0 H1]. split.
  - apply Qle_shift_div_l; [done|]. lra.
  - apply Qle_shift_div_r; [done|]. lra.
Qed.

End RangeFacts.

Lemma scanSample_extrema (i : nat) (data : list Sample) (acc : Scan) :
  globalMaxValue (fold_left (scanSample i) data acc)
  = fold_left Num.max (validValues data) (globalMaxValue acc)
  ∧ globalMinValue (fold_left (scanSample i) data acc)
    = fold_left Num.min (validValues data) (globalMinValue acc).
Proof.
  revert acc. induction data as [|sample rest IH]; intros acc; [done|].
  cbn [fold_left]. rewrite validValues_cons.
  destruct (IH (scanSample i acc sample)) as [-> ->].
  unfold scanSample.
  destruct (value sample) as [|v]; cbn [isValue toDouble]; [done|].
  by destruct (Num.isNaN v).
Qed.

Lemma scanSensors_extrema (sensorData : gmap string QVariant) (i : nat)
    (ids : list string) (acc : Scan) :
  globalMaxValue (scanSensors sensorData i ids acc)
  = fold_left Num.max (selectedValues sensorData ids) (globalMaxValue acc)
  ∧ globalMinValue (scanSensors sensorData i ids acc)
    = fold_left Num.min (selectedValues sensorData ids) (globalMinValue acc).
Proof.
  revert i acc. induction ids as [|id rest IH]; intros i acc; [done|].
  cbn [scanSensors selectedValues flat_map].
  fold (selectedValues sensorData rest).
  destruct (dataOf sensorData id) as [data|]; [|apply IH].
  rewrite !fold_left_app.
  destruct (scanSample_extrema i data acc) as [<- <-].
  destruct (IH (S i)
              {| globalMaxValue :=
                   globalMaxValue (fold_left (scanSample i) data acc);
                 globalMinValue :=
                   globalMinValue (fold_left (scanSample i) data acc);
                 allDataPoints :=
                   allDataPoints (fold_left (scanSample i) data acc)
                   ++ [data];
                 timePoints :=
                   timePoints (fold_left (scanSample i) data acc) |})
    as [-> ->].
  done.
Qed.

Lemma selectedValues_not_NaN (sensorData : gmap string QVariant)
    (ids : list string) :
  Forall (λ v, Num.isNaN v = false) (selectedValues sensorData ids).
Proof.
  induction ids as [|id rest IH]; [constructor|].
  cbn [selectedValues flat_map].
  destruct (dataOf sensorData id) as [data|]; [|done].
  apply Forall_app. split; [apply validValues_not_NaN|done].
Qed.

Lemma selectedValues_elem (sensorData : gmap string QVariant)
    (ids : list string) (key : string) (data : list Sample) (v : number) :
  key ∈ ids → dataOf sensorData key = Some data → v ∈ validValues data →
  v ∈ selectedValues sensorData ids.
Proof.
  intros Hkey Hdata Hv. unfold selectedValues.
  apply list_elem_of_In, in_flat_map. exists key.
  split; [by apply list_elem_of_In|]. rewrite Hdata. by apply list_elem_of_In.
Qed.

(** The range of a chart lies around every value of the selected
    series. *)
Lemma chartRange_around (sensorData : gmap string QVariant)
    (ids : list string) (v : number) :
  let scan := scanSensors sensorData 0 ids scanStart in
  v ∈ selectedValues sensorData ids →
  Num.leb (fst (chartRange scan)) v = true
  ∧ Num.leb v (snd (chartRange scan)) = true.
Proof.
  intros scan Hv.
  destruct (scanSensors_extrema sensorData 0 ids scanStart) as [Hmax Hmin].
  fold scan in Hmax, Hmin. cbn [globalMaxValue globalMinValue scanStart] in *.
  destruct (ExtremumFacts.fold_max (selectedValues sensorData ids)
              (Num.neg Num.MAX_VALUE) eq_refl
              (selectedValues_not_NaN sensorData ids))
    as (Hmax_nan & _ & Hmax_le & _).
  destruct (ExtremumFacts.fold_min (selectedValues sensorData ids)
              Num.MAX_VALUE eq_refl
              (selectedValues_not_NaN sensorData ids))
    as (Hmin_nan & _ & Hmin_le & _).
  rewrite <- Hmax in Hmax_nan, Hmax_le. rewrite <- Hmin in Hmin_nan, Hmin_le.
  unfold chartRange. destruct (Num.eqb _ _); cbn [fst snd].
  - split.
    + eapply NumFacts.leb_trans; [by apply RangeFacts.leb_pred|].
      by apply Hmin_le.
    + eapply NumFacts.leb_trans; [by apply Hmax_le|].
      by apply RangeFacts.leb_succ.
  - split; [by apply Hmin_le|by apply Hmax_le].
Qed.

(** X17: the range of a chart is taken over the series of all the
    selected sensors, also of those beyond the palette, which are not
    drawn: it lies around every value of these series; and when there is
    such a value and the values are finite [double]s, the minimum and the
    maximum of the scan are the least and the greatest of them. *)
Theorem chartRange_spans_values (sensorData : gmap string QVariant)
    (selectedSensors : JSObject) :
  let ids := Object_keys selectedSensors in
  let values := selectedValues sensorData ids in
  let scan := scanSensors sensorData 0 ids scanStart in
  (∀ v, v ∈ values →
     Num.leb (fst (chartRange scan)) v = true
     ∧ Num.leb v (snd (chartRange scan)) = true)
  ∧ (values ≠ [] → Forall (λ v, isDouble v = true) values →
     ∃ lo hi, lo ∈ values ∧ hi ∈ values
       ∧ (∀ v, v ∈ values → Num.leb lo v = true ∧ Num.leb v hi = true)
       ∧ globalMinValue scan ≡ₙ lo ∧ globalMaxValue scan ≡ₙ hi).
Proof.
  intros ids values scan. split; [intros v; apply chartRange_around|].
  intros Hsome Hdouble.
  destruct (scanSensors_extrema sensorData 0 ids scanStart) as [Hmax Hmin].
  fold scan values in Hmax, Hmin.
  cbn [globalMaxValue globalMinValue scanStart] in *.
  destruct (ExtremumFacts.fold_max values (Num.neg Num.MAX_VALUE) eq_refl
              (selectedValues_not_NaN sensorData ids))
    as (_ & _ & Hmax_le & Hmax_in).
  destruct (ExtremumFacts.fold_min values Num.MAX_VALUE eq_refl
              (selectedValues_not_NaN sensorData ids))
    as (_ & _ & Hmin_le & Hmin_in).
  rewrite <- Hmax in Hmax_le, Hmax_in. rewrite <- Hmin in Hmin_le, Hmin_in.
  rewrite Forall_forall in Hdouble.
  assert (Hlo : ∃ lo, lo ∈ values ∧ (∀ v, v ∈ values → Num.leb lo v = true)
                      ∧ globalMinValue scan ≡ₙ lo).
  { destruct Hmin_in as [Heq|Hin].
    - destruct values as [|v0 values'] eqn:Hvalues; [done|].
      assert (Hv0 : v0 ∈ v0 :: values') by by left.
      pose proof (Hdouble v0 Hv0) as [_ Hle]%andb_true_iff.
      exists v0. split; [done|]. split.
      + intros v Hv. eapply NumFacts.leb_trans; [exact Hle|].
        rewrite <- Heq. by apply Hmin_le.
      + apply RangeFacts.leb_antisym; [by apply Hmin_le|by rewrite Heq].
    - exists (globalMinValue scan). split; [done|]. split; [done|].
      apply RangeFacts.equiv_refl. }
  assert (Hhi : ∃ hi, hi ∈ values ∧ (∀ v, v ∈ values → Num.leb v hi = true)
                      ∧ globalMaxValue scan ≡ₙ hi).
  { destruct Hmax_in as [Heq|Hin].
    - destruct values as [|v0 values'] eqn:Hvalues; [done|].
      assert (Hv0 : v0 ∈ v0 :: values') by by left.
      pose proof (Hdouble v0 Hv0) as [Hle _]%andb_true_iff.
      exists v0. split; [done|]. split.
      + intros v Hv. eapply NumFacts.leb_trans; [|exact Hle].
        rewrite <- Heq. by apply Hmax_le.
      + apply RangeFacts.leb_antisym; [by rewrite Heq|by apply Hmax_le].
    - exists (globalMaxValue scan). split; [done|]. split; [done|].
      apply RangeFacts.equiv_refl. }
  destruct Hlo as (lo & Hlo_in & Hlo_le & Hlo_eq).
  destruct Hhi as (hi & Hhi_in & Hhi_le & Hhi_eq).
  exists lo, hi. split; [done|]. split; [done|].
  split; [|done]. intros v Hv. split; [by apply Hlo_le|by apply Hhi_le].
Qed.

(** *** The vertices of a chart *)

Module CanvasFacts.

Lemma Qle_bool_lt (x y : Q) : (y < x)%Q → Qle_bool x y = false.
Proof.
  intros Hlt. destruct (Qle_bool x y) eqn:Hle; [|done].
  apply Qle_bool_iff in Hle. by apply Qle_not_lt in Hle.
Qed.

Lemma leb_equiv_l (a a' b : number) :
  a ≡ₙ a' → Num.leb a b = true → Num.leb a' b = true.
Proof.
  destruct a as [x| | |], a' as [x'| | |], b as [y| | |]; cbn; try done.
  rewrite !Qle_bool_iff. intros Heq Hle. by rewrite <- Heq.
Qed.

Lemma leb_equiv_r (a b b' : number) :
  b ≡ₙ b' → Num.leb a b = true → Num.leb a b' = true.
Proof.
  destruct a as [x| | |], b as [y| | |], b' as [y'| | |]; cbn; try done.
  rewrite !Qle_bool_iff. intros Heq Hle. by rewrite <- Heq.
Qed.

Lemma ltb_equiv_r (a b b' : number) :
  b ≡ₙ b' → Num.ltb a b = true → Num.ltb a b' = true.
Proof.
  destruct a as [x| | |], b as [y| | |], b' as [y'| | |]; cbn; try done.
  intros Heq Hlt%negb_true_iff%NumFacts.Qle_bool_false.
  apply negb_true_iff, Qle_bool_lt. by rewrite <- Heq.
Qed.

Lemma of_nat_le (i n : nat) :
  (i <= n)%nat → Num.leb (Num.of_nat i) (Num.of_nat n) = true.
Proof.
  intros Hle. apply Qle_bool_iff. unfold Qle, inject_Z. cbn. lia.
Qed.

Lemma of_nat_pos (n : nat) :
  (0 < n)%nat → Num.ltb Num.zero (Num.of_nat n) = true.
Proof.
  intros Hn. apply negb_true_iff, Qle_bool_lt.
  unfold Qlt, inject_Z. cbn. lia.
Qed.

Lemma between_finite (a v b : number) :
  Num.isFinite a = true → Num.isFinite b = true →
  Num.leb a v = true → Num.leb v b = true → Num.isFinite v = true.
Proof. by destruct a, v, b. Qed.

(** The ideal arithmetic keeps the order, every number being one of
    its numbers. *)
Lemma ideal_order_laws : OrderLaws.
Proof.
  split; try done.
  - intros a _. apply RangeFacts.leb_pred.
  - intros a _. apply RangeFacts.leb_succ.
  - intros [x| | |] [y| | |] [z| | |] _ _ _; cbn; try done.
    intros _ _ _. rewrite !Qle_bool_iff, !Qred_correct. lra.
  - intros [x| | |] [y| | |] _ _; cbn; try done.
    rewrite !negb_true_iff.
    intros Hx%Qle_bool_iff Hxy%Qle_bool_iff Hy%NumFacts.Qle_bool_false _.
    assert (Hne : ¬ (y == 0)%Q) by lra.
    rewrite (IdealFacts.Qeq_bool_false _ _ Hne). cbn.
    rewrite !Qle_bool_iff, Qred_correct.
    by apply RangeFacts.ratio_unit.
  - intros [x| | |] [y| | |] _ _; cbn; try done.
    intros Hx%Qle_bool_iff Hx1%Qle_bool_iff Hy%Qle_bool_iff _.
    rewrite !Qle_bool_iff, Qred_correct.
    by apply RangeFacts.unit_scale.
  - intros [x| | |] [y| | |] _ _; cbn; try done.
    intros Hx%Qle_bool_iff Hxy%Qle_bool_iff _.
    rewrite !Qle_bool_iff, Qred_correct. split; lra.
Qed.

End CanvasFacts.

(** The arithmetic of the machine keeps the order. *)
Module Binary64Order.
Import Binary64 Binary64Facts.

#[local] Open Scope Q_scope.

Lemma leb_rounded (x y : Q) (b : number) :
  x <= y → rounded (Finite y) ≡ₙ b →
  Num.leb (round x) b = true.
Proof.
  intros Hxy Hb. apply (CanvasFacts.leb_equiv_r _ (round y)); [done|].
  by apply round_mono.
Qed.

Lemma binary64_order_laws : @OrderLaws binary64.
Proof.
  split; cbn [machine fadd fsub fmul fdiv binary64].
  - apply representable_of_nat.
  - apply representable_MAX_VALUE.
  - apply representable_neg_MAX_VALUE.
  - intros a b _ _. apply representable_rounded.
  - intros a b _ _. apply representable_rounded.
  - intros a b _ _. apply representable_rounded.
  - intros a b _ _. apply representable_rounded.
  - intros [x| | |] Ha Hnan; [|done..].
    change (Num.leb (round (Qred (x + - 1))) (Finite x) = true).
    apply (leb_rounded _ x); [|exact Ha]. rewrite Qred_correct. lra.
  - intros [x| | |] Ha Hnan; [|done..].
    change (Num.leb (Finite x) (round (Qred (x + 1))) = true).
    apply (CanvasFacts.leb_equiv_l (round x)); [exact Ha|].
    apply round_mono. rewrite Qred_correct. lra.
  - intros [x| | |] [y| | |] [z| | |] _ _ _ Hx Hy Hz Hxy;
      cbn in Hx, Hy, Hz, Hxy; try done.
    apply Qle_bool_iff in Hxy.
    cbn [Num.sub Num.add Num.neg rounded]. apply round_mono.
    rewrite !Qred_correct. lra.
  - intros [x| | |] [y| | |] _ _ Hx Hxy Hy Hfin;
      cbn in Hx, Hxy, Hy, Hfin; try done.
    apply Qle_bool_iff in Hx, Hxy.
    apply negb_true_iff, NumFacts.Qle_bool_false in Hy.
    assert (Hne : ¬ (y == 0)%Q) by lra.
    unfold Num.div. rewrite (IdealFacts.Qeq_bool_false _ _ Hne).
    cbn [rounded].
    destruct (RangeFacts.ratio_unit x y Hy (conj Hx Hxy)) as [H0 H1].
    split.
    + change Num.zero with (round 0). apply round_mono.
      by rewrite Qred_correct.
    + apply (CanvasFacts.leb_equiv_r _ (round 1)); [by vm_compute|].
      apply round_mono. by rewrite Qred_correct.
  - intros [x| | |] [y| | |] _ Hh Hx Hx1 Hy Hfin;
      cbn in Hx, Hx1, Hy, Hfin; try done.
    apply Qle_bool_iff in Hx, Hx1, Hy.
    destruct (RangeFacts.unit_scale x y (conj Hx Hx1) Hy) as [H0 H1].
    cbn [Num.mul rounded]. split.
    + change Num.zero with (round 0). apply round_mono.
      by rewrite Qred_correct.
    + apply (leb_rounded _ y); [|exact Hh]. by rewrite Qred_correct.
  - intros [x| | |] [y| | |] _ Hh Hx Hxy Hfin;
      cbn in Hx, Hxy, Hfin; try done.
    apply Qle_bool_iff in Hx, Hxy.
    cbn [Num.sub Num.add Num.neg rounded]. split.
    + change Num.zero with (round 0). apply round_mono.
      rewrite Qred_correct. lra.
    + apply (leb_rounded _ y); [|exact Hh]. rewrite Qred_correct. lra.
Qed.

End Binary64Order.

Section CanvasRange.
Context `{Arithmetic}.
Hypothesis Horder : OrderLaws.

(** The bounds of the range are numbers of the machine when the values
    are, and the range lies around every value of the selected series. *)
Lemma chartRange_machine (sensorData : gmap string QVariant)
    (ids : list string) :
  let scan := scanSensors sensorData 0 ids scanStart in
  Forall machine (selectedValues sensorData ids) →
  machine (fst (chartRange scan)) ∧ machine (snd (chartRange scan))
  ∧ ∀ v, v ∈ selectedValues sensorData ids →
      Num.leb (fst (chartRange scan)) v = true
      ∧ Num.leb v (snd (chartRange scan)) = true.
Proof.
  intros scan Hvalues. rewrite Forall_forall in Hvalues.
  destruct (scanSensors_extrema sensorData 0 ids scanStart) as [Hmax Hmin].
  fold scan in Hmax, Hmin. cbn [globalMaxValue globalMinValue scanStart] in *.
  destruct (ExtremumFacts.fold_max (selectedValues sensorData ids)
              (Num.neg Num.MAX_VALUE) eq_refl
              (selectedValues_not_NaN sensorData ids))
    as (Hmax_nan & _ & Hmax_le & Hmax_in).
  destruct (ExtremumFacts.fold_min (selectedValues sensorData ids)
              Num.MAX_VALUE eq_refl
              (selectedValues_not_NaN sensorData ids))
    as (Hmin_nan & _ & Hmin_le & Hmin_in).
  rewrite <- Hmax in Hmax_nan, Hmax_le, Hmax_in.
  rewrite <- Hmin in Hmin_nan, Hmin_le, Hmin_in.
  assert (Hmachine_max : machine (globalMaxValue scan)).
  { destruct Hmax_in as [->|Hin]; [|by apply Hvalues].
    apply (machine_neg_MAX_VALUE Horder). }
  assert (Hmachine_min : machine (globalMinValue scan)).
  { destruct Hmin_in as [->|Hin]; [|by apply Hvalues].
    apply (machine_MAX_VALUE Horder). }
  assert (Hone : machine Num.one).
  { change Num.one with (Num.of_nat 1).
    by apply (machine_count Horder). }
  unfold chartRange. destruct (Num.eqb _ _); cbn [fst snd].
  - split; [by apply (machine_sub Horder)|].
    split; [by apply (machine_add Horder)|].
    intros v Hv. split.
    + eapply NumFacts.leb_trans; [by apply (pred_le Horder)|].
      by apply Hmin_le.
    + eapply NumFacts.leb_trans; [by apply Hmax_le|].
      by apply (succ_le Horder).
  - split; [done|]. split; [done|].
    intros v Hv. split; [by apply Hmin_le|by apply Hmax_le].
Qed.

(** A ratio between zero and one, scaled by a side of the canvas, is
    within that side. *)
Lemma scaled_within (n d side : number) :
  machine n → machine d → machine side →
  Num.leb Num.zero n = true → Num.leb n d = true →
  Num.ltb Num.zero d = true → Num.isFinite d = true →
  Num.leb Num.zero side = true → Num.isFinite side = true →
  machine ((n / d) * side)%num
  ∧ Num.leb Num.zero ((n / d) * side)%num = true
  ∧ Num.leb ((n / d) * side)%num side = true.
Proof.
  intros Hn Hd Hside Hn0 Hnd Hd0 Hdfin Hside0 Hsidefin.
  destruct (div_unit Horder n d) as [Hr0 Hr1]; try done.
  assert (Hr : machine (n / d)%num) by by apply (machine_div Horder).
  destruct (mul_unit Horder (n / d)%num side) as [Hp0 Hp1]; try done.
  split; [by apply (machine_mul Horder)|done].
Qed.

End CanvasRange.

(** X18, in every arithmetic that has the exact cases of the machine and
    keeps the order on its numbers: on a canvas whose sides are finite
    numbers of the machine and not negative, when the values of the
    selected series are numbers of the machine, the bounds of the range
    are finite and its computed extent [gmax - gmin] is finite and above
    zero, every vertex of the path of a selected series of at least two
    samples lies within the canvas. *)
Theorem vertices_on_canvas `{Arithmetic} (width height : number)
    (sensorData : gmap string QVariant) (selectedSensors : JSObject)
    (key color : string) (data : list Sample) :
  let ids := Object_keys selectedSensors in
  let scan := scanSensors sensorData 0 ids scanStart in
  let gmin := fst (chartRange scan) in
  let gmax := snd (chartRange scan) in
  ExactCases → OrderLaws →
  machine width → machine height →
  Num.isFinite width = true → Num.leb Num.zero width = true →
  Num.isFinite height = true → Num.leb Num.zero height = true →
  Forall machine (selectedValues sensorData ids) →
  Num.isFinite gmin = true → Num.isFinite gmax = true →
  Num.isFinite (gmax - gmin)%num = true →
  Num.ltb Num.zero (gmax - gmin)%num = true →
  key ∈ ids → dataOf sensorData key = Some data →
  (2 <= length data)%nat → (Z.of_nat (length data) <= 2 ^ 53)%Z →
  Forall (λ p, onCanvas width height p = true)
         (vertices (plotOne width height gmin gmax color data)).
Proof.
  intros ids scan gmin gmax Hexact Horder Hmw Hmh Hwfin Hw0 Hhfin Hh0
    Hvalues Hgmin Hgmax Hdfin Hd0 Hkey Hdata Hn Hmax.
  destruct (chartRange_machine Horder sensorData ids Hvalues)
    as (Hmmin & Hmmax & Haround).
  fold scan gmin gmax in Hmmin, Hmmax, Haround.
  rewrite vertices_plotOne. apply Forall_map, Forall_forall.
  intros [i v] Hiv.
  assert (Hv : v ∈ selectedValues sensorData ids).
  { apply (selectedValues_elem _ _ key data); [done|done|].
    unfold validValues. apply list_elem_of_fmap. by exists (i, v). }
  destruct (Haround v Hv) as [Hlo Hhi].
  assert (Hmv : machine v).
  { rewrite Forall_forall in Hvalues. by apply Hvalues. }
  assert (Hvfin : Num.isFinite v = true)
    by by apply (CanvasFacts.between_finite gmin v gmax).
  apply elem_of_valuedFrom in Hiv as (j & sample & -> & Hj & _).
  apply lookup_lt_Some in Hj. cbn [Nat.add].
  (* the horizontal position *)
  assert (Hpred : (Num.of_nat (length data) - Num.one)%num
                  ≡ₙ Num.of_nat (length data - 1))
    by (apply (count_pred Hexact); [lia|done]).
  assert (Hone : machine Num.one).
  { change Num.one with (Num.of_nat 1).
    by apply (machine_count Horder). }
  destruct (scaled_within Horder (Num.of_nat j)
              (Num.of_nat (length data) - Num.one)%num width)
    as (_ & Hx0 & Hx1); try done.
  { apply (machine_count Horder). lia. }
  { apply (machine_sub Horder); [|done].
    by apply (machine_count Horder). }
  { apply (CanvasFacts.of_nat_le 0). lia. }
  { apply (CanvasFacts.leb_equiv_r _ (Num.of_nat (length data - 1)));
      [by apply EquivFacts.equiv_sym|].
    apply CanvasFacts.of_nat_le. lia. }
  { apply (CanvasFacts.ltb_equiv_r _ (Num.of_nat (length data - 1)));
      [by apply EquivFacts.equiv_sym|].
    apply CanvasFacts.of_nat_pos. lia. }
  { by apply (EquivFacts.equiv_isFinite _ _ Hpred). }
  (* the vertical position *)
  assert (Hvalue0 : Num.leb Num.zero (v - gmin)%num = true).
  { apply (CanvasFacts.leb_equiv_l (gmin - gmin)%num).
    - apply (minus_equal Hexact); [done|apply EquivFacts.equiv_same].
    - by apply (sub_mono Horder). }
  assert (Hvalue1 : Num.leb (v - gmin)%num (gmax - gmin)%num = true)
    by by apply (sub_mono Horder).
  destruct (scaled_within Horder (v - gmin)%num (gmax - gmin)%num
              height)
    as (Hmp & Hp0 & Hp1); try done.
  { by apply (machine_sub Horder). }
  { by apply (machine_sub Horder). }
  destruct (sub_unit Horder
              (((v - gmin) / (gmax - gmin)) * height)%num height)
    as [Hy0 Hy1]; try done.
  unfold onCanvas, pointOf, xOf, yOf. cbn [fst snd].
  by rewrite Hx0, Hx1, Hy0, Hy1.
Qed.

(** The chart of the scenario on a canvas of 600 by 400, in the
    arithmetic of the machine. *)
Lemma vertices_on_canvas_witness :
  let sensorData := m_sensorData scenarioWindow in
  let selectedSensors := ticked (m_sensors scenarioWindow) in
  let ids := Object_keys selectedSensors in
  let scan := scanSensors sensorData 0 ids scanStart in
  let gmin := fst (@chartRange binary64 scan) in
  let gmax := snd (@chartRange binary64 scan) in
  @ExactCases binary64 ∧ @OrderLaws binary64
  ∧ @machine binary64 (Finite 600) ∧ @machine binary64 (Finite 400)
  ∧ Num.isFinite (Finite 600) = true
  ∧ Num.leb Num.zero (Finite 600) = true
  ∧ Num.isFinite (Finite 400) = true
  ∧ Num.leb Num.zero (Finite 400) = true
  ∧ Forall (@machine binary64) (selectedValues sensorData ids)
  ∧ Num.isFinite gmin = true ∧ Num.isFinite gmax = true
  ∧ Num.isFinite (@fsub binary64 gmax gmin) = true
  ∧ Num.ltb Num.zero (@fsub binary64 gmax gmin) = true
  ∧ "3" ∈ ids ∧ dataOf sensorData "3" = Some scenarioSeries
  ∧ (2 <= length scenarioSeries)%nat
  ∧ (Z.of_nat (length scenarioSeries) <= 2 ^ 53)%Z
  ∧ Forall (λ p, onCanvas (Finite 600) (Finite 400) p = true)
           (vertices (@plotOne binary64 (Finite 600) (Finite 400) gmin gmax
                               "#4CAF50" scenarioSeries)).
Proof.
  intros sensorData selectedSensors ids scan gmin gmax.
  assert (Hwidth : @machine binary64 (Finite 600)) by by vm_compute.
  assert (Hheight : @machine binary64 (Finite 400)) by by vm_compute.
  assert (Hvalues : Forall (@machine binary64)
                           (selectedValues sensorData ids))
    by (repeat constructor; by vm_compute).
  assert (Hgmin : Num.isFinite gmin = true) by by vm_compute.
  assert (Hgmax : Num.isFinite gmax = true) by by vm_compute.
  assert (Hfinite : Num.isFinite (@fsub binary64 gmax gmin) = true)
    by by vm_compute.
  assert (Hextent : Num.ltb Num.zero (@fsub binary64 gmax gmin) = true)
    by by vm_compute.
  assert (Hkey : "3" ∈ ids) by by left.
  assert (Hn : (2 <= length scenarioSeries)%nat) by (cbn; lia).
  assert (Hmax : (Z.of_nat (length scenarioSeries) <= 2 ^ 53)%Z)
    by by vm_compute.
  split; [exact Binary64Facts.binary64_exact_cases|].
  split; [exact Binary64Order.binary64_order_laws|].
  split; [exact Hwidth|]. split; [exact Hheight|].
  split; [reflexivity|]. split; [reflexivity|].
  split; [reflexivity|]. split; [reflexivity|].
  split; [exact Hvalues|].
  split; [exact Hgmin|]. split; [exact Hgmax|].
  split; [exact Hfinite|]. split; [exact Hextent|].
  split; [exact Hkey|]. split; [reflexivity|]. split; [exact Hn|].
  split; [exact Hmax|].
  exact (@vertices_on_canvas binary64 (Finite 600) (Finite 400) sensorData
           selectedSensors "3" "#4CAF50" scenarioSeries
           Binary64Facts.binary64_exact_cases
           Binary64Order.binary64_order_laws Hwidth Hheight
           eq_refl eq_refl eq_refl eq_refl Hvalues
           Hgmin Hgmax Hfinite Hextent Hkey eq_refl Hn Hmax).
Defined.

(** ** The address shown and saved *)

Module AddressFacts.

Lemma append_nil_r (s : string) : s +:+ "" = s.
Proof.
  induction s as [|c s IH]; [done|].
  change (String c (s +:+ "") = String c s). by rewrite IH.
Qed.

Lemma splitSpace_parts (s : string) : splitSpace s ≠ [].
Proof.
  destruct s as [|c s]; [done|]. cbn [splitSpace].
  destruct (Ascii.eqb c _); [done|]. by destruct (splitSpace s).
Qed.

Lemma joinSpace_cons (part : string) (rest : list string) :
  rest ≠ [] → joinSpace (part :: rest) = part +:+ " " +:+ joinSpace rest.
Proof. by destruct rest. Qed.

Lemma splitSpace_join (s : string) : joinSpace (splitSpace s) = s.
Proof.
  induction s as [|c s IH]; [done|]. cbn [splitSpace].
  destruct (Ascii.eqb_spec c (Ascii.ascii_of_nat 32)) as [->|_].
  - rewrite joinSpace_cons by apply splitSpace_parts. by rewrite IH.
  - pose proof (splitSpace_parts s) as Hparts.
    destruct (splitSpace s) as [|first [|second more]]; [done| |].
    + cbn in *. by rewrite IH.
    + rewrite joinSpace_cons by done. rewrite joinSpace_cons in IH by done.
      cbn. by rewrite <- IH.
Qed.

Lemma longer (a b : string) : b ≠ "" → a ≠ a +:+ b.
Proof.
  intros Hb Heq. apply (f_equal String.length) in Heq.
  rewrite FormatFacts.length_append in Heq. destruct b; [done|].
  cbn in Heq. lia.
Qed.

Lemma append_inj_l (a b c : string) : a +:+ b = a +:+ c → b = c.
Proof.
  induction a as [|x a IH]; [done|]. cbn. intros [= Heq]. by apply IH.
Qed.

End AddressFacts.

(** X19: the address in the header of a dialog and in a saved file is
    the address of the station only when that has at most two parts
    between spaces, the last of them not empty; an address without
    characters becomes the words for no data, and any other address is cut
    after its second part, or after its first when the second is empty. *)
Theorem dialogAddress_two_parts (stationAddress : string) :
  (dialogAddress stationAddress = stationAddress
   ↔ (length (splitSpace stationAddress) <= 2)%nat
     ∧ last (splitSpace stationAddress) ≠ Some "")
  ∧ (stationAddress = "" → dialogAddress stationAddress = "Brak danych")
  ∧ (stationAddress ≠ "" →
     match splitSpace stationAddress with
     | street :: number :: _ =>
         dialogAddress stationAddress
         = if String.eqb number "" then street
           else street +:+ " " +:+ number
     | _ => dialogAddress stationAddress = stationAddress
     end).
Proof.
  destruct (String.eqb_spec stationAddress "") as [->|Hsome].
  { split; [|split; [done|done]]. split; [discriminate|].
    by intros [_ Hlast]. }
  destruct (String.eqb_spec stationAddress "Brak danych") as [->|Hwords].
  { split; [|split; [done|]].
    - split; [|done]. intros _. split; [vm_compute; lia|discriminate].
    - done. }
  assert (Hshown : dialogAddress stationAddress
                   = shownAddress
                       (nth 0 (splitSpace stationAddress) "")
                       (if (1 <? length (splitSpace stationAddress))%nat
                        then nth 1 (splitSpace stationAddress) "" else "")).
  { unfold dialogAddress, addressParts.
    destruct (String.eqb_spec stationAddress "") as [?|_]; [done|].
    by destruct (String.eqb_spec stationAddress "Brak danych") as [?|_]. }
  rewrite Hshown. clear Hshown.
  pose proof (AddressFacts.splitSpace_join stationAddress) as Hjoin.
  pose proof (AddressFacts.splitSpace_parts stationAddress) as Hparts.
  destruct (splitSpace stationAddress) as [|street [|number later]];
    [done| |].
  - cbn in Hjoin. subst street. cbn [nth length Nat.ltb Nat.leb].
    unfold shownAddress. cbn [String.eqb].
    rewrite AddressFacts.append_nil_r.
    split; [|split; [done|]].
    + split; [|done]. intros _. split; [cbn; lia|]. cbn. congruence.
    + done.
  - rewrite AddressFacts.joinSpace_cons in Hjoin by done.
    cbn [nth length Nat.ltb Nat.leb]. unfold shownAddress.
    split; [|split; [done|]].
    2:{ intros _. destruct (String.eqb number ""); [|done].
        apply AddressFacts.append_nil_r. }
    destruct (String.eqb_spec number "") as [->|Hnumber].
    + rewrite AddressFacts.append_nil_r. split.
      * intros Heq. exfalso. rewrite <- Hjoin in Heq.
        by apply AddressFacts.longer in Heq.
      * intros [Hlen Hlast]. destruct later as [|third later];
          [done|cbn in Hlen; lia].
    + destruct later as [|third later].
      * cbn in Hjoin. split; [|done]. intros _.
        split; [cbn; lia|]. cbn. congruence.
      * split; [|intros [Hlen _]; cbn in Hlen; lia].
        intros Heq. exfalso. rewrite <- Hjoin in Heq.
        rewrite AddressFacts.joinSpace_cons in Heq by done.
        apply AddressFacts.append_inj_l, AddressFacts.append_inj_l in Heq.
        by apply AddressFacts.longer in Heq.
Qed.

(** An address of three parts is cut after the second. *)
Example address_cut :
  dialogAddress "al. Jana Pawła II 5" = "al. Jana"
  ∧ dialogAddress "Rynek 1" = "Rynek 1"
  ∧ dialogAddress "" = "Brak danych".
Proof. repeat split. Qed.

(** ** Requests and what follows them *)

Section SearchRequests.
Context `{QtLibrary}.

(** X20: a search sets the status to the words for a search in progress
    and sends one request, whose reply goes to [onGeocodeReply] with the
    city searched for; whatever the reply, the status is then another one
    and its change is the last thing announced; and after a reply that is
    an error or holds no result the window is as before the search but for
    the status. *)
Theorem searchCity_ends_with_verdict
    (reply : QNetworkReply (list GeocodeResult)) (city : string)
    (w : MainWindow) :
  let '(searching, emitted, request) := searchCity city w in
  let answer := onGeocodeReply reply city searching in
  finished request = ToGeocodeReply city
  ∧ searching = set_status ("Wyszukiwanie: " +:+ city +:+ "...") w
  ∧ emitted = [statusChanged]
  ∧ m_status (fst answer) ≠ m_status searching
  ∧ last (snd answer) = Some statusChanged
  ∧ (match reply with
     | ReplyError _ | ReplyFinished [] =>
         set_status (m_status w) (fst answer) = w
     | _ => True
     end).
Proof.
  cbn. split; [done|]. split; [done|]. split; [done|].
  destruct reply as [errorString|[|result more]].
  - cbn. split; [discriminate|]. split; [done|]. by destruct w.
  - cbn. split; [discriminate|]. split; [done|]. by destruct w.
  - split; [|split; [|done]].
    + change (m_status (fst (onGeocodeReply (ReplyFinished (result :: more))
                               city
                               (set_status ("Wyszukiwanie: " +:+ city
                                            +:+ "...") w)))
              ≠ "Wyszukiwanie: " +:+ city +:+ "...").
      rewrite onGeocodeReply_answer.
      destruct (cityStations city _) as [|s found];
        [destruct (fst (findClosest _ _))|]; window_simpl; discriminate.
    + unfold onGeocodeReply.
      destruct (fold_left _ _ _) as [w1 e1].
      assert (Hlast : ∀ e2,
                last (mapCenterChanged
                      :: e1 ++ e2 ++ [stationsChanged; statusChanged])
                = Some statusChanged).
      { intros e2.
        change [stationsChanged; statusChanged]
          with ([stationsChanged] ++ [statusChanged]).
        rewrite !app_assoc, app_comm_cons. apply last_snoc. }
      destruct (m_stations w1) as [|s found];
        [destruct (fst (findClosest _ _)) as [closest|]|];
        unfold updateStationSearchStatus; cbn [snd app];
        first [exact (Hlast [])
              |exact (Hlast [allStationsChanged; mapCenterChanged])].
Qed.

(** X21: once the geocoder has answered a search, the marker of a
    station of the catalogue is red exactly when the station is not under
    the pointer and its id is the id of a listed station; and a marker is
    large exactly when it is not blue. *)
Theorem markers_after_search (result : GeocodeResult)
    (more : list GeocodeResult) (searchedCity : string) (w : MainWindow)
    (highlightedStationId : Z) :
  let w' := fst (onGeocodeReply (ReplyFinished (result :: more))
                                searchedCity w) in
  (∀ s, s ∈ m_allStations w' →
     markerColor highlightedStationId s = "#FF0000"
     ↔ stationId s ≠ highlightedStationId
       ∧ stationId s ∈ map stationId (m_stations w'))
  ∧ (∀ s, markerWidth highlightedStationId s = 16%Z
          ↔ markerColor highlightedStationId s ≠ "#0000FF").
Proof.
  intros w'. split.
  - destruct (onGeocodeReply_found result more searchedCity w)
      as (found & _ & Hlist & Hall & _).
    fold w' in Hlist, Hall. rewrite Hlist, Hall.
    intros s (s0 & -> & Hs0)%list_elem_of_fmap.
    unfold markerColor. cbn [isSearched stationId setIsSearched].
    rewrite map_map. cbn [stationId setIsSearched].
    destruct (Z.eqb_spec (stationId s0) highlightedStationId) as [Heq|Hne].
    + split; [discriminate|]. by intros [? _].
    + destruct (decide (stationId s0 ∈ map (λ x, stationId x) found))
        as [Hin|Hout].
      * rewrite bool_decide_eq_true_2 by done. done.
      * rewrite bool_decide_eq_false_2 by done.
        split; [discriminate|]. by intros [_ ?].
  - intros s. unfold markerWidth, markerColor.
    destruct (stationId s =? highlightedStationId)%Z, (isSearched s);
      cbn [orb]; split; try done; discriminate.
Qed.

End SearchRequests.

(** X22: the requests for the sensors of two stations, and for the data
    of two sensors, go to the same address only when the ids are the same,
    and a request for sensors never goes to the address of a request for
    data; the reply to a request for data goes to [onSensorDataReply] with
    the id the data was asked for. *)
Theorem fetch_addresses (id id' : Z) :
  (url (fetchSensors id) = url (fetchSensors id') → id = id')
  ∧ (url (fetchSensorData id) = url (fetchSensorData id') → id = id')
  ∧ url (fetchSensors id) ≠ url (fetchSensorData id')
  ∧ finished (fetchSensorData id) = ToSensorDataReply id
  ∧ finished (fetchSensors id) = ToSensorsReply.
Proof.
  split; [|split; [|split; [|done]]].
  - cbn [url fetchSensors]. intros Heq%AddressFacts.append_inj_l.
    by apply QString_number_inj.
  - cbn [url fetchSensorData]. intros Heq%AddressFacts.append_inj_l.
    by apply QString_number_inj.
  - cbn [url fetchSensors fetchSensorData]. intros Heq.
    apply (AddressFacts.append_inj_l "https://api.gios.gov.pl/pjp-api/rest/"
             ("station/sensors/" +:+ QString_number id)
             ("data/getData/" +:+ QString_number id')) in Heq.
    discriminate Heq.
Qed.

(** X23: a reply that arrives after the box of its sensor has been
    cleared puts the series into the store although the sensor is not
    selected; a paint does not draw it, and is the paint of the store
    without it unless that store is empty. *)
Theorem reply_after_clear (width height : number) (values : list Sample)
    (sensor : Sensor) (selectedSensors : JSObject) (w : MainWindow) :
  let cleared := onCheckedChanged false sensor (selectedSensors, w) in
  let late := fst (onSensorDataReply (ReplyFinished values)
                                     (sensorId sensor) (snd cleared)) in
  (propertyKey (sensorId sensor) ∉ Object_keys (fst cleared))
  ∧ m_sensorData (snd cleared) !! QString_number (sensorId sensor) = None
  ∧ m_sensorData late !! QString_number (sensorId sensor)
    = Some (QList values)
  ∧ (m_sensorData (snd cleared) ≠ ∅ →
     onPaint width height (m_sensorData late) (fst cleared)
     = onPaint width height (m_sensorData (snd cleared)) (fst cleared)).
Proof.
  intros cleared late.
  assert (Hkey : propertyKey (sensorId sensor) ∉ Object_keys (fst cleared)).
  { subst cleared. cbn [onCheckedChanged fst].
    rewrite Object_keys_keysOf, propertyKey_elem, keysOf_deleteProperty.
    by intros [? _]. }
  split; [done|].
  split; [subst cleared; cbn [onCheckedChanged snd]; unfold removeSensorData;
          window_simpl; apply lookup_delete_eq|].
  split.
  { subst late. unfold onSensorDataReply. window_simpl.
    rewrite map_sample_id. apply lookup_insert_eq. }
  intros Hstore. rewrite !onPaint_cases.
  assert (Hsame : ∀ key, key ∈ Object_keys (fst cleared) →
            dataOf (m_sensorData late) key
            = dataOf (m_sensorData (snd cleared)) key).
  { intros key Hin. subst late. unfold onSensorDataReply, dataOf.
    window_simpl. rewrite lookup_insert_ne; [done|].
    intros <-. by apply Hkey. }
  destruct (Object_keys (fst cleared)) as [|first rest]; [done|].
  rewrite (bool_decide_eq_false_2 _ Hstore).
  rewrite bool_decide_eq_false_2.
  2:{ subst late. unfold onSensorDataReply. window_simpl.
      apply insert_non_empty. }
  rewrite (Hsame first) by by left.
  destruct (dataOf (m_sensorData (snd cleared)) first)
    as [[|sample data]|]; try done.
  unfold chartOf. rewrite (scanSensors_ext _ _ _ _ _ Hsame).
  by rewrite (plotSeries_ext _ _ _ _ _ _ _ _ Hsame).
Qed.
